(* ===================================================================== *)
(* rtpengine-mon: the audio-spying subsystem                             *)
(*                                                                       *)
(* A shallow embedding of internal/rtpengine/client.go (sendCommand) and *)
(* of internal/spy (tag detection, backend subscription, source and      *)
(* session registry, RTP fan-out) with the properties of the             *)
(* specification stated over it.                                         *)
(* ===================================================================== *)

From Stdlib Require Import ZArith String Ascii List Lia Bool Arith.
From Stdlib Require Import Sorting.Sorted Sorting.Permutation.
From Stdlib Require Import Floats.SpecFloat DecimalString DecimalNat.
From stdpp Require Import gmap strings list fin_maps sorting.

Open Scope string_scope.
Open Scope list_scope.

(* ===================================================================== *)
(* 1. Go strings as byte sequences; strings.ReplaceAll                   *)
(* ===================================================================== *)

Module GoStrings.

(* A Go string is a sequence of bytes; the list view is used for the
 positional statements. *)
Definition bytes_of (s : string) : list ascii := list_ascii_of_string s.
Definition of_bytes (l : list ascii) : string := string_of_list_ascii l.

Fixpoint has_prefix (p s : list ascii) : bool :=
match p, s with
| [], _ => true
| _ :: _, [] => false
| a :: p', b :: s' => if Ascii.eqb a b then has_prefix p' s' else false
end.

(* strings.Replace(s, old, new, -1) for a non-empty [old]: scan left to
 right; at the leftmost occurrence of [old] emit [new] and resume after
 the occurrence (the [skip] counter walks over the bytes of the
 occurrence so that matches never overlap); other bytes are copied. *)
Fixpoint replace_from (old new : list ascii) (skip : nat) (s : list ascii)
: list ascii :=
match s with
| [] => []
| c :: s' =>
    match skip with
    | S k => replace_from old new k s'
    | O => if has_prefix old s
           then new ++ replace_from old new (Nat.pred (List.length old)) s'
           else c :: replace_from old new 0 s'
    end
end.

Definition ReplaceAll (s old new : string) : string :=
of_bytes (replace_from (bytes_of old) (bytes_of new) 0 (bytes_of s)).

(* [old] occurs in [s] at byte offset [i]. *)
Definition occurs_at (old s : list ascii) (i : nat) : bool :=
has_prefix old (skipn i s).

End GoStrings.

(* setupBackendSubscription, line
     finalSDP := strings.ReplaceAll(pc.LocalDescription().SDP, "m=audio 0", "m=audio 9") *)
Definition m_audio_0 : string := "m=audio 0".
Definition m_audio_9 : string := "m=audio 9".

Definition rewriteAnswerSDP (sdp : string) : string :=
  GoStrings.ReplaceAll sdp m_audio_0 m_audio_9.

(* ===================================================================== *)
(* 2. Dynamically typed values and errors                                *)
(* ===================================================================== *)

(* Go's interface{} as it occurs in the engine's request and response
   trees: int64, float64, string, []interface{}, map[string]interface{}. *)
#[warnings="-register-all"]
Inductive value : Type :=
| VInt (n : Z)
| VFloat (f : spec_float)
| VStr (s : string)
| VList (l : list value)
| VDict (m : gmap string value).

(* Go's error values: every fmt.Errorf site keeps its format string and
   its argument; [ErrLib] is an error handed back by a library call
   (net, bencode, webrtc). *)
Inductive error : Type :=
| ErrLib (msg : string)
| Errorf (msg : string)
| ErrorfW (msg : string) (cause : error)        (* "...: %w" *)
| ErrorfV (msg : string) (arg : option value)   (* "...: %v" *)
| ErrorfT (msg : string) (arg : value).         (* "...: %T" *)

Inductive result (A : Type) : Type :=
| Ok (a : A)
| Err (e : error).
Arguments Ok {A} a.
Arguments Err {A} e.

Definition is_Err {A} (r : result A) : bool :=
  match r with Err _ => true | Ok _ => false end.

(* A type assertion v.(string) on a map lookup: resp["k"].(string). *)
Definition as_string (v : option value) : option string :=
  match v with Some (VStr s) => Some s | _ => None end.

Definition as_dict (v : option value) : option (gmap string value) :=
  match v with Some (VDict m) => Some m | _ => None end.

Definition int64_min : Z := - 2 ^ 63.
Definition int64_max : Z := 2 ^ 63 - 1.

(* int64(c) for c float64: the fraction is discarded. For a value outside
   int64 (and for NaN and the infinities) Go leaves the result to the
   implementation; amd64 yields the smallest int64. *)
Definition int64_of_float64 (c : spec_float) : Z :=
  match c with
  | S754_zero _ => 0
  | S754_finite sign m e =>
      let mag := if (0 <=? e)%Z then (Z.pos m * 2 ^ e)%Z
                 else (Z.pos m / 2 ^ (- e))%Z in
      let v := if sign then (- mag)%Z else mag in
      if ((int64_min <=? v) && (v <=? int64_max))%Z then v else int64_min
  | S754_infinity _ | S754_nan => int64_min
  end.

(* ===================================================================== *)
(* 3a. The engine control client (rtpengine.client)                      *)
(* ===================================================================== *)

(* bytes.IndexByte: the index of the first [c] in [b], or -1. *)
Fixpoint IndexByte (b : list ascii) (c : ascii) : Z :=
  match b with
  | [] => (-1)%Z
  | x :: b' =>
      if Ascii.eqb x c then 0%Z
      else let i := IndexByte b' c in
           if (i =? -1)%Z then (-1)%Z else (i + 1)%Z
  end.

(* What the socket does with one request: WriteToUDP fails, ReadFromUDP
   fails, the read deadline of 2 seconds passes with nothing received, or
   a datagram arrives. *)
Inductive udp_exchange : Type :=
| WriteFails (e : error)
| ReadFails (e : error)
| DeadlineExpired
| Datagram (payload : list ascii).

Definition read_deadline_seconds : Z := 2.
Definition respBuf_size : nat := Z.to_nat 65535.

Section ClientModel.
(* bencode.Marshal into the request buffer and bencode.Decode of
   github.com/jackpal/bencode-go: the bytes written, the value read, or
   the library's error. *)
Variable Marshal : gmap string value -> result (list ascii).
Variable Decode : list ascii -> result value.
(* The engine behind the socket, as seen from this client. *)
Variable network : list ascii -> udp_exchange.

(* client.sendCommand; [cookie] is what generateCookie drew. The
   request and error counters are telemetry and are left out. *)
Definition sendCommand (cookie command : string)
    (args : gmap string value) : result (gmap string value) :=
  let args := <[ "command" := VStr command ]> args in
  match Marshal args with
  | Err err => Err (ErrorfW "failed to marshal bencode" err)
  | Ok body =>
      let buf := GoStrings.bytes_of (String.append cookie " ") ++ body in
      match network buf with
      | WriteFails err => Err (ErrorfW "failed to write to udp" err)
      | ReadFails err => Err (ErrorfW "failed to read from udp" err)
      | DeadlineExpired =>
          Err (ErrorfW "failed to read from udp" (ErrLib "i/o timeout"))
      | Datagram payload =>
          let resp := firstn respBuf_size payload in   (* respBuf[:n] *)
          let spaceIdx := IndexByte resp " "%char in
          if (spaceIdx =? -1)%Z
          then Err (Errorf "invalid response format (no space)")
          else
            match Decode (skipn (Z.to_nat (spaceIdx + 1)) resp) with
            | Err err => Err (ErrorfW "decode error" err)
            | Ok decoded =>
                match decoded with
                | VDict resp =>
                    match as_string (resp !! "result") with
                    | Some result =>
                        if String.eqb result "error"
                        then Err (ErrorfV "rtpengine error"
                                          (resp !! "error-reason"))
                        else Ok resp
                    | None => Ok resp
                    end
                | _ => Err (ErrorfT "decoded response is not a map" decoded)
                end
            end
      end
  end.

Definition strings (l : list string) : value := VList (List.map VStr l).

Definition QueryCall (cookie callID : string) :=
  sendCommand cookie "query" {[ "call-id" := VStr callID ]}.

Definition Subscribe (cookie callID tag : string) :=
  sendCommand cookie "subscribe request"
    (<[ "call-id" := VStr callID ]>
    (<[ "from-tag" := VStr tag ]>
    (<[ "flags" := strings ["trust-address"; "generate-mid"; "SDES-off";
                            "no-rtcp-attribute"; "trickle-ICE"] ]>
    (<[ "rtcp-mux" := strings ["offer"; "require"] ]>
    (<[ "transport-protocol" := VStr "UDP/TLS/RTP/SAVPF" ]>
    (<[ "ICE" := VStr "force" ]>
    {[ "codec" := VDict (<[ "strip" := VStr "all" ]>
                         {[ "transcode" := VStr "PCMU" ]}) ]})))))).

Definition SubscribeAnswer (cookie callID sdp toTag : string) :=
  sendCommand cookie "subscribe answer"
    (<[ "call-id" := VStr callID ]>
    (<[ "sdp" := VStr sdp ]>
    {[ "to-tag" := VStr toTag ]})).

Definition UnSubscribe (cookie callID toTag : string) :=
  sendCommand cookie "unsubscribe"
    (<[ "call-id" := VStr callID ]>
    (<[ "from-tag" := VStr toTag ]>
    {[ "to-tag" := VStr toTag ]})).

Definition Statistics (cookie : string) :=
  sendCommand cookie "statistics" ∅.
End ClientModel.

(* The error kinds of the specification, read off one exchange.
   [framed resp pre post]: the first space of the response separates the
   cookie [pre] from the body [post]. *)
Definition framed (resp pre post : list ascii) : Prop :=
  resp = pre ++ " "%char :: post /\ ~ In " "%char pre.

Definition transport_failure (x : udp_exchange) : Prop :=
  match x with
  | WriteFails _ | ReadFails _ | DeadlineExpired => True
  | Datagram _ => False
  end.

Definition protocol_failure (Decode : list ascii -> result value)
    (x : udp_exchange) : Prop :=
  match x with
  | Datagram payload =>
      let resp := firstn respBuf_size payload in
      ~ In " "%char resp \/
      exists pre post, framed resp pre post /\
                       forall m, Decode post <> Ok (VDict m)
  | _ => False
  end.

(* The response is a well-framed dictionary [m]. *)
Definition response_dict (Decode : list ascii -> result value)
    (x : udp_exchange) (m : gmap string value) : Prop :=
  match x with
  | Datagram payload =>
      exists pre post, framed (firstn respBuf_size payload) pre post /\
                       Decode post = Ok (VDict m)
  | _ => False
  end.

Definition engine_failure (Decode : list ascii -> result value)
    (x : udp_exchange) : Prop :=
  exists m, response_dict Decode x m /\ m !! "result" = Some (VStr "error").

(* A bencode codec for the value trees above, used to run the client on
   concrete datagrams: integers [i<n>e], strings [<len>:<bytes>], lists
   [l...e], dictionaries [d...e] with keys in byte order. *)
Module Bencode.

Definition decimal (n : Z) : list ascii :=
  GoStrings.bytes_of (NilZero.string_of_int (Z.to_int n)).

Definition key_le : relation (string * value) :=
  fun a b => String.leb (fst a) (fst b) = true.

#[global] Instance key_le_dec a b : Decision (key_le a b).
Proof. unfold key_le. apply _. Defined.

Definition encode_string (s : string) : list ascii :=
  decimal (Z.of_nat (String.length s)) ++ ":"%char :: GoStrings.bytes_of s.

Definition concat_results (items : list (result (list ascii)))
  : result (list ascii) :=
  foldr (fun item acc =>
           match item, acc with
           | Ok a, Ok b => Ok (a ++ b)
           | Err e, _ => Err e
           | _, Err e => Err e
           end) (Ok ["e"%char]) items.

Fixpoint encode (depth : nat) (v : value) : result (list ascii) :=
  match depth with
  | O => Err (ErrLib "bencode: value nested too deeply")
  | S d =>
      match v with
      | VInt n => Ok ("i"%char :: decimal n ++ ["e"%char])
      | VFloat _ => Err (ErrLib "bencode: unsupported type float64")
      | VStr s => Ok (encode_string s)
      | VList l =>
          match concat_results (List.map (encode d) l) with
          | Ok b => Ok ("l"%char :: b)
          | Err e => Err e
          end
      | VDict m =>
          let entries :=
            List.map (fun kv =>
                        match encode d (snd kv) with
                        | Ok b => Ok (encode_string (fst kv) ++ b)
                        | Err e => Err e
                        end)
                     (merge_sort key_le (map_to_list m)) in
          match concat_results entries with
          | Ok b => Ok ("d"%char :: b)
          | Err e => Err e
          end
      end
  end.

Definition Marshal (args : gmap string value) : result (list ascii) :=
  encode 16 (VDict args).

Definition is_digit (c : ascii) : bool :=
  (48 <=? nat_of_ascii c)%nat && (nat_of_ascii c <=? 57)%nat.

Fixpoint read_digits (s : list ascii) (acc : Z) : Z * list ascii :=
  match s with
  | c :: r =>
      if is_digit c
      then read_digits r (10 * acc + Z.of_nat (nat_of_ascii c - 48))%Z
      else (acc, s)
  | [] => (acc, s)
  end.

Fixpoint pair_up (vs : list value) : option (gmap string value) :=
  match vs with
  | [] => Some ∅
  | VStr k :: v :: rest =>
      match pair_up rest with
      | Some m => Some (<[ k := v ]> m)
      | None => None
      end
  | _ => None
  end.

Fixpoint decode_value (fuel : nat) (s : list ascii)
  : option (value * list ascii) :=
  match fuel with
  | O => None
  | S f =>
      match s with
      | [] => None
      | c :: r =>
          if Ascii.eqb c "i" then
            let '(neg, r0) := match r with
                              | "-"%char :: r' => (true, r')
                              | _ => (false, r)
                              end in
            match read_digits r0 0 with
            | (n, "e"%char :: r1) =>
                Some (VInt (if neg then - n else n)%Z, r1)
            | _ => None
            end
          else if Ascii.eqb c "l" then
            match decode_items f r with
            | Some (vs, r1) => Some (VList vs, r1)
            | None => None
            end
          else if Ascii.eqb c "d" then
            match decode_items f r with
            | Some (vs, r1) =>
                match pair_up vs with
                | Some m => Some (VDict m, r1)
                | None => None
                end
            | None => None
            end
          else if is_digit c then
            match read_digits s 0 with
            | (n, ":"%char :: r1) =>
                if (Z.to_nat n <=? List.length r1)%nat
                then Some (VStr (GoStrings.of_bytes (firstn (Z.to_nat n) r1)),
                           skipn (Z.to_nat n) r1)
                else None
            | _ => None
            end
          else None
      end
  end
with decode_items (fuel : nat) (s : list ascii)
  : option (list value * list ascii) :=
  match fuel with
  | O => None
  | S f =>
      match s with
      | "e"%char :: r => Some ([], r)
      | _ =>
          match decode_value f s with
          | Some (v, r1) =>
              match decode_items f r1 with
              | Some (vs, r2) => Some (v :: vs, r2)
              | None => None
              end
          | None => None
          end
      end
  end.

Definition Decode (b : list ascii) : result value :=
  match decode_value (2 * List.length b + 2) b with
  | Some (v, _) => Ok v
  | None => Err (ErrLib "bencode: syntax error")
  end.

End Bencode.

(* Engines for the boundary cases of the specification. *)
Definition engine_replies (reply : string) : list ascii -> udp_exchange :=
  fun _ => Datagram (GoStrings.bytes_of reply).

Definition reply_no_such_call : string :=
  "5f2a d12:error-reason12:no such call6:result5:errore".

Definition reply_ok : string := "5f2a d6:result2:oke".

Definition reply_no_space : string := "abc".

(* ===================================================================== *)
(* 3. Tag discovery (spy.Service.detectTags)                             *)
(* ===================================================================== *)

Record TagInfo : Type := { Tag : string; Created : Z }.

(* The body of the loop over tagsMap: the [created] of one entry. *)
Definition created_of (v : value) : Z :=
  match v with
  | VDict info =>
      match info !! "created" with
      | Some (VInt c) => c
      | Some (VFloat c) => int64_of_float64 c
      | _ => 0%Z
      end
  | _ => 0%Z
  end.

(* The comparison handed to sort.Slice. *)
Definition less (a b : TagInfo) : bool :=
  if (Created a =? Created b)%Z
  then String.ltb (Tag a) (Tag b)
  else (Created a <? Created b)%Z.

(* sort.Slice(x, less) leaves x ordered so that no later element is less
   than an earlier one. *)
Definition sorted_by (lt : TagInfo -> TagInfo -> bool) : relation TagInfo :=
  fun a b => lt b a = false.

#[global] Instance sorted_by_dec lt a b : Decision (sorted_by lt a b).
Proof. unfold sorted_by. apply _. Defined.

Definition sort_Slice (lt : TagInfo -> TagInfo -> bool) (x : list TagInfo)
  : list TagInfo :=
  merge_sort (sorted_by lt) x.

Section DetectTags.
(* The order in which [range tagsMap] visits the entries; Go leaves it
   unspecified. *)
Variable rangeMap : gmap string value -> list (string * value).

Definition collect_tagInfos (tagsMap : gmap string value) : list TagInfo :=
  List.map (fun tv => {| Tag := fst tv; Created := created_of (snd tv) |})
           (rangeMap tagsMap).

(* detectTags after the QueryCall: [details, err] is what the client
   returned. *)
Definition detectTags_of (query : result (gmap string value))
  : result (string * string) :=
  match query with
  | Err err => Err err
  | Ok details =>
      match as_dict (details !! "tags") with
      | None => Err (Errorf "not enough tags found")
      | Some tagsMap =>
          if (size tagsMap <? 2)%nat
          then Err (Errorf "not enough tags found")
          else
            match sort_Slice less (collect_tagInfos tagsMap) with
            | t0 :: t1 :: _ => Ok (Tag t0, Tag t1)
            | _ => Err (Errorf "index out of range")   (* a Go panic *)
            end
      end
  end.
End DetectTags.

(* The order of the specification: ascending [created], ties broken on
   the tag string, byte-wise lexicographic. *)
Definition tag_lt (s t : string) : Prop := String.compare s t = Lt.

Definition ordered_before (a b : TagInfo) : Prop :=
  (Created a < Created b)%Z \/
  (Created a = Created b /\ tag_lt (Tag a) (Tag b)).

(* [c] is an entry of the tags map, read as the loop reads it. *)
Definition entry_of (tagsMap : gmap string value) (c : TagInfo) : Prop :=
  exists v, tagsMap !! Tag c = Some v /\ Created c = created_of v.

(* The query results of TestDetectTags and of the specification's
   scenarios. *)
Definition tag_created (created : Z) : value :=
  VDict {[ "created" := VInt created ]}.

Definition tags_normal : gmap string value :=
  <[ "tag-caller" := tag_created 1000 ]>
    {[ "tag-callee" := tag_created 2000 ]}.

Definition query_normal : gmap string value :=
  {[ "tags" := VDict tags_normal ]}.

Definition query_tie : gmap string value :=
  {[ "tags" := VDict (<[ "b" := tag_created 1000 ]>
                      {[ "a" := tag_created 1000 ]}) ]}.

Definition query_one_tag : gmap string value :=
  {[ "tags" := VDict {[ "tag1" := tag_created 1000 ]} ]}.

(* ===================================================================== *)
(* 4. The spy service: state                                             *)
(* ===================================================================== *)

(* Peer connections, Source objects and tracks live on the Go heap and are
   shared by pointer; they are named here by their addresses. *)
Definition pcid := nat.
Definition srcid := nat.
Definition trackid := nat.

(* webrtc.PeerConnectionState *)
Inductive PeerConnectionState : Type :=
| StateNew | StateConnecting | StateConnected
| StateDisconnected | StateFailed | StateClosed.

#[global] Instance PeerConnectionState_eq_dec : EqDecision PeerConnectionState.
Proof. solve_decision. Defined.

Inductive Leg : Type := LegFrom | LegTo.

(* The closures handed to OnConnectionStateChange. *)
Inductive handler : Type :=
| OnBackendState (source : srcid)
    (* setupBackendSubscription: on failed or closed, onClose(), which is
       func() { s.cleanupSource(source) } *)
| OnSessionState (sessionID : string) (source : srcid).
    (* createSession: on closed or failed, s.cleanupSession(sessionID, source) *)

Record PeerConnection : Type := {
  connectionState : PeerConnectionState;
  onConnectionStateChange : option handler;
  onTrack : option (srcid * Leg);     (* the fan-out reader to start *)
  localTracks : list trackid          (* AddTrack *)
}.

Record Session : Type := {
  ID : string;
  PC : pcid;
  TrackFrom : trackid;
  TrackTo : trackid
}.

Record Source : Type := {
  CallID : string;
  FromTag : string;
  ToTag : string;
  PCFrom : option pcid;               (* nil until the leg is set up *)
  PCTo : option pcid;
  SubTagFrom : string;
  SubTagTo : string;
  Sessions : gmap string Session;
  cancelled : bool                    (* source.ctx is done *)
}.

(* The methods of rtpengine.Client the service calls. *)
Inductive request : Type :=
| ReqQueryCall (callID : string)
| ReqSubscribe (callID tag : string)
| ReqSubscribeAnswer (callID sdp toTag : string)
| ReqUnSubscribe (callID toTag : string).

#[global] Instance request_eq_dec : EqDecision request.
Proof. solve_decision. Defined.

(* Goroutines that were started and have not run yet. *)
Inductive task : Type :=
| GoHandler (h : handler) (state : PeerConnectionState)
    (* pion notifies a state change by [go handler(state)] *)
| GoReleaseSource (source : srcid).
    (* the [go func() { ... }()] of cleanupSource *)

Record Service : Type := {
  pcs : gmap pcid PeerConnection;
  heap : gmap srcid Source;
  sources : gmap string srcid;        (* s.sources: call id -> *Source *)
  sessions : gmap string Session;     (* s.sessions *)
  sessionCounter : Z;                 (* spy.sessions_active *)
  sourcesMu : bool;                   (* s.sourcesMu is held *)
  engineLog : list request;           (* the requests made of the engine *)
  goroutines : list task;
  nextPC : pcid;
  nextSource : srcid;
  nextTrack : trackid;
  nextUUID : nat
}.

Definition NewService : Service :=
  {| pcs := ∅; heap := ∅; sources := ∅; sessions := ∅;
     sessionCounter := 0; sourcesMu := false; engineLog := [];
     goroutines := []; nextPC := 0; nextSource := 0; nextTrack := 0;
     nextUUID := 0 |}.

Definition set_pcs (f : gmap pcid PeerConnection -> gmap pcid PeerConnection)
    (s : Service) : Service :=
  {| pcs := f (pcs s); heap := heap s; sources := sources s;
     sessions := sessions s; sessionCounter := sessionCounter s;
     sourcesMu := sourcesMu s; engineLog := engineLog s;
     goroutines := goroutines s; nextPC := nextPC s;
     nextSource := nextSource s; nextTrack := nextTrack s;
     nextUUID := nextUUID s |}.

Definition set_heap (f : gmap srcid Source -> gmap srcid Source)
    (s : Service) : Service :=
  {| pcs := pcs s; heap := f (heap s); sources := sources s;
     sessions := sessions s; sessionCounter := sessionCounter s;
     sourcesMu := sourcesMu s; engineLog := engineLog s;
     goroutines := goroutines s; nextPC := nextPC s;
     nextSource := nextSource s; nextTrack := nextTrack s;
     nextUUID := nextUUID s |}.

Definition set_sources (f : gmap string srcid -> gmap string srcid)
    (s : Service) : Service :=
  {| pcs := pcs s; heap := heap s; sources := f (sources s);
     sessions := sessions s; sessionCounter := sessionCounter s;
     sourcesMu := sourcesMu s; engineLog := engineLog s;
     goroutines := goroutines s; nextPC := nextPC s;
     nextSource := nextSource s; nextTrack := nextTrack s;
     nextUUID := nextUUID s |}.

Definition set_sessions (f : gmap string Session -> gmap string Session)
    (s : Service) : Service :=
  {| pcs := pcs s; heap := heap s; sources := sources s;
     sessions := f (sessions s); sessionCounter := sessionCounter s;
     sourcesMu := sourcesMu s; engineLog := engineLog s;
     goroutines := goroutines s; nextPC := nextPC s;
     nextSource := nextSource s; nextTrack := nextTrack s;
     nextUUID := nextUUID s |}.

Definition set_sessionCounter (f : Z -> Z) (s : Service) : Service :=
  {| pcs := pcs s; heap := heap s; sources := sources s;
     sessions := sessions s; sessionCounter := f (sessionCounter s);
     sourcesMu := sourcesMu s; engineLog := engineLog s;
     goroutines := goroutines s; nextPC := nextPC s;
     nextSource := nextSource s; nextTrack := nextTrack s;
     nextUUID := nextUUID s |}.

Definition set_sourcesMu (b : bool) (s : Service) : Service :=
  {| pcs := pcs s; heap := heap s; sources := sources s;
     sessions := sessions s; sessionCounter := sessionCounter s;
     sourcesMu := b; engineLog := engineLog s;
     goroutines := goroutines s; nextPC := nextPC s;
     nextSource := nextSource s; nextTrack := nextTrack s;
     nextUUID := nextUUID s |}.

Definition set_engineLog (f : list request -> list request)
    (s : Service) : Service :=
  {| pcs := pcs s; heap := heap s; sources := sources s;
     sessions := sessions s; sessionCounter := sessionCounter s;
     sourcesMu := sourcesMu s; engineLog := f (engineLog s);
     goroutines := goroutines s; nextPC := nextPC s;
     nextSource := nextSource s; nextTrack := nextTrack s;
     nextUUID := nextUUID s |}.

Definition set_goroutines (f : list task -> list task)
    (s : Service) : Service :=
  {| pcs := pcs s; heap := heap s; sources := sources s;
     sessions := sessions s; sessionCounter := sessionCounter s;
     sourcesMu := sourcesMu s; engineLog := engineLog s;
     goroutines := f (goroutines s); nextPC := nextPC s;
     nextSource := nextSource s; nextTrack := nextTrack s;
     nextUUID := nextUUID s |}.

Definition bump_nextPC (s : Service) : Service :=
  {| pcs := pcs s; heap := heap s; sources := sources s;
     sessions := sessions s; sessionCounter := sessionCounter s;
     sourcesMu := sourcesMu s; engineLog := engineLog s;
     goroutines := goroutines s; nextPC := S (nextPC s);
     nextSource := nextSource s; nextTrack := nextTrack s;
     nextUUID := nextUUID s |}.

Definition bump_nextSource (s : Service) : Service :=
  {| pcs := pcs s; heap := heap s; sources := sources s;
     sessions := sessions s; sessionCounter := sessionCounter s;
     sourcesMu := sourcesMu s; engineLog := engineLog s;
     goroutines := goroutines s; nextPC := nextPC s;
     nextSource := S (nextSource s); nextTrack := nextTrack s;
     nextUUID := nextUUID s |}.

Definition bump_nextTrack (s : Service) : Service :=
  {| pcs := pcs s; heap := heap s; sources := sources s;
     sessions := sessions s; sessionCounter := sessionCounter s;
     sourcesMu := sourcesMu s; engineLog := engineLog s;
     goroutines := goroutines s; nextPC := nextPC s;
     nextSource := nextSource s; nextTrack := S (nextTrack s);
     nextUUID := nextUUID s |}.

Definition bump_nextUUID (s : Service) : Service :=
  {| pcs := pcs s; heap := heap s; sources := sources s;
     sessions := sessions s; sessionCounter := sessionCounter s;
     sourcesMu := sourcesMu s; engineLog := engineLog s;
     goroutines := goroutines s; nextPC := nextPC s;
     nextSource := nextSource s; nextTrack := nextTrack s;
     nextUUID := S (nextUUID s) |}.

(* Updates of one Source object through its pointer. *)
Definition with_PCFrom (pc : option pcid) (tag : string) (x : Source) : Source :=
  {| CallID := CallID x; FromTag := FromTag x; ToTag := ToTag x;
     PCFrom := pc; PCTo := PCTo x; SubTagFrom := tag; SubTagTo := SubTagTo x;
     Sessions := Sessions x; cancelled := cancelled x |}.

Definition with_PCTo (pc : option pcid) (tag : string) (x : Source) : Source :=
  {| CallID := CallID x; FromTag := FromTag x; ToTag := ToTag x;
     PCFrom := PCFrom x; PCTo := pc; SubTagFrom := SubTagFrom x; SubTagTo := tag;
     Sessions := Sessions x; cancelled := cancelled x |}.

Definition with_Sessions (f : gmap string Session -> gmap string Session)
    (x : Source) : Source :=
  {| CallID := CallID x; FromTag := FromTag x; ToTag := ToTag x;
     PCFrom := PCFrom x; PCTo := PCTo x; SubTagFrom := SubTagFrom x;
     SubTagTo := SubTagTo x; Sessions := f (Sessions x);
     cancelled := cancelled x |}.

Definition with_cancel (x : Source) : Source :=
  {| CallID := CallID x; FromTag := FromTag x; ToTag := ToTag x;
     PCFrom := PCFrom x; PCTo := PCTo x; SubTagFrom := SubTagFrom x;
     SubTagTo := SubTagTo x; Sessions := Sessions x; cancelled := true |}.

(* The calls into pion/webrtc whose failure the code handles. *)
Inductive rtc_call : Type :=
| CallNewPeerConnection
| CallSetRemoteDescription (sdp : string)
| CallCreateAnswer
| CallSetLocalDescription
| CallNewTrackLocalStaticRTP (id : string)
| CallAddTrack (track : trackid)
| CallCreateOffer.

(* What the service does not decide itself. *)
Record Env : Type := {
  (* the rtpengine.Client: the reply to a request, given the requests
     made before it *)
  engine : list request -> request -> result (gmap string value);
  (* the error, if any, of a WebRTC call on a peer connection *)
  rtcError : pcid -> rtc_call -> option error;
  (* pc.LocalDescription().SDP once gathering is complete *)
  localSDP : pcid -> string;
  (* uuid.New().String(), by draw *)
  uuid : nat -> string;
  (* the order of [range] over a map *)
  rangeTags : gmap string value -> list (string * value)
}.

(* A function of the service runs on one goroutine; it returns, or it
   waits for s.sourcesMu. *)
Inductive outcome (A : Type) : Type :=
| Done (a : A) (s : Service)
| Blocked (s : Service).
Arguments Done {A} a s.
Arguments Blocked {A} s.

Definition M (A : Type) : Type := Service -> outcome A.

#[global] Instance M_ret : MRet M := fun A a s => Done a s.
#[global] Instance M_bind : MBind M := fun A B k m s =>
  match m s with
  | Done a s' => k a s'
  | Blocked s' => Blocked s'
  end.

Definition get : M Service := fun s => Done s s.
Definition modify (f : Service -> Service) : M unit := fun s => Done tt (f s).

(* ===================================================================== *)
(* 5. The spy service: operations                                        *)
(* ===================================================================== *)

Definition newPeerConnection : PeerConnection :=
  {| connectionState := StateNew; onConnectionStateChange := None;
     onTrack := None; localTracks := [] |}.

Definition pc_with_state (st : PeerConnectionState) (p : PeerConnection) :=
  {| connectionState := st;
     onConnectionStateChange := onConnectionStateChange p;
     onTrack := onTrack p; localTracks := localTracks p |}.

Definition pc_with_handler (h : handler) (p : PeerConnection) :=
  {| connectionState := connectionState p;
     onConnectionStateChange := Some h;
     onTrack := onTrack p; localTracks := localTracks p |}.

Definition pc_with_onTrack (source : srcid) (leg : Leg) (p : PeerConnection) :=
  {| connectionState := connectionState p;
     onConnectionStateChange := onConnectionStateChange p;
     onTrack := Some (source, leg); localTracks := localTracks p |}.

Definition pc_add_track (t : trackid) (p : PeerConnection) :=
  {| connectionState := connectionState p;
     onConnectionStateChange := onConnectionStateChange p;
     onTrack := onTrack p; localTracks := localTracks p ++ [t] |}.

Definition terminal (st : PeerConnectionState) : bool :=
  match st with StateFailed | StateClosed => true | _ => false end.

Definition notify (p : PeerConnection) (st : PeerConnectionState) : list task :=
  match onConnectionStateChange p with
  | Some h => [GoHandler h st]
  | None => []
  end.

(* NewSource: the Source before any subscription. *)
Definition fresh_source (callID fromTag toTag : string) : Source :=
  {| CallID := callID; FromTag := fromTag; ToTag := toTag;
     PCFrom := None; PCTo := None; SubTagFrom := ""; SubTagTo := "";
     Sessions := ∅; cancelled := false |}.

Section ServiceModel.
Variable env : Env.

(* ---- collaborators ---- *)

(* A call of a method of s.rtpClient. *)
Definition rtpClient (req : request) : M (result (gmap string value)) :=
  fun s => Done (engine env (engineLog s) req)
                (set_engineLog (fun l => l ++ [req]) s).

(* s.sourcesMu.Lock(): the goroutine waits while the mutex is held. *)
Definition sourcesMu_Lock : M unit :=
  fun s => if sourcesMu s then Blocked s else Done tt (set_sourcesMu true s).

Definition sourcesMu_Unlock : M unit := modify (set_sourcesMu false).

Definition NewPeerConnection : M (result pcid) :=
  fun s =>
    let pc := nextPC s in
    match rtcError env pc CallNewPeerConnection with
    | Some err => Done (Err err) (bump_nextPC s)
    | None => Done (Ok pc)
                   (bump_nextPC (set_pcs <[ pc := newPeerConnection ]> s))
    end.

Definition webrtc (pc : pcid) (c : rtc_call) : M (option error) :=
  fun s => Done (rtcError env pc c) s.

Definition PC_OnTrack (pc : pcid) (source : srcid) (leg : Leg) : M unit :=
  modify (set_pcs (alter (pc_with_onTrack source leg) pc)).

Definition PC_OnConnectionStateChange (pc : pcid) (h : handler) : M unit :=
  modify (set_pcs (alter (pc_with_handler h) pc)).

(* pc.Close(): the connection becomes closed, once, and the
   state-change handler is notified on a goroutine of its own. *)
Definition PC_Close (pc : pcid) : M unit :=
  fun s =>
    match pcs s !! pc with
    | Some p =>
        if decide (connectionState p = StateClosed) then Done tt s
        else Done tt (set_goroutines (fun g => g ++ notify p StateClosed)
                        (set_pcs <[ pc := pc_with_state StateClosed p ]> s))
    | None => Done tt s
    end.

Definition NewTrackLocalStaticRTP (pc : pcid) (id : string)
  : M (result trackid) :=
  fun s =>
    match rtcError env pc (CallNewTrackLocalStaticRTP id) with
    | Some err => Done (Err err) s
    | None => Done (Ok (nextTrack s)) (bump_nextTrack s)
    end.

Definition PC_AddTrack (pc : pcid) (t : trackid) : M (option error) :=
  fun s =>
    match rtcError env pc (CallAddTrack t) with
    | Some err => Done (Some err) s
    | None => Done None (set_pcs (alter (pc_add_track t) pc) s)
    end.

Definition uuid_New : M string :=
  fun s => Done (uuid env (nextUUID s)) (bump_nextUUID s).

Definition update_source (source : srcid) (f : Source -> Source) : M unit :=
  modify (set_heap (alter f source)).

Definition go (t : task) : M unit :=
  modify (set_goroutines (fun g => g ++ [t])).

(* ---- detectTags ---- *)

Definition detectTags (callID : string) : M (result (string * string)) :=
  details ← rtpClient (ReqQueryCall callID);
  mret (detectTags_of (rangeTags env) details).

(* ---- cleanupSession ---- *)

Definition cleanupSession (sessionID : string) (source : srcid) : M unit :=
  s ← get;
  (if decide (is_Some (sessions s !! sessionID))
   then modify (set_sessions (delete sessionID));;
        modify (set_sessionCounter (fun n => n - 1)%Z)
   else mret tt);;
  update_source source (with_Sessions (delete sessionID)).

(* ---- cleanupSource ---- *)

Definition cleanupSource (source : srcid) : M unit :=
  sourcesMu_Lock;;
  s ← get;
  match heap s !! source with
  | Some src =>
      match sources s !! CallID src with
      | Some _ =>
          modify (set_sources (delete (CallID src)));;
          update_source source with_cancel;;
          go (GoReleaseSource source)
      | None => mret tt
      end
  | None => mret tt
  end;;
  sourcesMu_Unlock.

(* The goroutine started by cleanupSource. *)
Definition releaseSource (source : srcid) : M unit :=
  s ← get;
  match heap s !! source with
  | Some src =>
      match PCFrom src with
      | Some pc =>
          PC_Close pc;;
          rtpClient (ReqUnSubscribe (CallID src) (SubTagFrom src));;
          mret tt
      | None => mret tt
      end
  | None => mret tt
  end;;
  s ← get;
  match heap s !! source with
  | Some src =>
      match PCTo src with
      | Some pc =>
          PC_Close pc;;
          rtpClient (ReqUnSubscribe (CallID src) (SubTagTo src));;
          mret tt
      | None => mret tt
      end
  | None => mret tt
  end.

(* ---- setupBackendSubscription ---- *)

Definition setupBackendSubscription (callID tag : string)
    (source : srcid) (leg : Leg) : M (result (pcid * string)) :=
  r ← NewPeerConnection;
  match r with
  | Err err => mret (Err err)
  | Ok pc =>
      PC_OnTrack pc source leg;;
      PC_OnConnectionStateChange pc (OnBackendState source);;
      resp ← rtpClient (ReqSubscribe callID tag);
      match resp with
      | Err err => PC_Close pc;; mret (Err err)
      | Ok resp =>
          match as_string (resp !! "sdp") with
          | None =>
              PC_Close pc;; mret (Err (Errorf "invalid SDP from rtpengine"))
          | Some offerSDP =>
              if String.eqb offerSDP ""
              then PC_Close pc;;
                   mret (Err (Errorf "invalid SDP from rtpengine"))
              else
                let subscriptionTag :=
                  default "" (as_string (resp !! "to-tag")) in
                e ← webrtc pc (CallSetRemoteDescription offerSDP);
                match e with
                | Some err => PC_Close pc;; mret (Err err)
                | None =>
                    e ← webrtc pc CallCreateAnswer;
                    match e with
                    | Some err => PC_Close pc;; mret (Err err)
                    | None =>
                        e ← webrtc pc CallSetLocalDescription;
                        match e with
                        | Some err => PC_Close pc;; mret (Err err)
                        | None =>
                            let finalSDP :=
                              rewriteAnswerSDP (localSDP env pc) in
                            r ← rtpClient (ReqSubscribeAnswer callID finalSDP
                                                             subscriptionTag);
                            match r with
                            | Err err => PC_Close pc;; mret (Err err)
                            | Ok _ => mret (Ok (pc, subscriptionTag))
                            end
                        end
                    end
                end
          end
      end
  end.

(* ---- createSource ---- *)

Definition NewSource (callID fromTag toTag : string) : M srcid :=
  fun s =>
    let p := nextSource s in
    Done p (bump_nextSource
              (set_heap <[ p := fresh_source callID fromTag toTag ]> s)).

Definition createSource (callID fromTag toTag : string)
  : M (result srcid) :=
  source ← NewSource callID fromTag toTag;
  r ← setupBackendSubscription callID fromTag source LegFrom;
  match r with
  | Err err =>
      update_source source (with_PCFrom None "");;
      mret (Err (ErrorfW "failed to subscribe from-leg" err))
  | Ok (pc, subTag) =>
      update_source source (with_PCFrom (Some pc) subTag);;
      r ← setupBackendSubscription callID toTag source LegTo;
      match r with
      | Err err =>
          update_source source (with_PCTo None "");;
          cleanupSource source;;
          mret (Err (ErrorfW "failed to subscribe to-leg" err))
      | Ok (pc, subTag) =>
          update_source source (with_PCTo (Some pc) subTag);;
          mret (Ok source)
      end
  end.

(* ---- createSession ---- *)

(* The peer connection with its two tracks, and the session id. *)
Definition buildSession : M (result Session) :=
  r ← NewPeerConnection;
  match r with
  | Err err => mret (Err err)
  | Ok pc =>
      r ← NewTrackLocalStaticRTP pc "audio_from";
      match r with
      | Err err => PC_Close pc;; mret (Err err)
      | Ok trackFrom =>
          r ← NewTrackLocalStaticRTP pc "audio_to";
          match r with
          | Err err => PC_Close pc;; mret (Err err)
          | Ok trackTo =>
              e ← PC_AddTrack pc trackFrom;
              match e with
              | Some err => PC_Close pc;; mret (Err err)
              | None =>
                  e ← PC_AddTrack pc trackTo;
                  match e with
                  | Some err => PC_Close pc;; mret (Err err)
                  | None =>
                      sessionID ← uuid_New;
                      mret (Ok {| ID := sessionID; PC := pc;
                                  TrackFrom := trackFrom;
                                  TrackTo := trackTo |})
                  end
              end
          end
      end
  end.

(* s.sessions[sessionID] = sess, under s.sessionsMu, and the gauge. *)
Definition registerInService (sess : Session) : M unit :=
  modify (set_sessions <[ ID sess := sess ]>);;
  modify (set_sessionCounter (fun n => n + 1)%Z).

(* source.Sessions[sessionID] = sess, under source.mu. *)
Definition registerInSource (source : srcid) (sess : Session) : M unit :=
  update_source source (with_Sessions <[ ID sess := sess ]>).

(* The handler and the offer. *)
Definition offerSession (source : srcid) (sess : Session)
  : M (result (string * string)) :=
  PC_OnConnectionStateChange (PC sess) (OnSessionState (ID sess) source);;
  e ← webrtc (PC sess) CallCreateOffer;
  match e with
  | Some err => mret (Err err)
  | None =>
      e ← webrtc (PC sess) CallSetLocalDescription;
      match e with
      | Some err => mret (Err err)
      | None => mret (Ok (ID sess, localSDP env (PC sess)))
      end
  end.

Definition createSession (source : srcid) : M (result (string * string)) :=
  r ← buildSession;
  match r with
  | Err err => mret (Err err)
  | Ok sess =>
      registerInService sess;;
      registerInSource source sess;;
      offerSession source sess
  end.

(* ---- StartSpySession ---- *)

(* 1. Auto-detect tags if missing *)
Definition resolveTags (callID fromTag toTag : string)
  : M (result (string * string)) :=
  if String.eqb fromTag "" || String.eqb toTag ""
  then
    r ← detectTags callID;
    match r with
    | Err err => mret (Err (ErrorfW "failed to detect tags" err))
    | Ok tags => mret (Ok tags)
    end
  else mret (Ok (fromTag, toTag)).

(* 2. Get or create the Source; runs with s.sourcesMu held. *)
Definition getOrCreateSource (callID fromTag toTag : string)
  : M (result srcid) :=
  s ← get;
  match sources s !! callID with
  | Some source => mret (Ok source)
  | None =>
      r ← createSource callID fromTag toTag;
      match r with
      | Err err => mret (Err (ErrorfW "failed to create source" err))
      | Ok source =>
          modify (set_sources <[ callID := source ]>);;
          mret (Ok source)
      end
  end.

(* 2. and 3. of StartSpySession, with the tags it settled on. *)
Definition spyWithTags (callID fromTag toTag : string)
  : M (result (string * string * string * string)) :=
  sourcesMu_Lock;;
  r ← getOrCreateSource callID fromTag toTag;
  sourcesMu_Unlock;;
  match r with
  | Err err => mret (Err err)
  | Ok source =>
      r ← createSession source;
      match r with
      | Err err => mret (Err (ErrorfW "failed to create session" err))
      | Ok (sessionID, offerSDP) =>
          mret (Ok (sessionID, offerSDP, fromTag, toTag))
      end
  end.

Definition StartSpySession (callID fromTag toTag : string)
  : M (result (string * string * string * string)) :=
  tags ← resolveTags callID fromTag toTag;
  match tags with
  | Err err => mret (Err err)
  | Ok (fromTag, toTag) => spyWithTags callID fromTag toTag
  end.

(* ---- goroutines ---- *)

Definition run_handler (h : handler) (state : PeerConnectionState) : M unit :=
  match h with
  | OnBackendState source =>
      if terminal state then cleanupSource source else mret tt
  | OnSessionState sessionID source =>
      if terminal state then cleanupSession sessionID source else mret tt
  end.

Definition run_task (t : task) : M unit :=
  match t with
  | GoHandler h state => run_handler h state
  | GoReleaseSource source => releaseSource source
  end.

(* Run the goroutines that are waiting, oldest first, [n] of them at
   most. *)
Fixpoint drain (n : nat) : M unit :=
  match n with
  | O => mret tt
  | S n' =>
      s ← get;
      match goroutines s with
      | [] => mret tt
      | t :: rest =>
          modify (set_goroutines (fun _ => rest));;
          run_task t;;
          drain n'
      end
  end.

(* A peer connection fails or is closed from outside (ICE or DTLS
   failure, the browser going away). *)
Definition PC_becomes (pc : pcid) (st : PeerConnectionState) : M unit :=
  fun s =>
    match pcs s !! pc with
    | Some p =>
        if decide (connectionState p = st) then Done tt s
        else Done tt (set_goroutines (fun g => g ++ notify p st)
                        (set_pcs <[ pc := pc_with_state st p ]> s))
    | None => Done tt s
    end.

End ServiceModel.

(* Reading an outcome and a state. *)
Definition state_of {A} (o : outcome A) : Service :=
  match o with Done _ s => s | Blocked s => s end.

Definition returned {A} (o : outcome A) : option A :=
  match o with Done a _ => Some a | Blocked _ => None end.

Definition pc_state (s : Service) (pc : pcid) : option PeerConnectionState :=
  connectionState <$> pcs s !! pc.

Definition is_unsubscribe (r : request) : bool :=
  match r with ReqUnSubscribe _ _ => true | _ => false end.

Definition is_subscribe (r : request) : bool :=
  match r with ReqSubscribe _ _ => true | _ => false end.

(* ===================================================================== *)
(* 5a. The fan-out reader of one backend track                           *)
(* ===================================================================== *)

(* The variables of the reader goroutine. *)
Record Reader : Type := {
  sessionTracks : list trackid;
  lastSessionCount : nat
}.

Definition reader_start : Reader :=
  {| sessionTracks := []; lastSessionCount := 0 |}.

Definition track_of (leg : Leg) (sess : Session) : trackid :=
  match leg with LegFrom => TrackFrom sess | LegTo => TrackTo sess end.

(* What happens to one Source and the reader of one of its legs, in the
   order in which it happens. *)
Inductive event : Type :=
| EvJoin (sess : Session)       (* createSession: source.Sessions[id] = sess *)
| EvLeave (sessionID : string)  (* cleanupSession: delete(source.Sessions, id) *)
| EvCancel                      (* cleanupSource: source.cancel() *)
| EvLoopHead                    (* the reader runs from the select to ReadRTP *)
| EvPacket                      (* ReadRTP returns a packet, which is forwarded *)
| EvReadError.                  (* ReadRTP returns an error *)

Record Fanout : Type := {
  fanSource : Source;
  fanReader : Reader;
  inReadRTP : bool;                 (* the reader waits in track.ReadRTP() *)
  returned_ : bool;                 (* the reader goroutine has returned *)
  dequeued : nat;                   (* packets read so far *)
  written : list (trackid * nat)    (* WriteRTP calls: track, packet number *)
}.

Definition fanout_start (x : Source) : Fanout :=
  {| fanSource := x; fanReader := reader_start; inReadRTP := false;
     returned_ := false; dequeued := 0; written := [] |}.

Section FanoutReader.
(* The order of [range source.Sessions]. *)
Variable rangeSessions : gmap string Session -> list (string * Session).
Variable leg : Leg.

Definition snapshot_of (m : gmap string Session) : list trackid :=
  List.map (fun kv => track_of leg (snd kv)) (rangeSessions m).

(* The section under source.mu.RLock(). *)
Definition refresh (x : Source) (r : Reader) : Reader :=
  let currentCount := size (Sessions x) in
  if decide (currentCount <> lastSessionCount r)
  then {| sessionTracks := snapshot_of (Sessions x);
          lastSessionCount := currentCount |}
  else r.

(* for _, t := range sessionTracks { t.WriteRTP(rtp) } *)
Definition forward (packet : nat) (r : Reader) : list (trackid * nat) :=
  List.map (fun t => (t, packet)) (sessionTracks r).

Definition on_source (f : Source -> Source) (st : Fanout) : Fanout :=
  {| fanSource := f (fanSource st); fanReader := fanReader st;
     inReadRTP := inReadRTP st; returned_ := returned_ st;
     dequeued := dequeued st; written := written st |}.

Definition fan_step (st : Fanout) (e : event) : Fanout :=
  match e with
  | EvJoin sess => on_source (with_Sessions <[ ID sess := sess ]>) st
  | EvLeave sessionID => on_source (with_Sessions (delete sessionID)) st
  | EvCancel => on_source with_cancel st
  | EvLoopHead =>
      if returned_ st || inReadRTP st then st
      else if cancelled (fanSource st)
      then (* case <-source.ctx.Done(): return *)
        {| fanSource := fanSource st; fanReader := fanReader st;
           inReadRTP := false; returned_ := true;
           dequeued := dequeued st; written := written st |}
      else
        {| fanSource := fanSource st;
           fanReader := refresh (fanSource st) (fanReader st);
           inReadRTP := true; returned_ := false;
           dequeued := dequeued st; written := written st |}
  | EvPacket =>
      if returned_ st || negb (inReadRTP st) then st
      else
        {| fanSource := fanSource st; fanReader := fanReader st;
           inReadRTP := false; returned_ := false;
           dequeued := S (dequeued st);
           written := written st ++ forward (dequeued st) (fanReader st) |}
  | EvReadError =>
      if returned_ st || negb (inReadRTP st) then st
      else
        {| fanSource := fanSource st; fanReader := fanReader st;
           inReadRTP := false; returned_ := true;
           dequeued := dequeued st; written := written st |}
  end.

Definition fan_run (st : Fanout) (tr : list event) : Fanout :=
  List.fold_left fan_step tr st.

(* The tracks of the sessions that were attached to the Source at the
   start or have joined during [tr]. *)
Definition tracks_attached (x : Source) (tr : list event) : list trackid :=
  snapshot_of (Sessions x) ++
  List.flat_map (fun e => match e with
                          | EvJoin sess => [track_of leg sess]
                          | _ => []
                          end) tr.
(* What the reader holds and what the Source holds come from sessions
   attached so far; packet numbers in the log are below the counter. *)
Definition fan_inv (x : Source) (tr : list event) (st : Fanout) : Prop :=
  (forall t n, In (t, n) (written st) -> n < dequeued st) /\
  (forall t, In t (sessionTracks (fanReader st)) ->
             In t (tracks_attached x tr)) /\
  (forall sid sess, Sessions (fanSource st) !! sid = Some sess ->
                    In (track_of leg sess) (tracks_attached x tr)).
End FanoutReader.

(* ===================================================================== *)
(* 5b. Concurrent StartSpySession requests                               *)
(* ===================================================================== *)

(* Where the goroutine of one StartSpySession request stands. Between two
   of these points the goroutine runs without another request being able
   to interfere with what it reads or writes: under s.sourcesMu, under
   s.sessionsMu, under source.mu, or on a peer connection that only it
   knows. *)
Inductive request_state : Type :=
| AtStart (fromTag toTag : string)
| AtLock (fromTag toTag : string)
    (* the tags are settled; at s.sourcesMu.Lock() *)
| InCritical (fromTag toTag : string)
    (* holds s.sourcesMu; before the lookup in s.sources *)
| AtUnlock (r : result srcid) (fromTag toTag : string)
    (* holds s.sourcesMu; at s.sourcesMu.Unlock() *)
| AtCreateSession (source : srcid) (fromTag toTag : string)
| AtRegisterInSource (source : srcid) (sess : Session)
    (fromTag toTag : string)
    (* in s.sessions; before source.Sessions[sessionID] = sess *)
| AtOffer (source : srcid) (sess : Session) (fromTag toTag : string)
| Returned (r : result (string * string * string * string))
| Stuck.
    (* waits for s.sourcesMu while holding it *)

Section Requests.
Variable env : Env.
Variable callID : string.

(* One move of a request; None when the request cannot move (it waits
   for the mutex, or it is over). *)
Definition request_step (st : request_state) (s : Service)
  : option (request_state * Service) :=
  match st with
  | AtStart fromTag toTag =>
      match resolveTags env callID fromTag toTag s with
      | Done (Ok (f, t)) s' => Some (AtLock f t, s')
      | Done (Err err) s' => Some (Returned (Err err), s')
      | Blocked _ => None
      end
  | AtLock fromTag toTag =>
      match sourcesMu_Lock s with
      | Done _ s' => Some (InCritical fromTag toTag, s')
      | Blocked _ => None
      end
  | InCritical fromTag toTag =>
      match getOrCreateSource env callID fromTag toTag s with
      | Done r s' => Some (AtUnlock r fromTag toTag, s')
      | Blocked s' => Some (Stuck, s')
      end
  | AtUnlock r fromTag toTag =>
      match r with
      | Err err => Some (Returned (Err err), set_sourcesMu false s)
      | Ok source =>
          Some (AtCreateSession source fromTag toTag, set_sourcesMu false s)
      end
  | AtCreateSession source fromTag toTag =>
      match (r ← buildSession env;
             match r with
             | Ok sess => registerInService sess;; mret r
             | Err _ => mret r
             end) s with
      | Done (Ok sess) s' =>
          Some (AtRegisterInSource source sess fromTag toTag, s')
      | Done (Err err) s' =>
          Some (Returned (Err (ErrorfW "failed to create session" err)), s')
      | Blocked _ => None
      end
  | AtRegisterInSource source sess fromTag toTag =>
      match registerInSource source sess s with
      | Done _ s' => Some (AtOffer source sess fromTag toTag, s')
      | Blocked _ => None
      end
  | AtOffer source sess fromTag toTag =>
      match offerSession env source sess s with
      | Done (Ok (sessionID, offerSDP)) s' =>
          Some (Returned (Ok (sessionID, offerSDP, fromTag, toTag)), s')
      | Done (Err err) s' =>
          Some (Returned (Err (ErrorfW "failed to create session" err)), s')
      | Blocked _ => None
      end
  | Returned _ | Stuck => None
  end.

(* The requests in flight and the service they share. The scheduler
   picks a request; if it can move, it moves. *)
Definition sys_step (sys : list request_state * Service) (i : nat)
  : list request_state * Service :=
  match fst sys !! i with
  | Some st =>
      match request_step st (snd sys) with
      | Some (st', s') => (<[ i := st' ]> (fst sys), s')
      | None => sys
      end
  | None => sys
  end.

Definition sys_run (sys : list request_state * Service)
    (schedule : list nat) : list request_state * Service :=
  List.fold_left sys_step schedule sys.

(* One request on its own, moved [n] times. *)
Fixpoint request_run (n : nat) (st : request_state) (s : Service)
  : request_state * Service :=
  match n with
  | O => (st, s)
  | S n' =>
      match request_step st s with
      | Some (st', s') => request_run n' st' s'
      | None => (st, s)
      end
  end.
End Requests.

(* What a request that stopped moving amounts to for its caller. *)
Definition outcome_of (r : request_state * Service)
  : option (outcome (result (string * string * string * string))) :=
  match fst r with
  | Returned x => Some (Done x (snd r))
  | Stuck | AtLock _ _ => Some (Blocked (snd r))
  | _ => None
  end.

Definition holds_mutex (st : request_state) : bool :=
  match st with
  | InCritical _ _ | AtUnlock _ _ _ => true
  | _ => false
  end.

Definition has_returned (st : request_state) : bool :=
  match st with Returned _ => true | _ => false end.

(* The engine and WebRTC serve every call. *)
Definition healthy (env : Env) : Prop :=
  (forall pc c, rtcError env pc c = None) /\
  (forall log c tag,
     exists resp sdp,
       engine env log (ReqSubscribe c tag) = Ok resp /\
       resp !! "sdp" = Some (VStr sdp) /\ sdp <> "") /\
  (forall log c sdp t,
     exists resp, engine env log (ReqSubscribeAnswer c sdp t) = Ok resp) /\
  (forall log c,
     exists f t,
       detectTags_of (rangeTags env) (engine env log (ReqQueryCall c))
       = Ok (f, t)).

(* The session [sid] is in the Sessions map of the Source that s.sources
   holds for [callID]. *)
Definition joined (s : Service) (callID sid : string) : Prop :=
  exists source x,
    sources s !! callID = Some source /\ heap s !! source = Some x /\
    is_Some (Sessions x !! sid).

Definition subscribes (s : Service) : list request :=
  List.filter is_subscribe (engineLog s).

(* The session a request has drawn an id for. *)
Definition drawn (st : request_state) : option string :=
  match st with
  | AtRegisterInSource _ sess _ _ | AtOffer _ sess _ _ => Some (ID sess)
  | Returned (Ok (sid, _, _, _)) => Some sid
  | _ => None
  end.

(* What a request in flight for [callID] can rely on. *)
Definition request_ok (callID : string) (s : Service) (st : request_state)
  : Prop :=
  match st with
  | AtStart _ _ | AtLock _ _ | InCritical _ _ => True
  | AtUnlock r _ _ =>
      exists source, r = Ok source /\ sources s !! callID = Some source
  | AtCreateSession source _ _ | AtRegisterInSource source _ _ _ =>
      sources s !! callID = Some source
  | AtOffer source sess _ _ => joined s callID (ID sess)
  | Returned r =>
      exists sid sdp f t, r = Ok (sid, sdp, f, t) /\ joined s callID sid
  | Stuck => False
  end.

(* s.sourcesMu is held by at most one request, and it is held exactly
   when a request is between Lock and Unlock. *)
Definition mutex_ok (pool : list request_state) (s : Service) : Prop :=
  (forall i j a b,
     pool !! i = Some a -> pool !! j = Some b ->
     holds_mutex a = true -> holds_mutex b = true -> i = j) /\
  (sourcesMu s = true <->
   exists i a, pool !! i = Some a /\ holds_mutex a = true).

(* The Source of [callID] and the subscribe requests made since [s0]. *)
Definition table_ok (callID : string) (s0 s : Service) : Prop :=
  match sources s !! callID with
  | None => subscribes s = subscribes s0
  | Some source =>
      is_Some (heap s !! source) /\
      exists f t,
        subscribes s =
        subscribes s0 ++ [ReqSubscribe callID f; ReqSubscribe callID t]
  end.

(* The session ids in flight are uuids drawn since [s0], each by one
   request. *)
Definition ids_ok (env : Env) (pool : list request_state)
    (s : Service) : Prop :=
  (forall i st sid,
     pool !! i = Some st -> drawn st = Some sid ->
     exists k, k < nextUUID s /\ sid = uuid env k) /\
  (forall i j a b sid,
     pool !! i = Some a -> pool !! j = Some b ->
     drawn a = Some sid -> drawn b = Some sid -> i = j).

Definition single_flight_inv (env : Env) (callID : string) (s0 : Service)
    (sys : list request_state * Service) : Prop :=
  (forall i st, fst sys !! i = Some st -> request_ok callID (snd sys) st) /\
  mutex_ok (fst sys) (snd sys) /\
  table_ok callID s0 (snd sys) /\
  ids_ok env (fst sys) (snd sys).

(* The moves a request has left when nothing fails. *)
Definition moves_left (st : request_state) : nat :=
  match st with
  | AtStart _ _ => 7
  | AtLock _ _ => 6
  | InCritical _ _ => 5
  | AtUnlock _ _ _ => 4
  | AtCreateSession _ _ _ => 3
  | AtRegisterInSource _ _ _ _ => 2
  | AtOffer _ _ _ _ => 1
  | Returned _ | Stuck => 0
  end.

Definition pending (pool : list request_state) : nat :=
  sum_list_with moves_left pool.

(* [s'] keeps the Source of [callID] and the sessions attached to it. *)
Definition grows (callID : string) (s s' : Service) : Prop :=
  forall source,
    sources s !! callID = Some source ->
    sources s' !! callID = Some source /\
    forall x, heap s !! source = Some x ->
      exists x', heap s' !! source = Some x' /\
                 forall sid, is_Some (Sessions x !! sid) ->
                             is_Some (Sessions x' !! sid).

(* ===================================================================== *)
(* 6. Scenarios                                                          *)
(* ===================================================================== *)

Definition crlf : string := String (ascii_of_nat 13) (String (ascii_of_nat 10) "").

Definition lines (l : list string) : string :=
  List.fold_right (fun x acc => String.append x (String.append crlf acc)) "" l.

(* A backend answer with a rejected audio section, and the same answer
   as the engine must receive it. *)
Definition answer_rejected_audio : string :=
  lines ["v=0"; "o=- 1 1 IN IP4 0.0.0.0"; "s=-"; "t=0 0";
         "m=audio 0 UDP/TLS/RTP/SAVPF 0"; "a=mid:0"; "a=recvonly"].

Definition answer_port_nine : string :=
  lines ["v=0"; "o=- 1 1 IN IP4 0.0.0.0"; "s=-"; "t=0 0";
         "m=audio 9 UDP/TLS/RTP/SAVPF 0"; "a=mid:0"; "a=recvonly"].

Definition engine_offer : string :=
  lines ["v=0"; "o=- 2 2 IN IP4 10.0.0.1"; "s=rtpengine"; "t=0 0";
         "m=audio 30000 UDP/TLS/RTP/SAVPF 0"; "a=mid:0"; "a=sendonly"].

Definition result_ok : gmap string value := {[ "result" := VStr "ok" ]}.

Definition subscribe_reply (tag : string) : gmap string value :=
  <[ "result" := VStr "ok" ]>
  (<[ "sdp" := VStr engine_offer ]>
   {[ "to-tag" := VStr (String.append "sub-" tag) ]}).

Definition no_such_call : error :=
  ErrorfV "rtpengine error" (Some (VStr "no such call")).

(* An engine that serves every request. *)
Definition engine_ok : list request -> request -> result (gmap string value) :=
  fun _ req =>
    match req with
    | ReqQueryCall _ => Ok query_normal
    | ReqSubscribe _ tag => Ok (subscribe_reply tag)
    | ReqSubscribeAnswer _ _ _ => Ok result_ok
    | ReqUnSubscribe _ _ => Ok result_ok
    end.

(* An engine that refuses the subscription to one leg. *)
Definition engine_refusing (leg : string)
  : list request -> request -> result (gmap string value) :=
  fun log req =>
    match req with
    | ReqSubscribe _ tag =>
        if String.eqb tag leg then Err no_such_call else engine_ok log req
    | _ => engine_ok log req
    end.

Definition uuid_of (n : nat) : string :=
  String.append "spy-" (NilEmpty.string_of_uint (Nat.to_uint n)).

Definition env_with
    (engine : list request -> request -> result (gmap string value))
    (rtcs : pcid -> rtc_call -> option error) : Env :=
  {| engine := engine; rtcError := rtcs;
     localSDP := fun _ => answer_rejected_audio;
     uuid := uuid_of; rangeTags := map_to_list |}.

Definition rtc_ok : pcid -> rtc_call -> option error := fun _ _ => None.

(* CreateOffer fails on every peer connection. *)
Definition rtc_offer_fails : pcid -> rtc_call -> option error :=
  fun _ c =>
    match c with
    | CallCreateOffer => Some (ErrLib "InvalidStateError")
    | _ => None
    end.

Definition env_ok : Env := env_with engine_ok rtc_ok.
Definition env_to_leg_refused : Env := env_with (engine_refusing "tag-callee") rtc_ok.
Definition env_offer_fails : Env := env_with engine_ok rtc_offer_fails.

(* Three requests for one call, and a scheduler that takes the requests
   in turn. *)
Definition three_requests : list (string * string) :=
  [("", ""); ("tag-caller", "tag-callee"); ("", "tag-callee")].

Definition round_robin (n rounds : nat) : list nat :=
  List.concat (List.repeat (List.seq 0 n) rounds).

(* Every entry of s.sources points to a Source object of that call. *)
Definition sources_valid (s : Service) : Prop :=
  forall c p, sources s !! c = Some p ->
    p < nextSource s /\ exists x, heap s !! p = Some x /\ CallID x = c.

(* A request of the two backend subscriptions of a call. *)
Definition backend_request (callID fromTag toTag : string) (r : request)
  : Prop :=
  match r with
  | ReqSubscribe c tag => c = callID /\ (tag = fromTag \/ tag = toTag)
  | ReqSubscribeAnswer c _ _ => c = callID
  | _ => False
  end.

(* One call with its Source and one spectator. *)
Definition service_one_spectator : Service :=
  state_of (StartSpySession env_ok "call-X" "" "" NewService).

Definition spectator0 : Session :=
  {| ID := "spy-0"; PC := 2; TrackFrom := 0; TrackTo := 1 |}.

Definition source0 : Source :=
  default (fresh_source "" "" "") (heap service_one_spectator !! 0).

(* cleanupSource followed by the goroutines it sets off: the release of
   the backend and the notifications of the two closes. *)
Definition teardown (env : Env) (source : srcid) : M unit :=
  cleanupSource source;; drain env 3.

(* Source destruction as the specification describes it for a Source
   [x] at [source] that is in s.sources. *)
Definition teardown_destroys_sessions (env : Env) (s : Service)
    (source : srcid) (x : Source) : Prop :=
  let s' := state_of (teardown env source s) in
  sources s' !! CallID x = None /\
  (forall pc, PCFrom x = Some pc \/ PCTo x = Some pc ->
              pc_state s' pc = Some StateClosed) /\
  In (ReqUnSubscribe (CallID x) (SubTagFrom x)) (engineLog s') /\
  In (ReqUnSubscribe (CallID x) (SubTagTo x)) (engineLog s') /\
  forall sid sess,
    Sessions x !! sid = Some sess ->
    sessions s' !! sid = None /\
    (Sessions <$> heap s' !! source) ≫= (.!! sid) = None /\
    pc_state s' (PC sess) = Some StateClosed.

(* A backend peer connection of [source] that is not closed yet. *)
Definition live_backend_pc (s : Service) (source : srcid) (pc : pcid) : Prop :=
  exists p, pcs s !! pc = Some p /\
            connectionState p <> StateClosed /\
            onConnectionStateChange p = Some (OnBackendState source).

(* [sid] is in the Sessions map of the Source object at [source]. *)
Definition attached (s : Service) (sid : string) (source : srcid) : Prop :=
  exists x, heap s !! source = Some x /\ is_Some (Sessions x !! sid).

(* The Source object at [source] is in s.sources. *)
Definition reachable (s : Service) (source : srcid) : Prop :=
  exists c, sources s !! c = Some source.

(* Bilateral consistency as the specification states it: in s.sessions
   iff in the Sessions map of exactly one Source reachable from
   s.sources. *)
Definition bilateral (s : Service) : Prop :=
  forall sid,
    is_Some (sessions s !! sid) <->
    exists source,
      (reachable s source /\ attached s sid source) /\
      forall source', reachable s source' /\ attached s sid source' ->
                      source' = source.

(* The same over all Source objects, in s.sources or not: in s.sessions
   iff in the Sessions map of some Source object, and never of two. *)
Definition consistent (s : Service) : Prop :=
  forall sid,
    (is_Some (sessions s !! sid) <-> exists source, attached s sid source) /\
    (forall a b, attached s sid a -> attached s sid b -> a = b).

Definition preserves {A} (P : Service -> Prop) (op : M A) : Prop :=
  forall s, P s -> P (state_of (op s)).

(* The claim that the three operations preserve bilateral consistency. *)
Definition bilateral_preserved (env : Env) : Prop :=
  (forall source, preserves bilateral (createSession env source)) /\
  (forall sid source, preserves bilateral (cleanupSession sid source)) /\
  (forall source, preserves bilateral (cleanupSource source)).

(* Two spectators, and a call to which the first is attached. *)
Definition spectatorA : Session :=
  {| ID := "spy-A"; PC := 2; TrackFrom := 10; TrackTo := 11 |}.

Definition spectatorB : Session :=
  {| ID := "spy-B"; PC := 3; TrackFrom := 12; TrackTo := 13 |}.

Definition source_with_A : Source :=
  with_Sessions <[ "spy-A" := spectatorA ]> (fresh_source "call-X" "a" "b").

(* ===================================================================== *)
(* 7. The client: the cookie and the call list                           *)
(* ===================================================================== *)

(* One digit of fmt's %x. *)
Definition hex_digit (n : nat) : ascii :=
  nth n (GoStrings.bytes_of "0123456789abcdef") "0"%char.

(* %x of one byte: two digits, the high one first. *)
Definition hex_byte (b : ascii) : list ascii :=
  [hex_digit (nat_of_ascii b / 16); hex_digit (nat_of_ascii b mod 16)].

(* client.generateCookie: b := make([]byte, 8); rand.Read(b);
   fmt.Sprintf("%x", b). [random] is what rand.Read delivers; bytes it
   does not deliver stay zero. *)
Definition generateCookie (random : list ascii) : string :=
  let b := firstn 8 (random ++ repeat zero 8) in
  GoStrings.of_bytes (List.flat_map hex_byte b).

(* A digit, or a letter from a to f. *)
Definition is_lower_hex (c : ascii) : bool :=
  let n := nat_of_ascii c in
  ((48 <=? n) && (n <=? 57) || (97 <=? n) && (n <=? 102))%nat.

Section ListCallsModel.
Variable Marshal : gmap string value -> result (list ascii).
Variable Decode : list ascii -> result value.
Variable network : list ascii -> udp_exchange.
(* fmt.Sprint of a float64, a slice or a map. *)
Variable Sprint_other : value -> string.

(* fmt.Sprint(v) for an element of the decoded list: a string as it is,
   an int64 in decimal. *)
Definition Sprint (v : value) : string :=
  match v with
  | VStr s => s
  | VInt n => NilZero.string_of_int (Z.to_int n)
  | _ => Sprint_other v
  end.

(* client.ListCalls. A decoded response holds no []string, so the second
   type assertion never succeeds. *)
Definition ListCalls (cookie : string) : result (list string) :=
  match sendCommand Marshal Decode network cookie "list" ∅ with
  | Err err => Err err
  | Ok resp =>
      match resp !! "calls" with
      | Some (VList rawCalls) => Ok (List.map Sprint rawCalls)
      | _ => Ok []
      end
  end.
End ListCallsModel.

(* The reply to [list] of an engine with two calls. *)
Definition reply_two_calls : string :=
  "5f2a d5:callsl5:call17:call-22e6:result2:oke".

(* ===================================================================== *)
(* 8. The service: answers, teardown, more scenarios                     *)
(* ===================================================================== *)

Section SpyAnswer.
Variable env : Env.

(* spy.Service.HandleSpyAnswer: the lookup runs under
   s.sessionsMu.RLock(); the error of SetRemoteDescription is wrapped. *)
Definition HandleSpyAnswer (sessionID sdp : string) : M (option error) :=
  s ← get;
  match sessions s !! sessionID with
  | None =>
      mret (Some (Errorf (String.append "session not found: " sessionID)))
  | Some sess =>
      e ← webrtc env (PC sess) (CallSetRemoteDescription sdp);
      match e with
      | Some err =>
          mret (Some (ErrorfW "failed to set remote description" err))
      | None => mret None
      end
  end.
End SpyAnswer.

(* spy.sessions_active counts the entries of s.sessions. *)
Definition gauge_ok (s : Service) : Prop :=
  sessionCounter s = Z.of_nat (size (sessions s)).

(* The unsubscribe requests of the release goroutine: one for each leg
   that has a peer connection. *)
Definition unsubscribes_of (x : Source) : list request :=
  match PCFrom x with
  | Some _ => [ReqUnSubscribe (CallID x) (SubTagFrom x)]
  | None => []
  end ++
  match PCTo x with
  | Some _ => [ReqUnSubscribe (CallID x) (SubTagTo x)]
  | None => []
  end.

(* The call a request to the engine names. *)
Definition request_call (r : request) : string :=
  match r with
  | ReqQueryCall c | ReqSubscribe c _ | ReqSubscribeAnswer c _ _
  | ReqUnSubscribe c _ => c
  end.

(* An entry of the tags map in which the loop of detectTags finds no
   [created]: not a dictionary, or [created] missing or not a number. *)
Definition no_created (v : value) : Prop :=
  match v with
  | VDict info =>
      match info !! "created" with
      | Some (VInt _) | Some (VFloat _) => False
      | _ => True
      end
  | _ => True
  end.

(* Three legs, one of them without [created]. *)
Definition tags_one_undated : gmap string value :=
  <[ "late" := tag_created 2000 ]>
  (<[ "early" := tag_created 1000 ]>
   {[ "undated" := VDict ∅ ]}).

(* What holds of the reader from the cancellation of its Source on,
   [st0] being the state at the cancellation. *)
Definition after_cancel (st0 st : Fanout) : Prop :=
  cancelled (fanSource st) = true /\
  fanReader st = fanReader st0 /\
  (returned_ st = false -> inReadRTP st = true ->
   returned_ st0 = false /\ inReadRTP st0 = true /\
   dequeued st = dequeued st0 /\ written st = written st0) /\
  (written st = written st0 /\ dequeued st = dequeued st0 \/
   returned_ st0 = false /\ inReadRTP st0 = true /\
   dequeued st = S (dequeued st0) /\
   written st = written st0 ++ forward (dequeued st0) (fanReader st0)).

(* The engine refuses the subscription to the caller's leg. *)
Definition env_from_leg_refused : Env :=
  env_with (engine_refusing "tag-caller") rtc_ok.

(* An engine that refuses the first subscribe request it receives. *)
Definition engine_refusing_first
  : list request -> request -> result (gmap string value) :=
  fun log req =>
    match req with
    | ReqSubscribe _ _ =>
        if (List.length (List.filter is_subscribe log) =? 0)%nat
        then Err no_such_call
        else engine_ok log req
    | _ => engine_ok log req
    end.

Definition env_first_refused : Env := env_with engine_refusing_first rtc_ok.

(* A request that fails on the from-leg, then the same request again,
   which succeeds; the notification of the first request's closed
   connection has not run yet. *)
Definition service_after_retry : Service :=
  state_of (StartSpySession env_first_refused "call-X"
              "tag-caller" "tag-callee"
              (state_of (StartSpySession env_first_refused "call-X"
                           "tag-caller" "tag-callee" NewService))).

(* An engine whose subscribe replies carry no to-tag. *)
Definition engine_no_to_tag
  : list request -> request -> result (gmap string value) :=
  fun log req =>
    match req with
    | ReqSubscribe _ _ =>
        Ok (<[ "result" := VStr "ok" ]> {[ "sdp" := VStr engine_offer ]})
    | _ => engine_ok log req
    end.

Definition env_no_to_tag : Env := env_with engine_no_to_tag rtc_ok.

(* ===================================================================== *)
(* 9. The configuration (config.Load)                                    *)
(* ===================================================================== *)

(* What Load uses of strconv and strings. *)
Module GoStrconv.

Inductive NumError : Type := ErrSyntax | ErrRange.

Definition digit_of (c : ascii) : option Z :=
  let n := nat_of_ascii c in
  if ((48 <=? n) && (n <=? 57))%nat then Some (Z.of_nat (n - 48)) else None.

Definition maxUint64 : Z := 2 ^ 64 - 1.

(* The loop of strconv.ParseUint for base 10 (no underscores, and a
   letter is not a digit): [n] is the value of the digits read so far,
   held in a uint64. *)
Fixpoint parse_digits (maxVal : Z) (s : list ascii) (n : Z)
  : NumError + Z :=
  match s with
  | [] => inr n
  | c :: s' =>
      match digit_of c with
      | None => inl ErrSyntax
      | Some d =>
          let cutoff := (maxUint64 / 10 + 1)%Z in
          if (cutoff <=? n)%Z then inl ErrRange      (* n*base overflows *)
          else
            let n := (n * 10)%Z in
            let n1 := ((n + d) mod 2 ^ 64)%Z in
            if ((n1 <? n) || (maxVal <? n1))%Z       (* n+d overflows *)
            then inl ErrRange
            else parse_digits maxVal s' n1
      end
  end.

(* strconv.ParseUint(s, 10, bitSize), bitSize from 1 to 64. *)
Definition ParseUint (s : string) (bitSize : Z) : NumError + Z :=
  match GoStrings.bytes_of s with
  | [] => inl ErrSyntax
  | b => parse_digits (2 ^ bitSize - 1) b 0
  end.

(* strconv.Atoi on a 64-bit platform, by way of ParseInt(s, 10, 0): an
   optional sign, then ParseUint, then the range of int. *)
Definition Atoi (s : string) : NumError + Z :=
  match GoStrings.bytes_of s with
  | [] => inl ErrSyntax
  | c :: r =>
      let neg := Ascii.eqb c "-" in
      let digits := if Ascii.eqb c "+" || neg then r else c :: r in
      match digits with
      | [] => inl ErrSyntax
      | _ =>
          match parse_digits maxUint64 digits 0 with
          | inl e => inl e
          | inr un =>
              let cutoff := (2 ^ 63)%Z in
              if negb neg && (cutoff <=? un)%Z then inl ErrRange
              else if neg && (cutoff <? un)%Z then inl ErrRange
              else inr (if neg then - un else un)%Z
          end
      end
  end.

(* strings.Split(s, sep) for a separator of one byte: the pieces between
   the separators, empty ones included. *)
Fixpoint split_bytes (sep : ascii) (s : list ascii) : list (list ascii) :=
  match s with
  | [] => [[]]
  | c :: s' =>
      if Ascii.eqb c sep then [] :: split_bytes sep s'
      else match split_bytes sep s' with
           | piece :: rest => (c :: piece) :: rest
           | [] => [[c]]
           end
  end.

Definition Split (s : string) (sep : ascii) : list string :=
  List.map GoStrings.of_bytes (split_bytes sep (GoStrings.bytes_of s)).

(* strings.Join *)
Fixpoint Join (l : list string) (sep : string) : string :=
  match l with
  | [] => ""
  | [x] => x
  | x :: rest => String.append x (String.append sep (Join rest sep))
  end.

End GoStrconv.

Record Config : Type := {
  HTTPPort : Z;                      (* int *)
  RTPEngineAddr : string;
  WebRTCMinPort : Z;                 (* uint16 *)
  WebRTCMaxPort : Z;                 (* uint16 *)
  WebRTCNAT1To1IPs : list string;
  WebRTCICEAddress : string;
  WebRTCICEPort : Z;                 (* int *)
  TelemetryEndpoint : string
}.

Definition defaults : Config :=
  {| HTTPPort := 8081; RTPEngineAddr := "127.0.0.1:22222";
     WebRTCMinPort := 50000; WebRTCMaxPort := 51000;
     WebRTCNAT1To1IPs := ["192.168.1.7"];
     WebRTCICEAddress := "192.168.1.7"; WebRTCICEPort := 8443;
     TelemetryEndpoint := "" |}.

Section ConfigLoad.
(* os.Getenv once godotenv.Load has run: the value of a variable, empty
   when it is not set. *)
Variable Getenv : string -> string.

(* if v := os.Getenv(name); v != "" { if p, err := parse(v); err == nil
   { field = p } } *)
Definition parsed_or (name : string) (parse : string -> GoStrconv.NumError + Z)
    (old : Z) : Z :=
  let v := Getenv name in
  if String.eqb v "" then old
  else match parse v with
       | inr p => p
       | inl _ => old
       end.

Definition set_or (name : string) (old : string) : string :=
  let v := Getenv name in if String.eqb v "" then old else v.

(* config.Load; the error it returns is always nil. *)
Definition Load : Config :=
  {| HTTPPort := parsed_or "HTTP_PORT" GoStrconv.Atoi (HTTPPort defaults);
     RTPEngineAddr := set_or "RTPENGINE_ADDR" (RTPEngineAddr defaults);
     WebRTCMinPort :=
       parsed_or "WEBRTC_MIN_PORT"
         (fun v => match GoStrconv.ParseUint v 16 with
                   | inr p => inr (p mod 2 ^ 16)%Z      (* uint16(p) *)
                   | inl e => inl e
                   end)
         (WebRTCMinPort defaults);
     WebRTCMaxPort :=
       parsed_or "WEBRTC_MAX_PORT"
         (fun v => match GoStrconv.ParseUint v 16 with
                   | inr p => inr (p mod 2 ^ 16)%Z
                   | inl e => inl e
                   end)
         (WebRTCMaxPort defaults);
     WebRTCNAT1To1IPs :=
       (let v := Getenv "WEBRTC_NAT_1TO1_IPS" in
        if String.eqb v "" then WebRTCNAT1To1IPs defaults
        else GoStrconv.Split v ","%char);
     WebRTCICEAddress := set_or "WEBRTC_ICE_ADDRESS" (WebRTCICEAddress defaults);
     WebRTCICEPort :=
       parsed_or "WEBRTC_ICE_PORT" GoStrconv.Atoi (WebRTCICEPort defaults);
     TelemetryEndpoint :=
       set_or "OTEL_EXPORTER_OTLP_ENDPOINT" (TelemetryEndpoint defaults) |}.
End ConfigLoad.

(* The number a string of decimal digits writes, if it is one. *)
Fixpoint digits_value (s : list ascii) (acc : Z) : option Z :=
  match s with
  | [] => Some acc
  | c :: s' =>
      match GoStrconv.digit_of c with
      | Some d => digits_value s' (acc * 10 + d)
      | None => None
      end
  end.

Definition numeral (s : string) : option Z :=
  match GoStrings.bytes_of s with
  | [] => None
  | b => digits_value b 0
  end.

(* The number an optional sign and a string of decimal digits write. *)
Definition signed_numeral (s : string) : option Z :=
  match GoStrings.bytes_of s with
  | [] => None
  | c :: r =>
      if Ascii.eqb c "-" then
        match r with [] => None | _ => Z.opp <$> digits_value r 0 end
      else if Ascii.eqb c "+" then
        match r with [] => None | _ => digits_value r 0 end
      else digits_value (c :: r) 0
  end.

Definition fits_int (n : Z) : bool := ((- 2 ^ 63 <=? n) && (n <? 2 ^ 63))%Z.

(* The pieces put together again, the separator between them. *)
Fixpoint join_bytes (sep : ascii) (l : list (list ascii)) : list ascii :=
  match l with
  | [] => []
  | [x] => x
  | x :: rest => x ++ sep :: join_bytes sep rest
  end.

(* A range given upside down is taken as it is; a port that does not fit
   16 bits, or with a sign, leaves the default. *)
Definition env_of (l : list (string * string)) : string -> string :=
  fun name => default "" ((list_to_map l : gmap string string) !! name).

(* ===================================================================== *)
(* Theorems                                                              *)
(* ===================================================================== *)

Section ReplaceAllFacts.
Import GoStrings.

Lemma replace_from_skip old new k s :
  replace_from old new k s = replace_from old new 0 (skipn k s).
Proof.
  revert k; induction s as [|c s IH]; intros [|k]; simpl; auto.
Qed.

Lemma has_prefix_app p s : has_prefix p (p ++ s) = true.
Proof.
  induction p as [|a p IH]; simpl; auto.
  now rewrite Ascii.eqb_refl.
Qed.

Lemma has_prefix_inv p s :
  has_prefix p s = true -> exists r, s = p ++ r.
Proof.
  revert s; induction p as [|a p IH]; intros s H; simpl in *.
  - now exists s.
  - destruct s as [|b s]; [discriminate|].
    destruct (Ascii.eqb a b) eqn:E; [|discriminate].
    apply Ascii.eqb_eq in E; subst b.
    destruct (IH _ H) as [r ->]. now exists r.
Qed.

Let old9 := bytes_of m_audio_0.
Let new9 := bytes_of m_audio_9.
Let rw := replace_from old9 new9 0.

(* One step of the scan at an occurrence, and off an occurrence. *)
Lemma rw_hit r : rw (old9 ++ r) = new9 ++ rw r.
Proof.
  unfold rw. change (old9 ++ r) with ("m"%char :: (skipn 1 old9 ++ r)).
  cbn [replace_from].
  change ("m"%char :: (skipn 1 old9 ++ r)) with (old9 ++ r).
  rewrite has_prefix_app. reflexivity.
Qed.

Lemma rw_miss c s :
  has_prefix old9 (c :: s) = false -> rw (c :: s) = c :: rw s.
Proof. intros H. unfold rw. cbn [replace_from]. now rewrite H. Qed.

(* [m=audio 0] has no proper border: two occurrences never overlap. *)
Lemma no_overlap r k :
  1 <= k <= 8 -> occurs_at old9 (old9 ++ r) k = false.
Proof.
  intros Hk. unfold occurs_at.
  destruct k as [|[|[|[|[|[|[|[|[|k]]]]]]]]]; try lia;
    destruct r; reflexivity.
Qed.

Lemma occurs_at_cons old c s i :
  occurs_at old (c :: s) (S i) = occurs_at old s i.
Proof. reflexivity. Qed.

Lemma occurs_at_app_skip old p s i :
  occurs_at old (p ++ s) (List.length p + i) = occurs_at old s i.
Proof.
  unfold occurs_at. induction p; simpl; auto.
Qed.

Lemma rw_length s : List.length (rw s) = List.length s.
Proof.
  assert (H : forall n s, List.length s <= n ->
              List.length (rw s) = List.length s).
  { induction n as [|n IH]; intros [|c t] Hle; simpl in Hle;
      try reflexivity; try lia.
    destruct (has_prefix old9 (c :: t)) eqn:E.
    - apply has_prefix_inv in E as [r Hr]. rewrite Hr, rw_hit.
      rewrite !List.length_app. rewrite IH; [reflexivity|].
      apply (f_equal (@List.length _)) in Hr.
      rewrite List.length_app in Hr. simpl in Hr. lia.
    - rewrite rw_miss by assumption. simpl. rewrite IH; [reflexivity|lia]. }
  now apply (H (List.length s)).
Qed.

(* The output read byte by byte: the byte closing an occurrence of
   [m=audio 0] in the input is [9]; every other byte is the input's. *)
Lemma rw_pointwise s i :
  nth_error (rw s) i =
  if (8 <=? i)%nat && occurs_at old9 s (i - 8)
  then Some "9"%char else nth_error s i.
Proof.
  assert (H : forall n s i, List.length s <= n ->
    nth_error (rw s) i =
    if (8 <=? i)%nat && occurs_at old9 s (i - 8)
    then Some "9"%char else nth_error s i).
  2:{ now apply (H (List.length s)). }
  clear s i. induction n as [|n IH]; intros [|c s] i Hle; simpl in Hle;
    try lia.
  1,2: unfold occurs_at; rewrite skipn_nil; simpl has_prefix;
    rewrite andb_false_r; destruct i; reflexivity.
  destruct (has_prefix old9 (c :: s)) eqn:E.
  - apply has_prefix_inv in E as [r Hr]. rewrite Hr, rw_hit.
    assert (Hlr : List.length r <= n).
    { apply (f_equal (@List.length _)) in Hr.
      rewrite List.length_app in Hr. simpl in Hr. lia. }
    destruct (Nat.lt_ge_cases i 9) as [Hi|Hi].
    + (* inside the occurrence at offset 0 *)
      destruct (Nat.eq_dec i 8) as [->|Hne].
      * change (8 - 8) with 0. unfold occurs_at at 1.
        change (skipn 0 (old9 ++ r)) with (old9 ++ r).
        rewrite has_prefix_app. reflexivity.
      * assert (Hlt : i < 8) by lia.
        replace (8 <=? i)%nat with false by (symmetry; apply Nat.leb_gt; lia).
        simpl andb. cbv iota.
        do 8 (destruct i as [|i]; [reflexivity|]). lia.
    + (* past the occurrence: the scan resumes on [r] *)
      replace (nth_error (new9 ++ rw r) i) with (nth_error (rw r) (i - 9)).
      2:{ rewrite nth_error_app2 by (simpl; lia). reflexivity. }
      rewrite IH by assumption.
      replace (nth_error (old9 ++ r) i) with (nth_error r (i - 9)).
      2:{ rewrite nth_error_app2 by (simpl; lia). reflexivity. }
      replace (8 <=? i)%nat with true by (symmetry; apply Nat.leb_le; lia).
      destruct (Nat.lt_ge_cases i 17) as [Hi'|Hi'].
      * replace (8 <=? i - 9)%nat with false
          by (symmetry; apply Nat.leb_gt; lia).
        rewrite no_overlap by lia. reflexivity.
      * replace (8 <=? i - 9)%nat with true
          by (symmetry; apply Nat.leb_le; lia).
        replace (i - 8) with (List.length old9 + (i - 9 - 8))
          by (simpl; lia).
        rewrite occurs_at_app_skip. reflexivity.
  - rewrite rw_miss by assumption.
    destruct i as [|i]; [reflexivity|].
    cbn [nth_error].
    rewrite IH by lia.
    destruct (Nat.lt_ge_cases i 7) as [H7|H7].
    + replace (8 <=? i)%nat with false by (symmetry; apply Nat.leb_gt; lia).
      replace (8 <=? S i)%nat with false by (symmetry; apply Nat.leb_gt; lia).
      reflexivity.
    + destruct (Nat.eq_dec i 7) as [->|Hne].
      * change (8 <=? 7)%nat with false. change (8 <=? 8)%nat with true.
        change (8 - 8) with 0. unfold occurs_at. simpl skipn.
        rewrite E. reflexivity.
      * replace (8 <=? i)%nat with true by (symmetry; apply Nat.leb_le; lia).
        replace (8 <=? S i)%nat with true by (symmetry; apply Nat.leb_le; lia).
        replace (S i - 8) with (S (i - 8)) by lia.
        rewrite occurs_at_cons. reflexivity.
Qed.

(* An occurrence splits the scan: no match straddles its boundary. *)
Lemma rw_app_hit a r : rw (a ++ old9 ++ r) = rw a ++ new9 ++ rw r.
Proof.
  assert (H : forall n a, List.length a <= n ->
              rw (a ++ old9 ++ r) = rw a ++ new9 ++ rw r).
  2:{ now apply (H (List.length a)). }
  clear a. induction n as [|n IH]; intros [|c a] Hle; simpl in Hle;
    try lia; try apply rw_hit.
  destruct (has_prefix old9 (c :: a)) eqn:E.
  - apply has_prefix_inv in E as [a' Ha']. rewrite Ha'.
    rewrite <- List.app_assoc, !rw_hit, <- List.app_assoc. f_equal.
    apply IH. apply (f_equal (@List.length _)) in Ha'.
    rewrite List.length_app in Ha'. simpl in Ha'. lia.
  - destruct (has_prefix old9 ((c :: a) ++ old9 ++ r)) eqn:E'.
    + exfalso. apply has_prefix_inv in E' as [t Ht].
      destruct (Nat.lt_ge_cases (List.length (c :: a)) 9) as [Hl|Hl].
      * assert (Hocc : occurs_at old9 (old9 ++ t) (List.length (c :: a)) = true).
        { rewrite <- Ht. rewrite <- (Nat.add_0_r (List.length (c :: a))).
          rewrite occurs_at_app_skip. unfold occurs_at.
          change (skipn 0 (old9 ++ r)) with (old9 ++ r).
          apply has_prefix_app. }
        rewrite no_overlap in Hocc by (simpl in *; lia). discriminate.
      * assert (Hp : firstn 9 ((c :: a) ++ old9 ++ r) = firstn 9 (c :: a)).
        { rewrite firstn_app.
          replace (9 - List.length (c :: a)) with 0 by lia.
          simpl firstn at 2. now rewrite List.app_nil_r. }
        rewrite Ht in Hp. change (firstn 9 (old9 ++ t)) with old9 in Hp.
        assert (Hc : c :: a = old9 ++ skipn 9 (c :: a)).
        { rewrite Hp. symmetry. apply firstn_skipn. }
        rewrite Hc, has_prefix_app in E. discriminate.
    + change ((c :: a) ++ old9 ++ r) with (c :: (a ++ old9 ++ r)) in *.
      rewrite !rw_miss by assumption. simpl. f_equal.
      apply IH. lia.
Qed.

End ReplaceAllFacts.

Section StringBytes.
Import GoStrings.

Lemma bytes_of_length s : List.length (bytes_of s) = String.length s.
Proof. unfold bytes_of. induction s; simpl; auto. Qed.

Lemma bytes_of_get s i : nth_error (bytes_of s) i = String.get i s.
Proof.
  unfold bytes_of.
  revert i; induction s as [|c s IH]; intros [|i]; simpl; auto.
Qed.

Lemma bytes_of_append a b :
  bytes_of (String.append a b) = bytes_of a ++ bytes_of b.
Proof.
  unfold bytes_of. induction a as [|c a IH]; [reflexivity|].
  change (String.append (String c a) b) with (String c (String.append a b)).
  simpl. now rewrite IH.
Qed.

Lemma of_bytes_app a b :
  of_bytes (a ++ b) = String.append (of_bytes a) (of_bytes b).
Proof.
  unfold of_bytes. induction a as [|c a IH]; [reflexivity|].
  simpl. rewrite IH. reflexivity.
Qed.

Lemma bytes_of_of_bytes l : bytes_of (of_bytes l) = l.
Proof. apply list_ascii_of_string_of_list_ascii. Qed.

Lemma of_bytes_bytes_of s : of_bytes (bytes_of s) = s.
Proof. apply string_of_list_ascii_of_string. Qed.

Lemma rewriteAnswerSDP_bytes sdp :
  bytes_of (rewriteAnswerSDP sdp) =
  replace_from (bytes_of m_audio_0) (bytes_of m_audio_9) 0 (bytes_of sdp).
Proof. unfold rewriteAnswerSDP, ReplaceAll. apply bytes_of_of_bytes. Qed.

Lemma rewriteAnswerSDP_length sdp :
  String.length (rewriteAnswerSDP sdp) = String.length sdp.
Proof.
  rewrite <- !bytes_of_length, rewriteAnswerSDP_bytes. apply rw_length.
Qed.

Lemma rewriteAnswerSDP_get sdp i :
  String.get i (rewriteAnswerSDP sdp) =
  if (8 <=? i)%nat && occurs_at (bytes_of m_audio_0) (bytes_of sdp) (i - 8)
  then Some "9"%char else String.get i sdp.
Proof.
  rewrite <- !bytes_of_get, rewriteAnswerSDP_bytes. apply rw_pointwise.
Qed.

Lemma rewriteAnswerSDP_split pre rest :
  rewriteAnswerSDP (String.append pre (String.append m_audio_0 rest)) =
  String.append (rewriteAnswerSDP pre)
                (String.append m_audio_9 (rewriteAnswerSDP rest)).
Proof.
  unfold rewriteAnswerSDP, ReplaceAll.
  rewrite !bytes_of_append, rw_app_hit, !of_bytes_app.
  now rewrite of_bytes_bytes_of.
Qed.

End StringBytes.

Section TagOrder.

Lemma ascii_compare_refl a : Ascii.compare a a = Eq.
Proof. unfold Ascii.compare. apply N.compare_refl. Qed.

Lemma ascii_compare_lt_trans a b c :
  Ascii.compare a b = Lt -> Ascii.compare b c = Lt -> Ascii.compare a c = Lt.
Proof.
  unfold Ascii.compare. rewrite !N.compare_lt_iff. apply N.lt_trans.
Qed.

Lemma string_compare_refl s : String.compare s s = Eq.
Proof.
  induction s as [|c s IH]; simpl; [reflexivity|].
  now rewrite ascii_compare_refl.
Qed.

Lemma string_compare_lt_trans s t u :
  tag_lt s t -> tag_lt t u -> tag_lt s u.
Proof.
  unfold tag_lt. revert t u.
  induction s as [|a s IH]; intros [|b t] [|c u]; simpl; try congruence.
  destruct (Ascii.compare a b) eqn:Eab; try discriminate;
    destruct (Ascii.compare b c) eqn:Ebc; try discriminate; intros H1 H2.
  - apply Ascii.compare_eq_iff in Eab, Ebc. subst.
    rewrite ascii_compare_refl. eauto.
  - apply Ascii.compare_eq_iff in Eab. subst. now rewrite Ebc.
  - apply Ascii.compare_eq_iff in Ebc. subst. now rewrite Eab.
  - now rewrite (ascii_compare_lt_trans _ _ _ Eab Ebc).
Qed.

Lemma tag_lt_irrefl s : ~ tag_lt s s.
Proof. unfold tag_lt. now rewrite string_compare_refl. Qed.

Lemma tag_lt_trichotomy s t : tag_lt s t \/ s = t \/ tag_lt t s.
Proof.
  unfold tag_lt. rewrite (String.compare_antisym t s).
  destruct (String.compare s t) eqn:E; auto.
  apply String.compare_eq_iff in E. auto.
Qed.

Lemma tag_lt_asym s t : tag_lt s t -> ~ tag_lt t s.
Proof.
  intros H1 H2. apply (tag_lt_irrefl s).
  eapply string_compare_lt_trans; eauto.
Qed.

Lemma ltb_tag_lt s t : String.ltb s t = true <-> tag_lt s t.
Proof.
  unfold String.ltb, tag_lt. destruct (String.compare s t); intuition congruence.
Qed.

(* The comparison of the code decides the order of the specification. *)
Lemma less_ordered_before a b : less a b = true <-> ordered_before a b.
Proof.
  unfold less, ordered_before.
  destruct (Z.eqb_spec (Created a) (Created b)) as [E|E].
  - rewrite ltb_tag_lt. intuition lia.
  - rewrite Z.ltb_lt. intuition lia.
Qed.

Lemma ordered_before_trans a b c :
  ordered_before a b -> ordered_before b c -> ordered_before a c.
Proof.
  unfold ordered_before.
  intros [H1|[H1 T1]] [H2|[H2 T2]]; try (left; lia).
  right. split; [lia|]. eapply string_compare_lt_trans; eauto.
Qed.

Lemma ordered_before_trichotomy a b :
  ordered_before a b \/ (Created a = Created b /\ Tag a = Tag b)
  \/ ordered_before b a.
Proof.
  unfold ordered_before.
  destruct (Z.lt_trichotomy (Created a) (Created b)) as [H|[H|H]]; auto.
  destruct (tag_lt_trichotomy (Tag a) (Tag b)) as [T|[T|T]]; auto.
Qed.

Lemma ordered_before_asym a b : ordered_before a b -> ~ ordered_before b a.
Proof.
  unfold ordered_before.
  intros [H1|[H1 T1]] [H2|[H2 T2]]; try lia.
  eapply tag_lt_asym; eauto.
Qed.

Lemma sorted_by_less a b :
  sorted_by less a b <-> ~ ordered_before b a.
Proof.
  unfold sorted_by. rewrite <- less_ordered_before.
  destruct (less b a); intuition congruence.
Qed.

#[local] Instance sorted_by_less_trans : Transitive (sorted_by less).
Proof.
  intros a b c. rewrite !sorted_by_less. intros Hab Hbc Hca.
  destruct (ordered_before_trichotomy a b) as [H|[[H1 H2]|H]]; [| |tauto].
  - apply Hbc. eapply ordered_before_trans; eauto.
  - apply Hbc. unfold ordered_before in *. rewrite <- H1, <- H2. exact Hca.
Qed.

#[local] Instance sorted_by_less_total : Total (sorted_by less).
Proof.
  intros a b. rewrite !sorted_by_less.
  destruct (ordered_before_trichotomy a b) as [H|[[H1 H2]|H]].
  - left. now apply ordered_before_asym.
  - left. unfold ordered_before. rewrite H1, H2.
    intros [?|[_ ?]]; [lia|]. eapply tag_lt_irrefl; eauto.
  - right. now apply ordered_before_asym.
Qed.

Lemma sort_Slice_perm x : sort_Slice less x ≡ₚ x.
Proof. apply merge_sort_Permutation. Qed.

Lemma sort_Slice_sorted x : StronglySorted (sorted_by less) (sort_Slice less x).
Proof. apply StronglySorted_merge_sort; apply _. Qed.

(* Two entries with different tags that are in sorted order are strictly
   ordered. *)
Lemma sorted_by_less_strict a b :
  sorted_by less a b -> Tag a <> Tag b -> ordered_before a b.
Proof.
  rewrite sorted_by_less. intros H Hne.
  destruct (ordered_before_trichotomy a b) as [?|[[_ ?]|?]]; tauto.
Qed.

End TagOrder.

Section DetectTagsFacts.
Variable rangeMap : gmap string value -> list (string * value).

Lemma collect_tagInfos_tags tagsMap :
  rangeMap tagsMap ≡ₚ map_to_list tagsMap ->
  NoDup (List.map Tag (collect_tagInfos rangeMap tagsMap)).
Proof.
  intros Hp. unfold collect_tagInfos. rewrite List.map_map. simpl.
  change (List.map (fun x => x.1) (rangeMap tagsMap))
    with ((rangeMap tagsMap).*1).
  rewrite Hp. apply NoDup_fst_map_to_list.
Qed.

Lemma collect_tagInfos_entry tagsMap c :
  rangeMap tagsMap ≡ₚ map_to_list tagsMap ->
  c ∈ collect_tagInfos rangeMap tagsMap <-> entry_of tagsMap c.
Proof.
  intros Hp. unfold collect_tagInfos, entry_of.
  rewrite list_elem_of_In, List.in_map_iff. split.
  - intros [[t v] [<- Hin]]. simpl. exists v. split; [|reflexivity].
    apply list_elem_of_In in Hin. rewrite Hp in Hin.
    now apply elem_of_map_to_list in Hin.
  - intros [v [Hl Hc]]. exists (Tag c, v). split.
    + destruct c; simpl in *. now subst.
    + apply list_elem_of_In. rewrite Hp. now apply elem_of_map_to_list.
Qed.

Lemma collect_tagInfos_length tagsMap :
  rangeMap tagsMap ≡ₚ map_to_list tagsMap ->
  List.length (collect_tagInfos rangeMap tagsMap) = size tagsMap.
Proof.
  intros Hp. unfold collect_tagInfos.
  rewrite List.length_map, Hp. apply length_map_to_list.
Qed.

End DetectTagsFacts.



(* The three cases of TestDetectTags and the tie-break scenario. *)
Example detectTags_normal :
  detectTags_of map_to_list (Ok query_normal) = Ok ("tag-caller", "tag-callee").
Proof. vm_compute. reflexivity. Qed.

Example detectTags_swapped :
  detectTags_of (fun m => rev (map_to_list m)) (Ok query_normal)
  = Ok ("tag-caller", "tag-callee").
Proof. vm_compute. reflexivity. Qed.

Example detectTags_tie :
  detectTags_of map_to_list (Ok query_tie) = Ok ("a", "b").
Proof. vm_compute. reflexivity. Qed.

Example detectTags_insufficient :
  detectTags_of map_to_list (Ok query_one_tag)
  = Err (Errorf "not enough tags found").
Proof. vm_compute. reflexivity. Qed.

Section ClientFacts.

Lemma IndexByte_ge b c : (-1 <= IndexByte b c)%Z.
Proof.
  induction b as [|x b IH]; simpl; [lia|].
  destruct (Ascii.eqb x c); [lia|].
  destruct (Z.eqb_spec (IndexByte b c) (-1)); lia.
Qed.

Lemma IndexByte_absent b c : IndexByte b c = (-1)%Z <-> ~ In c b.
Proof.
  induction b as [|x b IH]; simpl; [tauto|].
  destruct (Ascii.eqb_spec x c) as [->|Hne].
  - split; [lia|]. intros H; exfalso; apply H; now left.
  - destruct (Z.eqb_spec (IndexByte b c) (-1)) as [E|E].
    + split; [|reflexivity]. intros _ [H|H]; [congruence|].
      now apply IH in E.
    + pose proof (IndexByte_ge b c) as Hge. split; [lia|].
      intros Hn. exfalso. apply E, IH. tauto.
Qed.

Lemma IndexByte_first b c :
  IndexByte b c <> (-1)%Z ->
  exists pre post,
    b = pre ++ c :: post /\ ~ In c pre /\
    skipn (Z.to_nat (IndexByte b c + 1)) b = post.
Proof.
  induction b as [|x b IH]; simpl; [congruence|].
  destruct (Ascii.eqb_spec x c) as [->|Hne].
  - intros _. exists [], b. simpl. auto.
  - destruct (Z.eqb_spec (IndexByte b c) (-1)) as [E|E]; [congruence|].
    intros _. destruct (IH E) as (pre & post & Hb & Hpre & Hskip).
    exists (x :: pre), post. repeat split.
    + simpl. now rewrite <- Hb.
    + intros [H|H]; [congruence|tauto].
    + pose proof (IndexByte_ge b c).
      replace (Z.to_nat (IndexByte b c + 1 + 1))
        with (S (Z.to_nat (IndexByte b c + 1))) by lia.
      exact Hskip.
Qed.

Lemma framed_unique resp pre post pre' post' :
  framed resp pre post -> framed resp pre' post' ->
  pre = pre' /\ post = post'.
Proof.
  unfold framed. intros [-> Hn] [E Hn']. revert pre' E Hn Hn'.
  induction pre as [|a pre IH]; intros [|a' pre'] E Hn Hn'; simpl in *.
  - now inversion E.
  - inversion E; subst. exfalso. apply Hn'. now left.
  - inversion E; subst. exfalso. apply Hn. now left.
  - inversion E; subst.
    destruct (IH pre') as [-> ->]; auto.
Qed.

Lemma framed_has_space resp pre post :
  framed resp pre post -> In " "%char resp.
Proof.
  intros [-> _]. apply List.in_or_app. right. now left.
Qed.

End ClientFacts.

(** C5: once the request is marshalled, sendCommand returns an error
    exactly when the exchange fails in transport (write error, read
    error, read deadline expired), or the response has no space or its
    body does not decode to a dictionary, or the dictionary's [result] is
    the string [error]; in the last case the error carries the
    [error-reason] of the response. Otherwise it returns the decoded
    dictionary. *)
Theorem sendCommand_error_mapping
    (Marshal : gmap string value -> result (list ascii))
    (Decode : list ascii -> result value)
    (network : list ascii -> udp_exchange)
    (cookie command : string) (args : gmap string value)
    (body : list ascii) :
  Marshal (<[ "command" := VStr command ]> args) = Ok body ->
  let x := network (GoStrings.bytes_of (String.append cookie " ") ++ body) in
  let r := sendCommand Marshal Decode network cookie command args in
  (is_Err r = true <->
     transport_failure x \/ protocol_failure Decode x \/
     engine_failure Decode x) /\
  (forall m, response_dict Decode x m ->
             m !! "result" = Some (VStr "error") ->
             r = Err (ErrorfV "rtpengine error" (m !! "error-reason"))) /\
  (forall m, response_dict Decode x m ->
             m !! "result" <> Some (VStr "error") ->
             r = Ok m).
Proof.
  intros HM x r. subst r. unfold sendCommand. rewrite HM. fold x.
  destruct x as [e|e| |payload];
    unfold transport_failure, protocol_failure, engine_failure, response_dict;
    cbv beta iota zeta.
  1-3: split; [split; [tauto|reflexivity]|];
       split; intros m [].
  set (resp := firstn respBuf_size payload).
  destruct (Z.eqb_spec (IndexByte resp " "%char) (-1)) as [E|E].
  - apply IndexByte_absent in E. cbn [is_Err].
    split; [split; [tauto|reflexivity]|].
    split; intros m (pre & post & Hf & _); exfalso;
      apply E; eapply framed_has_space; eauto.
  - destruct (IndexByte_first _ _ E) as (pre & post & Hresp & Hpre & ->).
    assert (Hf : framed resp pre post) by (split; assumption).
    assert (Huniq : forall m, (exists pre' post', framed resp pre' post' /\
                       Decode post' = Ok (VDict m)) <->
                      Decode post = Ok (VDict m)).
    { intros m. split.
      - intros (pre' & post' & Hf' & HD).
        destruct (framed_unique _ _ _ _ _ Hf Hf') as [_ ->]. exact HD.
      - intros HD. eauto. }
    assert (Hproto : (~ In " "%char resp \/
               exists pre' post', framed resp pre' post' /\
                 forall m, Decode post' <> Ok (VDict m)) <->
               forall m, Decode post <> Ok (VDict m)).
    { split.
      - intros [Hn|(pre' & post' & Hf' & HD)].
        + exfalso. apply Hn. eapply framed_has_space; eauto.
        + destruct (framed_unique _ _ _ _ _ Hf Hf') as [_ ->]. exact HD.
      - intros HD. right. eauto. }
    rewrite Hproto. setoid_rewrite Huniq. clear Huniq Hproto.
    destruct (Decode post) as [decoded|err] eqn:HD.
    2:{ cbn [is_Err]. split; [split; [|reflexivity]|].
        - intros _. right; left. congruence.
        - split; intros m Hm; congruence. }
    destruct decoded as [n|f|str|l|m0].
    1-4: cbn [is_Err]; (split; [split; [|reflexivity]|]);
      [ intros _; right; left; congruence
      | split; intros m Hm; congruence ].
    destruct (m0 !! "result") as [[n|f|str|l|m1]|] eqn:Hres; cbn [as_string].
    3:{ destruct (String.eqb_spec str "error") as [->|Hne]; cbn [is_Err].
        - split; [split; [|reflexivity]|].
          + intros _. right; right. exists m0. split; [reflexivity|exact Hres].
          + split; intros m Hm; inversion Hm; subst m; [reflexivity|congruence].
        - split; [split; [discriminate|]|].
          + intros [[]|[Hp|(m & Hm & Hr)]].
            * exfalso. eapply Hp. reflexivity.
            * inversion Hm; subst m. congruence.
          + split; intros m Hm; inversion Hm; subst m; [congruence|reflexivity]. }
    all: cbn [is_Err]; (split; [split; [discriminate|]|]);
      [ intros [[]|[Hp|(m & Hm & Hr)]];
        [ exfalso; eapply Hp; reflexivity
        | inversion Hm; subst m; congruence ]
      | split; intros m Hm; inversion Hm; subst m;
        [congruence|reflexivity] ].
Qed.

Lemma sendCommand_error_mapping_witness :
  let x := Datagram (GoStrings.bytes_of reply_no_such_call) in
  let r := QueryCall Bencode.Marshal Bencode.Decode
             (engine_replies reply_no_such_call) "5f2a" "call-X" in
  (is_Err r = true <->
     transport_failure x \/ protocol_failure Bencode.Decode x \/
     engine_failure Bencode.Decode x) /\
  (forall m, response_dict Bencode.Decode x m ->
             m !! "result" = Some (VStr "error") ->
             r = Err (ErrorfV "rtpengine error" (m !! "error-reason"))) /\
  (forall m, response_dict Bencode.Decode x m ->
             m !! "result" <> Some (VStr "error") ->
             r = Ok m).
Proof.
  eapply (sendCommand_error_mapping Bencode.Marshal Bencode.Decode
            (engine_replies reply_no_such_call) "5f2a" "query"
            {[ "call-id" := VStr "call-X" ]}).
  vm_compute. reflexivity.
Defined.

(* The boundary cases of the specification, run through the codec. *)
Example sendCommand_no_space :
  QueryCall Bencode.Marshal Bencode.Decode (engine_replies reply_no_space)
            "5f2a" "call-X"
  = Err (Errorf "invalid response format (no space)").
Proof. vm_compute. reflexivity. Qed.

Example sendCommand_engine_error :
  QueryCall Bencode.Marshal Bencode.Decode (engine_replies reply_no_such_call)
            "5f2a" "call-X"
  = Err (ErrorfV "rtpengine error" (Some (VStr "no such call"))).
Proof. vm_compute. reflexivity. Qed.

Example sendCommand_deadline :
  QueryCall Bencode.Marshal Bencode.Decode (fun _ => DeadlineExpired)
            "5f2a" "call-X"
  = Err (ErrorfW "failed to read from udp" (ErrLib "i/o timeout")).
Proof. vm_compute. reflexivity. Qed.

Example sendCommand_ok :
  QueryCall Bencode.Marshal Bencode.Decode (engine_replies reply_ok)
            "5f2a" "call-X"
  = Ok {[ "result" := VStr "ok" ]}.
Proof. vm_compute. reflexivity. Qed.

(* ===================================================================== *)
(* The service, operation by operation                                   *)
(* ===================================================================== *)

Ltac munfold :=
  repeat (unfold mbind, M_bind, mret, M_ret, modify, get, webrtc, rtpClient,
            go, PC_OnTrack, PC_OnConnectionStateChange, update_source,
            sourcesMu_Unlock, sourcesMu_Lock, uuid_New, PC_AddTrack,
            NewTrackLocalStaticRTP, NewPeerConnection, PC_Close in *).

(* Run the code forward: compute, read back maps just written, and split
   on every test the code makes. *)
Ltac mstep :=
  repeat (first [ progress cbn -[rewriteAnswerSDP]
                | progress rewrite ?lookup_alter_eq, ?lookup_insert_eq
                | case_match ]);
  try discriminate; simplify_eq.

Ltac frame_maps :=
  try (intros; rewrite ?lookup_insert_ne, ?lookup_alter_ne by congruence;
       rewrite ?lookup_insert_ne by congruence; reflexivity).

Section ServiceFacts.
Variable env : Env.

(* setupBackendSubscription always returns; it touches the peer
   connection it creates, the engine log and the goroutines, nothing
   else. On success the connection is handed over open, with its
   handlers, after exactly one subscribe request and one subscribe
   answer carrying the rewritten local SDP. On every error exit after
   the connection exists, the connection is closed. *)
Lemma setupBackendSubscription_spec callID tag src leg s :
  exists r s',
    setupBackendSubscription env callID tag src leg s = Done r s' /\
    heap s' = heap s /\ sources s' = sources s /\
    sessions s' = sessions s /\
    sessionCounter s' = sessionCounter s /\ sourcesMu s' = sourcesMu s /\
    nextSource s' = nextSource s /\ nextUUID s' = nextUUID s /\
    nextTrack s' = nextTrack s /\ nextPC s' = S (nextPC s) /\
    (forall pc, pc <> nextPC s -> pcs s' !! pc = pcs s !! pc) /\
    match r with
    | Ok (pc, subTag) =>
        pc = nextPC s /\
        pcs s' !! pc =
          Some {| connectionState := StateNew;
                  onConnectionStateChange := Some (OnBackendState src);
                  onTrack := Some (src, leg); localTracks := [] |} /\
        engineLog s' =
          engineLog s ++
          [ReqSubscribe callID tag;
           ReqSubscribeAnswer callID
             (rewriteAnswerSDP (localSDP env pc)) subTag] /\
        goroutines s' = goroutines s
    | Err e =>
        (engineLog s' = engineLog s \/
         engineLog s' = engineLog s ++ [ReqSubscribe callID tag] \/
         exists sdp subTag,
           engineLog s' = engineLog s ++
             [ReqSubscribe callID tag;
              ReqSubscribeAnswer callID sdp subTag]) /\
        match rtcError env (nextPC s) CallNewPeerConnection with
        | None =>
            pc_state s' (nextPC s) = Some StateClosed /\
            goroutines s' =
              goroutines s ++ [GoHandler (OnBackendState src) StateClosed]
        | Some _ => pcs s' = pcs s /\ goroutines s' = goroutines s
        end
    end.
Proof.
  unfold setupBackendSubscription, pc_state. munfold.
  destruct (rtcError env (nextPC s) CallNewPeerConnection) eqn:Hnew;
    cbn -[rewriteAnswerSDP].
  { do 2 eexists. split; [reflexivity|]. cbn. intuition auto. }
  mstep.
  all: (do 2 eexists; split; [reflexivity|]); cbn -[rewriteAnswerSDP].
  all: rewrite ?lookup_insert_eq, ?lookup_alter_eq.
  all: repeat split; auto; frame_maps.
  all: try (rewrite lookup_insert_eq; reflexivity).
  all: rewrite <- ?app_assoc; eauto 10.
Qed.

(* ---- cleanupSource ---- *)

Lemma set_sourcesMu_id s : sourcesMu s = false ->
  set_sourcesMu false (set_sourcesMu true s) = s.
Proof. destruct s; simpl; intros ->; reflexivity. Qed.

(* A goroutine that calls cleanupSource while s.sourcesMu is held
   waits, having done nothing. *)
Lemma cleanupSource_waits src s :
  sourcesMu s = true -> cleanupSource src s = Blocked s.
Proof. intros H. unfold cleanupSource. munfold. now rewrite H. Qed.

(* With the mutex free, cleanupSource of a Source whose call id is not
   in s.sources changes nothing. *)
Lemma cleanupSource_absent src x s :
  sourcesMu s = false -> heap s !! src = Some x ->
  sources s !! CallID x = None ->
  cleanupSource src s = Done tt s.
Proof.
  intros Hmu Hx Hs. unfold cleanupSource. munfold. rewrite Hmu. cbn.
  rewrite Hx, Hs. cbn. now rewrite set_sourcesMu_id.
Qed.

(* Otherwise it removes the call id from s.sources, cancels the
   Source and starts the goroutine that releases the backend. *)
Lemma cleanupSource_present src x p s :
  sourcesMu s = false -> heap s !! src = Some x ->
  sources s !! CallID x = Some p ->
  exists s',
    cleanupSource src s = Done tt s' /\
    sources s' = delete (CallID x) (sources s) /\
    heap s' = <[ src := with_cancel x ]> (heap s) /\
    goroutines s' = goroutines s ++ [GoReleaseSource src] /\
    sessions s' = sessions s /\ pcs s' = pcs s /\
    engineLog s' = engineLog s /\ sourcesMu s' = false /\
    sessionCounter s' = sessionCounter s /\
    nextPC s' = nextPC s /\ nextSource s' = nextSource s /\
    nextTrack s' = nextTrack s /\ nextUUID s' = nextUUID s.
Proof.
  intros Hmu Hx Hs. unfold cleanupSource. munfold. rewrite Hmu. cbn.
  rewrite Hx, Hs. cbn. eexists. split; [reflexivity|]. cbn.
  repeat split; auto.
  apply map_eq. intros i. destruct (decide (i = src)) as [->|Hne].
  - now rewrite lookup_alter_eq, lookup_insert_eq, Hx.
  - now rewrite lookup_alter_ne, lookup_insert_ne by congruence.
Qed.

(* ---- createSession ---- *)

(* buildSession always returns and registers nothing. Every error exit
   after the peer connection exists closes it. *)
Lemma buildSession_spec s :
  exists r s',
    buildSession env s = Done r s' /\
    heap s' = heap s /\ sources s' = sources s /\
    sessions s' = sessions s /\
    sessionCounter s' = sessionCounter s /\ sourcesMu s' = sourcesMu s /\
    engineLog s' = engineLog s /\ nextSource s' = nextSource s /\
    nextPC s' = S (nextPC s) /\
    (forall pc, pc <> nextPC s -> pcs s' !! pc = pcs s !! pc) /\
    match r with
    | Ok sess =>
        ID sess = uuid env (nextUUID s) /\ PC sess = nextPC s /\
        nextUUID s' = S (nextUUID s) /\
        pcs s' !! nextPC s =
          Some {| connectionState := StateNew;
                  onConnectionStateChange := None; onTrack := None;
                  localTracks := [TrackFrom sess; TrackTo sess] |} /\
        goroutines s' = goroutines s
    | Err e =>
        nextUUID s' = nextUUID s /\
        match rtcError env (nextPC s) CallNewPeerConnection with
        | None => pc_state s' (nextPC s) = Some StateClosed
        | Some _ => pcs s' = pcs s
        end
    end.
Proof.
  unfold buildSession, pc_state. munfold.
  destruct (rtcError env (nextPC s) CallNewPeerConnection) eqn:Hnew; cbn.
  { do 2 eexists. split; [reflexivity|]. cbn. intuition auto. }
  mstep.
  all: cbn in *; rewrite ?lookup_alter_eq, ?lookup_insert_eq in *;
    cbn in *; simplify_eq; try discriminate.
  all: (do 2 eexists; split; [reflexivity|]); cbn.
  all: rewrite ?lookup_insert_eq, ?lookup_alter_eq.
  all: repeat split; auto; frame_maps.
  all: try (rewrite lookup_insert_eq; reflexivity).
Qed.

Lemma offerSession_spec src sess s :
  exists r,
    offerSession env src sess s =
      Done r (set_pcs (alter (pc_with_handler
                                (OnSessionState (ID sess) src)) (PC sess)) s) /\
    (r = Ok (ID sess, localSDP env (PC sess)) \/
     exists e, r = Err e /\
       (rtcError env (PC sess) CallCreateOffer = Some e \/
        rtcError env (PC sess) CallSetLocalDescription = Some e)).
Proof.
  unfold offerSession. munfold. cbn.
  destruct (rtcError env (PC sess) CallCreateOffer) eqn:E1; cbn; eauto 10.
  destruct (rtcError env (PC sess) CallSetLocalDescription) eqn:E2; cbn;
    eauto 10.
Qed.

(* createSession: either nothing is registered (buildSession failed), or
   the session is registered in s.sessions and in the Source it was
   given, whatever createSession then returns. *)
Lemma createSession_spec src s :
  exists r s',
    createSession env src s = Done r s' /\
    sources s' = sources s /\ sourcesMu s' = sourcesMu s /\
    engineLog s' = engineLog s /\ nextSource s' = nextSource s /\
    ((exists e, r = Err e) /\ sessions s' = sessions s /\
     heap s' = heap s /\ nextUUID s' = nextUUID s
     \/
     exists sess,
       ID sess = uuid env (nextUUID s) /\ PC sess = nextPC s /\
       nextUUID s' = S (nextUUID s) /\
       sessions s' = <[ ID sess := sess ]> (sessions s) /\
       heap s' = alter (with_Sessions <[ ID sess := sess ]>) src (heap s) /\
       goroutines s' = goroutines s /\
       pc_state s' (PC sess) = Some StateNew /\
       (r = Ok (ID sess, localSDP env (PC sess)) \/
        exists e, r = Err e /\
          (rtcError env (PC sess) CallCreateOffer = Some e \/
           rtcError env (PC sess) CallSetLocalDescription = Some e))).
Proof.
  unfold createSession.
  destruct (buildSession_spec s)
    as (r & s1 & Hb & Hh & Hso & Hse & Hc & Hmu & Hlog & Hns & Hnp & Hfr & Hr).
  unfold mbind at 1, M_bind at 1. rewrite Hb.
  destruct r as [sess|e].
  - destruct Hr as (Hid & Hpc & Hu & Hp & Hg).
    destruct (offerSession_spec src sess
                (set_heap (alter (with_Sessions <[ID sess:=sess]>) src)
                   (set_sessionCounter (fun n => (n + 1)%Z)
                      (set_sessions <[ID sess:=sess]> s1))))
      as (r & Ho & Hr).
    unfold registerInService, registerInSource. munfold.
    cbn -[offerSession]. rewrite Ho.
    do 2 eexists. split; [reflexivity|]. cbn.
    repeat split; auto. right. exists sess.
    rewrite Hse, Hh. repeat split; auto.
    unfold pc_state. cbn. rewrite Hpc, lookup_alter_eq, Hp. reflexivity.
  - cbn. do 2 eexists. split; [reflexivity|].
    destruct Hr as [Hu _]. repeat split; auto.
    left. repeat split; eauto.
Qed.

(* ---- createSource ---- *)

Lemma bind_Done {A B} (m : M A) (k : A -> M B) s a s' :
  m s = Done a s' -> (m ≫= k) s = k a s'.
Proof. intros H. unfold mbind, M_bind. now rewrite H. Qed.

Lemma bind_Blocked {A B} (m : M A) (k : A -> M B) s s' :
  m s = Blocked s' -> (m ≫= k) s = Blocked s'.
Proof. intros H. unfold mbind, M_bind. now rewrite H. Qed.

(* createSource as StartSpySession calls it, with s.sourcesMu held.
   It returns the new Source after the two subscriptions, or the
   from-leg error; when the to-leg fails it does not return. *)
Lemma createSource_spec callID fromTag toTag s :
  sourcesMu s = true ->
  let src := nextSource s in
  let o := createSource env callID fromTag toTag s in
  let s' := state_of o in
  sources s' = sources s /\ sessions s' = sessions s /\
  sessionCounter s' = sessionCounter s /\ sourcesMu s' = true /\
  nextUUID s' = nextUUID s /\ nextSource s' = S (nextSource s) /\
  (forall p, p <> src -> heap s' !! p = heap s !! p) /\
  (forall pc, pc < nextPC s -> pcs s' !! pc = pcs s !! pc) /\
  exists extra,
    engineLog s' = engineLog s ++ extra /\
    (forall r, In r extra ->
       match r with
       | ReqSubscribe c tag => c = callID /\ (tag = fromTag \/ tag = toTag)
       | ReqSubscribeAnswer c _ _ => c = callID
       | _ => False
       end) /\
    match o with
    | Done (Ok p) _ =>
        p = src /\
        (exists subFrom subTo sdpFrom sdpTo,
           extra = [ReqSubscribe callID fromTag;
                    ReqSubscribeAnswer callID sdpFrom subFrom;
                    ReqSubscribe callID toTag;
                    ReqSubscribeAnswer callID sdpTo subTo] /\
           heap s' !! src =
             Some (with_PCTo (Some (S (nextPC s))) subTo
                     (with_PCFrom (Some (nextPC s)) subFrom
                        (fresh_source callID fromTag toTag)))) /\
        goroutines s' = goroutines s
    | Done (Err e) _ =>
        exists e', e = ErrorfW "failed to subscribe from-leg" e' /\
        length (List.filter is_subscribe extra) <= 1
    | Blocked _ =>
        pc_state s' (nextPC s) = Some StateNew /\
        (exists subFrom,
           heap s' !! src =
             Some (with_PCTo None ""
                     (with_PCFrom (Some (nextPC s)) subFrom
                        (fresh_source callID fromTag toTag))))
    end.
Proof.
  intros Hmu src o s'. subst s'.
  assert (Ho : createSource env callID fromTag toTag s = o) by reflexivity.
  clearbody o. subst src. unfold createSource in Ho.
  unfold mbind at 1, M_bind at 1 in Ho. unfold NewSource in Ho.
  set (s0 := bump_nextSource _) in Ho.
  destruct (setupBackendSubscription_spec callID fromTag (nextSource s)
              LegFrom s0)
    as (r1 & s1 & H1 & Hh1 & Hso1 & Hse1 & Hc1 & Hmu1 & Hns1 & Hu1 & Ht1
        & Hnp1 & Hfr1 & Hr1).
  rewrite (bind_Done _ _ _ _ _ H1) in Ho.
  destruct r1 as [[pc1 sub1]|e1].
  - destruct Hr1 as (-> & Hp1 & Hlog1 & Hg1).
    erewrite bind_Done in Ho by reflexivity.
    set (s2 := set_heap _ s1) in Ho.
    destruct (setupBackendSubscription_spec callID toTag (nextSource s)
                LegTo s2)
      as (r2 & s3 & H2 & Hh2 & Hso2 & Hse2 & Hc2 & Hmu2 & Hns2 & Hu2 & Ht2
          & Hnp2 & Hfr2 & Hr2).
    rewrite (bind_Done _ _ _ _ _ H2) in Ho.
    destruct r2 as [[pc2 sub2]|e2].
    + destruct Hr2 as (-> & Hp2 & Hlog2 & Hg2).
      erewrite bind_Done in Ho by reflexivity. subst o. cbn.
      rewrite Hso2, Hse2, Hc2, Hmu2, Hu2, Hns2, Hh2. subst s2. cbn.
      rewrite Hso1, Hse1, Hc1, Hmu1, Hu1, Hns1, Hh1. subst s0.
      cbn -[rewriteAnswerSDP] in *.
      repeat split; auto.
      * intros p Hp. rewrite !lookup_alter_ne, lookup_insert_ne by congruence.
        reflexivity.
      * intros pc Hpc. rewrite Hfr2 by (rewrite Hnp1; lia).
        rewrite Hfr1 by lia. reflexivity.
      * eexists. split.
        { rewrite Hlog2. cbn. rewrite Hlog1. cbn.
          rewrite <- app_assoc. reflexivity. }
        split.
        { cbn. intros r [<-|[<-|[<-|[<-|[]]]]]; auto. }
        repeat split; auto.
        -- do 4 eexists. split; [reflexivity|].
           rewrite !lookup_alter_eq, lookup_insert_eq. cbn.
           rewrite Hnp1. reflexivity.
        -- rewrite Hg2. cbn. rewrite Hg1. reflexivity.
    + erewrite bind_Done in Ho by reflexivity.
      erewrite bind_Blocked in Ho.
      2:{ apply cleanupSource_waits. cbn. rewrite Hmu2. cbn.
          rewrite Hmu1. exact Hmu. }
      subst o. cbn.
      rewrite Hso2, Hse2, Hc2, Hmu2, Hu2, Hns2, Hh2. subst s2. cbn.
      rewrite Hso1, Hse1, Hc1, Hmu1, Hu1, Hns1, Hh1. subst s0.
      cbn -[rewriteAnswerSDP] in *.
      destruct Hr2 as [Hlog2 _].
      repeat split; auto.
      * intros p Hp. rewrite !lookup_alter_ne, lookup_insert_ne by congruence.
        reflexivity.
      * intros pc Hpc. rewrite Hfr2 by (rewrite Hnp1; lia).
        rewrite Hfr1 by lia. reflexivity.
      * cbn in Hlog2. rewrite Hlog1 in Hlog2. cbn in Hlog2.
        destruct Hlog2 as [Hl|[Hl|(sdp & st & Hl)]];
          rewrite Hl, <- ?app_assoc; eexists; (split; [reflexivity|]);
          (split; [cbn; intros r Hr;
                   repeat (destruct Hr as [<-|Hr]; auto); destruct Hr|]).
        all: split.
        all: try (unfold pc_state; cbn; rewrite Hfr2 by (rewrite Hnp1; lia);
                  rewrite Hp1; reflexivity).
        all: eexists; rewrite !lookup_alter_eq, lookup_insert_eq;
             reflexivity.
  - erewrite bind_Done in Ho by reflexivity. subst o. cbn.
    rewrite Hso1, Hse1, Hc1, Hmu1, Hu1, Hns1, Hh1. subst s0.
      cbn -[rewriteAnswerSDP] in *.
    destruct Hr1 as [Hlog1 _].
    repeat split; auto.
    + intros p Hp. rewrite lookup_alter_ne, lookup_insert_ne by congruence.
      reflexivity.
    + intros pc Hpc. rewrite Hfr1 by lia. reflexivity.
    + cbn in Hlog1.
      destruct Hlog1 as [Hl|[Hl|(sdp & st & Hl)]]; rewrite Hl.
      * exists []. rewrite app_nil_r. repeat split; eauto.
        intros r [].
      * eexists. split; [reflexivity|]. split.
        { cbn. intros r [<-|[]]; auto. }
        eexists. split; [reflexivity|]. cbn. lia.
      * eexists. split; [reflexivity|]. split.
        { cbn. intros r [<-|[<-|[]]]; auto. }
        eexists. split; [reflexivity|]. cbn. lia.
Qed.

(* ---- StartSpySession ---- *)

(* The critical section of StartSpySession. *)
Lemma getOrCreateSource_spec callID fromTag toTag s :
  sourcesMu s = true ->
  let o := getOrCreateSource env callID fromTag toTag s in
  let s' := state_of o in
  sessions s' = sessions s /\ sessionCounter s' = sessionCounter s /\
  sourcesMu s' = true /\ nextUUID s' = nextUUID s /\
  (forall p, p < nextSource s -> heap s' !! p = heap s !! p) /\
  (forall pc, pc < nextPC s -> pcs s' !! pc = pcs s !! pc) /\
  exists extra,
    engineLog s' = engineLog s ++ extra /\
    (forall r, In r extra -> backend_request callID fromTag toTag r) /\
    match sources s !! callID with
    | Some src => o = Done (Ok src) s /\ extra = []
    | None =>
        match o with
        | Done (Ok p) _ =>
            p = nextSource s /\
            sources s' = <[ callID := p ]> (sources s) /\
            (exists subFrom subTo sdpFrom sdpTo,
               extra = [ReqSubscribe callID fromTag;
                        ReqSubscribeAnswer callID sdpFrom subFrom;
                        ReqSubscribe callID toTag;
                        ReqSubscribeAnswer callID sdpTo subTo] /\
               heap s' !! p =
                 Some (with_PCTo (Some (S (nextPC s))) subTo
                         (with_PCFrom (Some (nextPC s)) subFrom
                            (fresh_source callID fromTag toTag)))) /\
            goroutines s' = goroutines s
        | Done (Err e) _ =>
            sources s' = sources s /\
            exists e', e = ErrorfW "failed to create source"
                             (ErrorfW "failed to subscribe from-leg" e')
        | Blocked _ =>
            sources s' = sources s /\
            pc_state s' (nextPC s) = Some StateNew /\
            exists subFrom,
              heap s' !! nextSource s =
                Some (with_PCTo None ""
                        (with_PCFrom (Some (nextPC s)) subFrom
                           (fresh_source callID fromTag toTag)))
        end
    end.
Proof.
  intros Hmu o s'. subst s'.
  assert (Ho : getOrCreateSource env callID fromTag toTag s = o)
    by reflexivity.
  clearbody o. unfold getOrCreateSource in Ho.
  erewrite bind_Done in Ho by reflexivity.
  destruct (sources s !! callID) as [src|] eqn:Hs.
  { subst o. cbn. repeat split; auto. exists [].
    rewrite app_nil_r. repeat split; auto. intros r []. }
  pose proof (createSource_spec callID fromTag toTag s Hmu) as Hc.
  cbv zeta in Hc.
  destruct (createSource env callID fromTag toTag s) as [[p|e] s1|s1] eqn:Hcs;
    cbn [state_of] in Hc;
    destruct Hc as (Hso & Hse & Hcn & Hmu1 & Hu & Hns & Hh & Hp & extra
                    & Hlog & Hex & Hr).
  - rewrite (bind_Done _ _ _ _ _ Hcs) in Ho.
    erewrite bind_Done in Ho by reflexivity. subst o. cbn.
    destruct Hr as (-> & (sf & st & df & dt & -> & Hhp) & Hg).
    repeat split; auto.
    + intros q Hq. apply Hh. lia.
    + eexists. split; [exact Hlog|]. split; [exact Hex|].
      repeat split; auto.
      * now rewrite Hso.
      * do 4 eexists. split; [reflexivity|exact Hhp].
  - rewrite (bind_Done _ _ _ _ _ Hcs) in Ho. subst o. cbn.
    destruct Hr as (e' & -> & _).
    repeat split; auto.
    + intros q Hq. apply Hh. lia.
    + eexists. split; [exact Hlog|]. split; [exact Hex|]. eauto.
  - rewrite (bind_Blocked _ _ _ _ Hcs) in Ho. subst o. cbn.
    destruct Hr as (Hpc & Hhp).
    repeat split; auto.
    + intros q Hq. apply Hh. lia.
    + eexists. split; [exact Hlog|]. split; [exact Hex|]. eauto.
Qed.

Lemma set_sourcesMu_twice b c s :
  set_sourcesMu b (set_sourcesMu c s) = set_sourcesMu b s.
Proof. reflexivity. Qed.

(* Steps 2 and 3 of StartSpySession from a state whose mutex is free. *)
Lemma spyWithTags_spec callID fromTag toTag s :
  sourcesMu s = false -> sources_valid s ->
  let o := spyWithTags env callID fromTag toTag s in
  let s' := state_of o in
  exists extra,
    engineLog s' = engineLog s ++ extra /\
    (forall r, In r extra -> backend_request callID fromTag toTag r) /\
    match o with
    | Done (Ok (sid, sdp, f, t)) _ =>
        f = fromTag /\ t = toTag /\ sourcesMu s' = false /\
        sid = uuid env (nextUUID s) /\
        exists src x,
          sources s' !! callID = Some src /\
          heap s' !! src = Some x /\
          is_Some (Sessions x !! sid) /\ is_Some (sessions s' !! sid) /\
          match sources s !! callID with
          | Some src0 => src = src0 /\ extra = []
          | None => length (List.filter is_subscribe extra) = 2
          end
    | Done (Err e) _ => sourcesMu s' = false
    | Blocked _ =>
        sources s !! callID = None /\ sources s' = sources s /\
        sourcesMu s' = true /\
        pc_state s' (nextPC s) = Some StateNew /\
        exists subFrom,
          heap s' !! nextSource s =
            Some (with_PCTo None ""
                    (with_PCFrom (Some (nextPC s)) subFrom
                       (fresh_source callID fromTag toTag)))
    end.
Proof.
  intros Hmu Hvalid o s'. subst s'.
  assert (Ho : spyWithTags env callID fromTag toTag s = o) by reflexivity.
  clearbody o. unfold spyWithTags in Ho.
  erewrite bind_Done in Ho by (unfold sourcesMu_Lock; rewrite Hmu; reflexivity).
  pose proof (getOrCreateSource_spec callID fromTag toTag
                (set_sourcesMu true s) eq_refl) as Hg.
  cbv zeta in Hg.
  destruct (getOrCreateSource env callID fromTag toTag (set_sourcesMu true s))
    as [r s1|s1] eqn:Hgo; cbn [state_of] in Hg;
    destruct Hg as (Hse & Hcn & Hmu1 & Hu & Hh & Hp & extra & Hlog & Hex & Hr);
    cbn in Hse, Hcn, Hu, Hh, Hp, Hlog, Hr.
  2:{ rewrite (bind_Blocked _ _ _ _ Hgo) in Ho. subst o. cbn.
      exists extra. split; [exact Hlog|]. split; [exact Hex|].
      destruct (sources s !! callID) as [src0|] eqn:Hs.
      - destruct Hr as [Hr _]. discriminate.
      - destruct Hr as (Hso & Hpc & Hhp). repeat split; auto. }
  rewrite (bind_Done _ _ _ _ _ Hgo) in Ho.
  erewrite bind_Done in Ho by reflexivity.
  destruct r as [src|e].
  2:{ subst o. cbn. exists extra. auto. }
  destruct (createSession_spec src (set_sourcesMu false s1))
    as (r & s2 & Hc & Hso2 & Hmu2 & Hlog2 & Hns2 & Hcase).
  rewrite (bind_Done _ _ _ _ _ Hc) in Ho.
  assert (Hlog' : engineLog s2 = engineLog s ++ extra).
  { rewrite Hlog2. cbn. exact Hlog. }
  destruct r as [[sid sdp]|e]; subst o; cbn; exists extra.
  2:{ now rewrite Hmu2. }
  split; [exact Hlog'|]. split; [exact Hex|].
  rewrite Hmu2. cbn.
  split; [reflexivity|]. split; [reflexivity|]. split; [reflexivity|].
  destruct Hcase as [[[e He] _]|(sess & Hid & Hpc & Hu2 & Hss & Hhs & Hgs
                                 & Hst & Hret)]; [discriminate|].
  destruct Hret as [Hret|(e & He & _)]; [|discriminate].
  inversion Hret; subst sid sdp. cbn in Hid, Hss, Hhs, Hso2.
  split; [rewrite Hid, Hu; reflexivity|].
  assert (Hsrc : exists x, heap s1 !! src = Some x /\
                 sources s1 !! callID = Some src /\
                 match sources s !! callID with
                 | Some src0 => src = src0 /\ extra = []
                 | None => length (List.filter is_subscribe extra) = 2
                 end).
  { destruct (sources s !! callID) as [src0|] eqn:Hs.
    - destruct Hr as [Hr ->]. inversion Hr; subst src0 s1. cbn.
      destruct (Hvalid _ _ Hs) as (_ & x & Hx & _). eauto.
    - destruct Hr as (-> & Hso & (sf & st & df & dt & -> & Hhp) & _).
      eexists. split; [exact Hhp|]. split.
      + rewrite Hso. apply lookup_insert_eq.
      + reflexivity. }
  destruct Hsrc as (x & Hx & Hsx & Hm).
  exists src, (with_Sessions <[ID sess:=sess]> x).
  rewrite Hso2, Hhs, Hss. cbn.
  rewrite lookup_alter_eq, Hx. cbn. rewrite !lookup_insert_eq.
  repeat split; eauto.
Qed.

(* The requests spyWithTags makes and the tags it returns, from any
   state. *)
Lemma spyWithTags_requests callID fromTag toTag s :
  let o := spyWithTags env callID fromTag toTag s in
  exists extra,
    engineLog (state_of o) = engineLog s ++ extra /\
    (forall r, In r extra -> backend_request callID fromTag toTag r) /\
    (forall sid sdp f t,
       returned o = Some (Ok (sid, sdp, f, t)) ->
       f = fromTag /\ t = toTag).
Proof.
  intros o.
  assert (Ho : spyWithTags env callID fromTag toTag s = o) by reflexivity.
  clearbody o. unfold spyWithTags in Ho.
  destruct (sourcesMu s) eqn:Hmu.
  { erewrite bind_Blocked in Ho
      by (unfold sourcesMu_Lock; rewrite Hmu; reflexivity).
    subst o. exists []. cbn. rewrite app_nil_r.
    repeat split; try discriminate. intros r []. }
  erewrite bind_Done in Ho by (unfold sourcesMu_Lock; rewrite Hmu; reflexivity).
  pose proof (getOrCreateSource_spec callID fromTag toTag
                (set_sourcesMu true s) eq_refl) as Hg.
  cbv zeta in Hg.
  destruct (getOrCreateSource env callID fromTag toTag (set_sourcesMu true s))
    as [r s1|s1] eqn:Hgo; cbn [state_of] in Hg;
    destruct Hg as (_ & _ & _ & _ & _ & _ & extra & Hlog & Hex & _);
    cbn in Hlog; exists extra.
  2:{ rewrite (bind_Blocked _ _ _ _ Hgo) in Ho. subst o. cbn.
      repeat split; auto; discriminate. }
  rewrite (bind_Done _ _ _ _ _ Hgo) in Ho.
  erewrite bind_Done in Ho by reflexivity.
  destruct r as [src|e].
  2:{ subst o. cbn. repeat split; auto; discriminate. }
  destruct (createSession_spec src (set_sourcesMu false s1))
    as (r & s2 & Hc & _ & _ & Hlog2 & _).
  rewrite (bind_Done _ _ _ _ _ Hc) in Ho.
  destruct r as [[sid sdp]|e]; subst o; cbn; rewrite Hlog2; cbn;
    (split; [exact Hlog|]); (split; [exact Hex|]);
    intros ? ? ? ? [=]; subst; auto.
Qed.

End ServiceFacts.


(** C10: when one of the two tags given to StartSpySession is empty, tag
    detection runs (the engine is queried first); the call behaves as if
    both tags were empty, so a tag the caller supplied is dropped; the
    subscribe requests it makes carry the detected tags only, and the
    tags it returns are the detected ones. *)
Theorem StartSpySession_autodetect
    (env : Env) (callID fromTag toTag : string) (s : Service) :
  fromTag = "" \/ toTag = "" ->
  let o := StartSpySession env callID fromTag toTag s in
  let query := engine env (engineLog s) (ReqQueryCall callID) in
  o = StartSpySession env callID "" "" s /\
  exists rest,
    engineLog (state_of o) = engineLog s ++ ReqQueryCall callID :: rest /\
    match detectTags_of (rangeTags env) query with
    | Ok (f, t) =>
        (forall r, In r rest -> backend_request callID f t r) /\
        (forall sid sdp f' t',
           returned o = Some (Ok (sid, sdp, f', t')) -> f' = f /\ t' = t)
    | Err e =>
        rest = [] /\
        returned o = Some (Err (ErrorfW "failed to detect tags" e))
    end.
Proof.
  intros Hempty o query.
  assert (Hres : resolveTags env callID fromTag toTag
                 = resolveTags env callID "" "").
  { unfold resolveTags. destruct Hempty as [-> | ->]; cbn;
      rewrite ?orb_true_r; reflexivity. }
  split.
  { subst o. unfold StartSpySession. now rewrite Hres. }
  subst o. unfold StartSpySession. rewrite Hres.
  unfold resolveTags. cbn [String.eqb orb]. unfold detectTags.
  munfold. cbn -[spyWithTags detectTags_of].
  fold query.
  destruct (detectTags_of (rangeTags env) query) as [[f t]|e] eqn:Hd;
    cbn -[spyWithTags].
  - destruct (spyWithTags_requests env callID f t
                (set_engineLog (fun l => l ++ [ReqQueryCall callID]) s))
      as (extra & Hlog & Hex & Hret).
    exists extra. split; [|split; assumption].
    rewrite Hlog. cbn. now rewrite <- app_assoc.
  - exists []. repeat split; reflexivity.
Qed.

Lemma StartSpySession_autodetect_witness :
  let o := StartSpySession env_ok "call-X" "tag-callee" "" NewService in
  let query := engine env_ok (engineLog NewService) (ReqQueryCall "call-X") in
  o = StartSpySession env_ok "call-X" "" "" NewService /\
  exists rest,
    engineLog (state_of o) = engineLog NewService ++ ReqQueryCall "call-X" :: rest /\
    match detectTags_of (rangeTags env_ok) query with
    | Ok (f, t) =>
        (forall r, In r rest -> backend_request "call-X" f t r) /\
        (forall sid sdp f' t',
           returned o = Some (Ok (sid, sdp, f', t')) -> f' = f /\ t' = t)
    | Err e =>
        rest = [] /\
        returned o = Some (Err (ErrorfW "failed to detect tags" e))
    end.
Proof.
  apply (StartSpySession_autodetect env_ok "call-X" "tag-callee" "" NewService).
  right. reflexivity.
Defined.

Example StartSpySession_drops_given_tag :
  returned (StartSpySession env_ok "call-X" "tag-callee" "" NewService)
  = Some (Ok ("spy-0", answer_rejected_audio, "tag-caller", "tag-callee")).
Proof. vm_compute. reflexivity. Qed.

(* With both tags given, no detection: the engine is not queried for
   them. *)
Lemma StartSpySession_explicit_tags env callID fromTag toTag s :
  fromTag <> "" -> toTag <> "" ->
  StartSpySession env callID fromTag toTag s
  = spyWithTags env callID fromTag toTag s.
Proof.
  intros Hf Ht. unfold StartSpySession, resolveTags.
  apply String.eqb_neq in Hf, Ht. rewrite Hf, Ht. reflexivity.
Qed.

(* ===================================================================== *)
(* Failure during Source construction                                    *)
(* ===================================================================== *)

(** C1: the engine refuses the to-leg subscription after the from-leg
    subscription is established. createSource then calls cleanupSource
    while StartSpySession holds s.sourcesMu: the call never returns, the
    mutex stays held, the from-leg peer connection stays open and no
    unsubscribe is sent. With the mutex free cleanupSource would still do
    nothing, since the Source was never put in s.sources. *)
Theorem StartSpySession_to_leg_refused :
  let o := StartSpySession env_to_leg_refused "call-X" "" "" NewService in
  let s' := state_of o in
  returned o = None /\
  sourcesMu s' = true /\
  sources s' !! "call-X" = None /\
  PCFrom <$> heap s' !! 0 = Some (Some 0) /\
  pc_state s' 0 = Some StateNew /\
  pc_state s' 1 = Some StateClosed /\
  engineLog s' =
    [ReqQueryCall "call-X"; ReqSubscribe "call-X" "tag-caller";
     ReqSubscribeAnswer "call-X" answer_port_nine "sub-tag-caller";
     ReqSubscribe "call-X" "tag-callee"] /\
  List.filter is_unsubscribe (engineLog s') = [] /\
  cleanupSource 0 (set_sourcesMu false s') = Done tt (set_sourcesMu false s').
Proof. vm_compute. repeat split; reflexivity. Qed.

(* In general: when steps 2 and 3 of StartSpySession do not return from a
   state whose mutex was free, the call is waiting for the mutex it
   holds itself, with the from-leg connection open and the Source
   outside s.sources. *)
Lemma spyWithTags_never_returns env callID fromTag toTag s s' :
  sourcesMu s = false -> sources_valid s ->
  spyWithTags env callID fromTag toTag s = Blocked s' ->
  sourcesMu s' = true /\ sources s' !! callID = None /\
  pc_state s' (nextPC s) = Some StateNew /\
  (exists subFrom,
     heap s' !! nextSource s =
       Some (with_PCTo None ""
               (with_PCFrom (Some (nextPC s)) subFrom
                  (fresh_source callID fromTag toTag)))) /\
  exists extra,
    engineLog s' = engineLog s ++ extra /\
    List.filter is_unsubscribe extra = [].
Proof.
  intros Hmu Hv Hb.
  pose proof (spyWithTags_spec env callID fromTag toTag s Hmu Hv) as H.
  cbv zeta in H. rewrite Hb in H. cbn [state_of] in H.
  destruct H as (extra & Hlog & Hex & Hs & Hso & Hmu' & Hpc & Hh).
  repeat split; auto.
  - now rewrite Hso.
  - exists extra. split; [exact Hlog|].
    clear Hlog. induction extra as [|r extra IH]; [reflexivity|].
    cbn. pose proof (Hex r (or_introl eq_refl)) as Hr.
    destruct r; cbn in *; try contradiction;
      apply IH; intros; apply Hex; now right.
Qed.

(* ===================================================================== *)
(* Error exits and the peer connection                                   *)
(* ===================================================================== *)

(* setupBackendSubscription and the first part of createSession close the
   peer connection they created on every error exit. *)
Lemma setupBackendSubscription_error_closes env callID tag src leg s e s' :
  setupBackendSubscription env callID tag src leg s = Done (Err e) s' ->
  rtcError env (nextPC s) CallNewPeerConnection = None ->
  pc_state s' (nextPC s) = Some StateClosed.
Proof.
  intros H Hnew.
  destruct (setupBackendSubscription_spec env callID tag src leg s)
    as (r & s1 & H1 & Hrest).
  rewrite H in H1. inversion H1; subst r s1.
  destruct Hrest as (_ & _ & _ & _ & _ & _ & _ & _ & _ & _ & _ & Hr).
  rewrite Hnew in Hr. tauto.
Qed.

Lemma buildSession_error_closes env s e s' :
  buildSession env s = Done (Err e) s' ->
  rtcError env (nextPC s) CallNewPeerConnection = None ->
  pc_state s' (nextPC s) = Some StateClosed.
Proof.
  intros H Hnew.
  destruct (buildSession_spec env s) as (r & s1 & H1 & Hrest).
  rewrite H in H1. inversion H1; subst r s1.
  destruct Hrest as (_ & _ & _ & _ & _ & _ & _ & _ & _ & _ & Hr).
  rewrite Hnew in Hr. tauto.
Qed.

(** C7: createSession, CreateOffer failing. The error is returned with
    the peer connection created at the start still open, and with the
    session, which holds that connection, registered in s.sessions and in
    the Source: the two exits after the registration return without
    closing, unlike the exits before it. *)
Theorem createSession_offer_error_leaves_open :
  let s0 := state_of (getOrCreateSource env_offer_fails "call-X"
                        "tag-caller" "tag-callee" NewService) in
  let o := createSession env_offer_fails 0 s0 in
  let s' := state_of o in
  returned o = Some (Err (ErrLib "InvalidStateError")) /\
  pc_state s0 2 = None /\
  pc_state s' 2 = Some StateNew /\
  PC <$> sessions s' !! "spy-0" = Some 2 /\
  (PC <$> (Sessions <$> heap s' !! 0) ≫= (.!! "spy-0")) = Some 2 /\
  goroutines s' = [].
Proof. vm_compute. repeat split; reflexivity. Qed.

(* The same in general: whenever createSession fails at the offer, the
   session stays registered and its connection is not closed. *)
Lemma createSession_late_error env src s e s' :
  createSession env src s = Done (Err e) s' ->
  sessions s' <> sessions s ->
  exists sess,
    sessions s' !! ID sess = Some sess /\ PC sess = nextPC s /\
    pc_state s' (PC sess) = Some StateNew /\
    goroutines s' = goroutines s.
Proof.
  intros H Hne.
  destruct (createSession_spec env src s) as (r & s1 & H1 & _ & _ & _ & _ & Hc).
  rewrite H in H1. inversion H1; subst r s1.
  destruct Hc as [(_ & Hs & _)|(sess & Hid & Hpc & _ & Hss & _ & Hg & Hst & _)].
  - contradiction.
  - exists sess. rewrite Hss, lookup_insert_eq. auto.
Qed.

(* ===================================================================== *)
(* Source teardown                                                       *)
(* ===================================================================== *)

Lemma PC_Close_live s source pc :
  live_backend_pc s source pc ->
  exists p,
    pcs s !! pc = Some p /\
    PC_Close pc s =
      Done tt (set_goroutines
                 (fun g => g ++ [GoHandler (OnBackendState source) StateClosed])
                 (set_pcs <[ pc := pc_with_state StateClosed p ]> s)).
Proof.
  intros (p & Hp & Hst & Hh). exists p. split; [exact Hp|].
  unfold PC_Close. rewrite Hp.
  destruct (decide (connectionState p = StateClosed)); [contradiction|].
  unfold notify. now rewrite Hh.
Qed.

Lemma drain_nil env n s : goroutines s = [] -> drain env n s = Done tt s.
Proof.
  intros H. destruct n; [reflexivity|]. cbn [drain]. munfold. now rewrite H.
Qed.

Lemma drain_cons env n s t rest :
  goroutines s = t :: rest ->
  drain env (S n) s =
  (run_task env t;; drain env n) (set_goroutines (fun _ => rest) s).
Proof. intros H. cbn [drain]. munfold. now rewrite H. Qed.

(* The goroutine started by cleanupSource, on a Source with two live
   backend connections. *)
Lemma releaseSource_live env s source x pcFrom pcTo pf pt :
  heap s !! source = Some x ->
  PCFrom x = Some pcFrom -> PCTo x = Some pcTo -> pcFrom <> pcTo ->
  pcs s !! pcFrom = Some pf -> connectionState pf <> StateClosed ->
  onConnectionStateChange pf = Some (OnBackendState source) ->
  pcs s !! pcTo = Some pt -> connectionState pt <> StateClosed ->
  onConnectionStateChange pt = Some (OnBackendState source) ->
  releaseSource env source s =
  Done tt
    (set_engineLog
       (fun l => l ++ [ReqUnSubscribe (CallID x) (SubTagTo x)])
       (set_goroutines
          (fun g => g ++ [GoHandler (OnBackendState source) StateClosed])
          (set_pcs <[ pcTo := pc_with_state StateClosed pt ]>
             (set_engineLog
                (fun l => l ++ [ReqUnSubscribe (CallID x) (SubTagFrom x)])
                (set_goroutines
                   (fun g => g ++ [GoHandler (OnBackendState source) StateClosed])
                   (set_pcs <[ pcFrom := pc_with_state StateClosed pf ]> s)))))).
Proof.
  intros Hx HpF HpT Hne Hpf HstF HhF Hpt HstT HhT.
  unfold releaseSource, notify. munfold. cbn.
  rewrite Hx. cbn. rewrite HpF. cbn. rewrite Hpf.
  destruct (decide (connectionState pf = StateClosed)); [contradiction|].
  cbn. rewrite Hx, HpT. cbn. rewrite lookup_insert_ne, Hpt by congruence.
  destruct (decide (connectionState pt = StateClosed)); [contradiction|].
  cbn. unfold notify. rewrite HhF, HhT. reflexivity.
Qed.

(** C2 (as amended): cleanupSource of a Source that is in s.sources, with
    the goroutines it sets off, removes the call id from s.sources,
    cancels the Source, closes both backend peer connections and sends an
    unsubscribe for each subscription tag. It leaves s.sessions, the
    Sessions map of the Source and every other peer connection, the
    spectators' included, as they were. *)
Theorem cleanupSource_releases_backend
    (env : Env) (s : Service) (source : srcid) (x : Source)
    (p : srcid) (pcFrom pcTo : pcid) :
  sourcesMu s = false ->
  goroutines s = [] ->
  heap s !! source = Some x ->
  sources s !! CallID x = Some p ->
  PCFrom x = Some pcFrom -> PCTo x = Some pcTo -> pcFrom <> pcTo ->
  live_backend_pc s source pcFrom ->
  live_backend_pc s source pcTo ->
  let o := teardown env source s in
  let s' := state_of o in
  returned o = Some tt /\
  sources s' = delete (CallID x) (sources s) /\
  heap s' = <[ source := with_cancel x ]> (heap s) /\
  pc_state s' pcFrom = Some StateClosed /\
  pc_state s' pcTo = Some StateClosed /\
  engineLog s' =
    engineLog s ++ [ReqUnSubscribe (CallID x) (SubTagFrom x);
                    ReqUnSubscribe (CallID x) (SubTagTo x)] /\
  goroutines s' = [] /\
  sessions s' = sessions s /\
  sessionCounter s' = sessionCounter s /\
  (forall pc, pc <> pcFrom -> pc <> pcTo -> pcs s' !! pc = pcs s !! pc).
Proof.
  intros Hmu Hgo Hx Hsrc HpF HpT Hne (pf & Hpf & HstF & HhF)
         (pt & Hpt & HstT & HhT) o s'. subst s'.
  assert (Ho : teardown env source s = o) by reflexivity. clearbody o.
  unfold teardown in Ho.
  destruct (cleanupSource_present source x p s Hmu Hx Hsrc)
    as (s1 & Hc & Hso1 & Hh1 & Hg1 & Hse1 & Hp1 & Hl1 & Hmu1 & Hcn1 & _).
  rewrite (bind_Done _ _ _ _ _ Hc) in Ho.
  rewrite Hgo in Hg1. cbn in Hg1.
  (* the release goroutine *)
  rewrite (drain_cons _ _ _ _ _ Hg1) in Ho.
  set (s2 := set_goroutines (fun _ => []) s1) in Ho.
  assert (Hrel := releaseSource_live env s2 source (with_cancel x)
                    pcFrom pcTo pf pt).
  specialize (Hrel ltac:(subst s2; cbn; rewrite Hh1; apply lookup_insert_eq)
                   HpF HpT Hne
                   ltac:(subst s2; cbn; rewrite Hp1; exact Hpf) HstF HhF
                   ltac:(subst s2; cbn; rewrite Hp1; exact Hpt) HstT HhT).
  cbn [run_task] in Ho. rewrite (bind_Done _ _ _ _ _ Hrel) in Ho.
  clear Hrel. cbn [with_cancel CallID SubTagFrom SubTagTo] in Ho.
  set (s4 := set_engineLog _ _) in Ho.
  (* the notifications of the two closes find the call id gone *)
  assert (Habs : forall g, cleanupSource source (set_goroutines (fun _ => g) s4)
                 = Done tt (set_goroutines (fun _ => g) s4)).
  { intros g. apply (cleanupSource_absent source (with_cancel x)).
    - subst s4 s2. cbn. exact Hmu1.
    - subst s4 s2. cbn. rewrite Hh1. apply lookup_insert_eq.
    - subst s4 s2. cbn. rewrite Hso1. apply lookup_delete_eq. }
  rewrite (drain_cons env 1 s4 (GoHandler (OnBackendState source) StateClosed)
             [GoHandler (OnBackendState source) StateClosed]) in Ho
    by (subst s4 s2; reflexivity).
  cbn [run_task run_handler terminal] in Ho.
  rewrite (bind_Done _ _ _ _ _ (Habs _)) in Ho.
  rewrite (drain_cons env 0 _ (GoHandler (OnBackendState source) StateClosed) [])
    in Ho by reflexivity.
  cbn [run_task run_handler terminal] in Ho.
  change (set_goroutines (fun _ => []) (set_goroutines _ s4))
    with (set_goroutines (fun _ : list task => @nil task) s4) in Ho.
  rewrite (bind_Done _ _ _ _ _ (Habs _)) in Ho.
  subst o. cbn [drain mret M_ret state_of returned].
  subst s4 s2. unfold pc_state. cbn.
  rewrite lookup_insert_eq, lookup_insert_ne, lookup_insert_eq by congruence.
  rewrite Hso1, Hh1, Hse1, Hl1, Hcn1, Hp1, <- app_assoc. cbn.
  repeat split; auto.
  intros pc H1 H2. now rewrite !lookup_insert_ne by congruence.
Qed.

Lemma cleanupSource_releases_backend_witness :
  let o := teardown env_ok 0 service_one_spectator in
  let s' := state_of o in
  returned o = Some tt /\
  sources s' = delete (CallID source0) (sources service_one_spectator) /\
  heap s' = <[ 0 := with_cancel source0 ]> (heap service_one_spectator) /\
  pc_state s' 0 = Some StateClosed /\
  pc_state s' 1 = Some StateClosed /\
  engineLog s' =
    engineLog service_one_spectator ++
      [ReqUnSubscribe (CallID source0) (SubTagFrom source0);
       ReqUnSubscribe (CallID source0) (SubTagTo source0)] /\
  goroutines s' = [] /\
  sessions s' = sessions service_one_spectator /\
  sessionCounter s' = sessionCounter service_one_spectator /\
  (forall pc, pc <> 0 -> pc <> 1 ->
              pcs s' !! pc = pcs service_one_spectator !! pc).
Proof.
  apply (cleanupSource_releases_backend env_ok service_one_spectator 0
           source0 0 0 1).
  - reflexivity.
  - reflexivity.
  - vm_compute. reflexivity.
  - vm_compute. reflexivity.
  - reflexivity.
  - reflexivity.
  - lia.
  - eexists. split; [vm_compute; reflexivity|]. split; [discriminate|reflexivity].
  - eexists. split; [vm_compute; reflexivity|]. split; [discriminate|reflexivity].
Defined.

(* The spectator of the torn-down Source is still registered, and its
   peer connection is still open. *)
Lemma teardown_keeps_sessions :
  ~ teardown_destroys_sessions env_ok service_one_spectator 0 source0.
Proof.
  intros (_ & _ & _ & _ & H).
  destruct (H "spy-0" spectator0) as [Hnone _].
  - vm_compute. reflexivity.
  - vm_compute in Hnone. discriminate.
Qed.

Example teardown_spectator_state :
  let s' := state_of (teardown env_ok 0 service_one_spectator) in
  sessions s' !! "spy-0" = Some spectator0 /\
  (Sessions <$> heap s' !! 0) ≫= (.!! "spy-0") = Some spectator0 /\
  pc_state s' 2 = Some StateNew.
Proof. vm_compute. repeat split; reflexivity. Qed.

(* ===================================================================== *)
(* The two session tables                                                *)
(* ===================================================================== *)

Lemma consistent_ext s s' :
  sessions s' = sessions s ->
  (forall sid source, attached s' sid source <-> attached s sid source) ->
  consistent s -> consistent s'.
Proof.
  intros Hs Ha Hc sid. destruct (Hc sid) as [H1 H2]. split.
  - rewrite Hs, H1. split; intros [src H]; exists src; now apply Ha.
  - intros a b Ha1 Hb1. apply H2; now apply Ha.
Qed.

(* In the form of the specification: exactly one Source object. *)
Lemma consistent_exactly_one s sid :
  consistent s ->
  (is_Some (sessions s !! sid) <->
   exists source,
     attached s sid source /\
     forall source', attached s sid source' -> source' = source).
Proof.
  intros Hc. destruct (Hc sid) as [H1 H2]. rewrite H1. split.
  - intros [src H]. exists src. split; [exact H|].
    intros src' H'. now apply (H2 src' src).
  - intros (src & H & _). now exists src.
Qed.

Lemma attached_alter_Sessions s s' f src sid q :
  heap s' = alter (with_Sessions f) src (heap s) ->
  attached s' sid q <->
  (q = src /\ exists x, heap s !! src = Some x /\ is_Some (f (Sessions x) !! sid))
  \/ (q <> src /\ attached s sid q).
Proof.
  unfold attached. intros ->.
  destruct (decide (q = src)) as [->|Hne].
  - rewrite lookup_alter_eq. split.
    + intros (y & Hy & Hs). left. split; [reflexivity|].
      destruct (heap s !! src) as [x|]; cbn in Hy; [|discriminate].
      inversion Hy; subst y. eauto.
    + intros [(_ & x & Hx & Hs)|[Hne _]]; [|contradiction].
      rewrite Hx. cbn. eauto.
  - rewrite lookup_alter_ne by congruence. split; [auto|].
    intros [[E _]|[_ H]]; [contradiction|exact H].
Qed.

Lemma attached_same_heap s s' sid source :
  heap s' = heap s -> attached s' sid source <-> attached s sid source.
Proof. unfold attached. now intros ->. Qed.

Lemma attached_cancel s s' sid source src :
  heap s' = alter with_cancel src (heap s) ->
  attached s' sid source <-> attached s sid source.
Proof.
  unfold attached. intros ->.
  destruct (decide (source = src)) as [->|Hne].
  - rewrite lookup_alter_eq. destruct (heap s !! src) as [x|]; cbn.
    + split; intros (y & [= <-] & H); eexists; eauto.
    + split; intros (y & [=] & _).
  - now rewrite lookup_alter_ne by congruence.
Qed.

Lemma cleanupSource_tables src s :
  let s' := state_of (cleanupSource src s) in
  sessions s' = sessions s /\
  (heap s' = heap s \/ heap s' = alter with_cancel src (heap s)).
Proof.
  unfold cleanupSource. munfold.
  destruct (sourcesMu s); cbn; [auto|].
  destruct (heap s !! src) as [x|]; cbn; [|auto].
  destruct (sources s !! CallID x); cbn; auto.
Qed.

Lemma cleanupSession_tables sid src s :
  let s' := state_of (cleanupSession sid src s) in
  sessions s' = delete sid (sessions s) /\
  heap s' = alter (with_Sessions (delete sid)) src (heap s).
Proof.
  unfold cleanupSession. munfold. cbn.
  destruct (decide (is_Some (sessions s !! sid))) as [H|H]; cbn.
  - auto.
  - split; [|reflexivity]. symmetry. apply delete_id.
    now apply eq_None_not_Some.
Qed.

(** C6 (as amended): a session id is in s.sessions iff it is in the
    Sessions map of a Source object, whether or not that Source is still
    in s.sources, and it is never in the Sessions maps of two.
    createSession (on an existing Source, with a uuid not yet in
    s.sessions), cleanupSession (for the Source the session was created
    on) and cleanupSource, each run to its end, preserve this. *)
Theorem session_tables_consistent (env : Env) (s : Service) :
  consistent s ->
  (forall source,
     is_Some (heap s !! source) ->
     sessions s !! uuid env (nextUUID s) = None ->
     consistent (state_of (createSession env source s))) /\
  (forall sid source,
     (forall source', attached s sid source' -> source' = source) ->
     consistent (state_of (cleanupSession sid source s))) /\
  (forall source, consistent (state_of (cleanupSource source s))).
Proof.
  intros Hc. split; [|split].
  - intros src [x Hx] Hfresh.
    destruct (createSession_spec env src s)
      as (r & s' & -> & _ & _ & _ & _ & Hcase). cbn [state_of].
    destruct Hcase as [(_ & Hs & Hh & _)
                      |(sess & Hid & _ & _ & Hs & Hh & _)].
    { apply (consistent_ext s); auto. intros. now apply attached_same_heap. }
    rewrite <- Hid in Hfresh.
    assert (Hnone : forall q, ~ attached s (ID sess) q).
    { intros q Ha. destruct (Hc (ID sess)) as [H1 _].
      assert (H : is_Some (sessions s !! ID sess)) by (apply H1; eauto).
      rewrite Hfresh in H. now destruct H. }
    assert (Hatt : forall sid q,
              attached s' sid q <->
              (sid = ID sess /\ q = src) \/ attached s sid q).
    { intros sid q. rewrite (attached_alter_Sessions s s' _ src sid q Hh).
      split.
      - intros [(-> & y & Hy & Hsome)|[_ H]]; [|now right].
        rewrite Hx in Hy. inversion Hy; subst y.
        destruct (decide (sid = ID sess)) as [->|Hne]; [now left|].
        right. rewrite lookup_insert_ne in Hsome by congruence.
        exists x. auto.
      - intros [[-> ->]|H].
        + left. split; [reflexivity|]. exists x. split; [exact Hx|].
          rewrite lookup_insert_eq. eauto.
        + destruct (decide (q = src)) as [->|Hne]; [|now right].
          left. split; [reflexivity|]. exists x. split; [exact Hx|].
          destruct H as (y & Hy & Hsome). rewrite Hx in Hy.
          inversion Hy; subst y.
          destruct (decide (sid = ID sess)) as [->|Hne'].
          * rewrite lookup_insert_eq. eauto.
          * now rewrite lookup_insert_ne by congruence. }
    intros sid. destruct (Hc sid) as [H1 H2]. split.
    + rewrite Hs. destruct (decide (sid = ID sess)) as [->|Hne].
      * rewrite lookup_insert_eq. split; [|eauto].
        intros _. exists src. apply Hatt. now left.
      * rewrite lookup_insert_ne, H1 by congruence.
        split; intros [q H]; exists q.
        -- apply Hatt. now right.
        -- apply Hatt in H as [[E _]|H]; [contradiction|exact H].
    + intros a b Ha Hb. apply Hatt in Ha, Hb.
      destruct Ha as [[-> ->]|Ha], Hb as [[E ->]|Hb]; auto.
      * exfalso. now apply (Hnone b).
      * exfalso. subst sid. now apply (Hnone a).
  - intros sid src Honly.
    pose proof (cleanupSession_tables sid src s) as [Hs Hh].
    cbv zeta in Hs, Hh. set (s' := state_of _) in *.
    assert (Hatt : forall sid' q,
              attached s' sid' q <-> attached s sid' q /\ sid' <> sid).
    { intros sid' q. rewrite (attached_alter_Sessions s s' _ src sid' q Hh).
      split.
      - intros [(-> & y & Hy & Hsome)|[Hne H]].
        + destruct (decide (sid' = sid)) as [->|Hne].
          * rewrite lookup_delete_eq in Hsome. now destruct Hsome.
          * rewrite lookup_delete_ne in Hsome by congruence.
            split; [|exact Hne]. exists y. auto.
        + split; [exact H|]. intros ->. apply Hne. now apply Honly.
      - intros [H Hne].
        destruct (decide (q = src)) as [->|Hq]; [|now right].
        left. split; [reflexivity|]. destruct H as (y & Hy & Hsome).
        exists y. split; [exact Hy|].
        now rewrite lookup_delete_ne by congruence. }
    intros sid'. destruct (Hc sid') as [H1 H2]. split.
    + rewrite Hs. destruct (decide (sid' = sid)) as [->|Hne].
      * rewrite lookup_delete_eq. split; [intros [? [=]]|].
        intros [q H]. apply Hatt in H as [_ H]. contradiction.
      * rewrite lookup_delete_ne, H1 by congruence.
        split; intros [q H]; exists q.
        -- apply Hatt. auto.
        -- now apply Hatt in H as [H _].
    + intros a b Ha Hb. apply Hatt in Ha as [Ha _], Hb as [Hb _]. auto.
  - intros src.
    pose proof (cleanupSource_tables src s) as [Hs Hh]. cbv zeta in Hs, Hh.
    apply (consistent_ext s); auto. intros sid q.
    destruct Hh as [Hh|Hh].
    + now apply attached_same_heap.
    + now apply (attached_cancel s _ sid q src).
Qed.

Lemma one_spectator_tables :
  sessions service_one_spectator = {[ "spy-0" := spectator0 ]} /\
  heap service_one_spectator = {[ 0 := source0 ]} /\
  sources service_one_spectator = {[ "call-X" := 0 ]} /\
  Sessions source0 = {[ "spy-0" := spectator0 ]}.
Proof. vm_compute. repeat split; reflexivity. Qed.

Lemma one_spectator_attached sid source :
  attached service_one_spectator sid source <->
  source = 0 /\ sid = "spy-0".
Proof.
  destruct one_spectator_tables as (_ & Hh & _ & Hs).
  unfold attached. rewrite Hh. split.
  - intros (x & Hx & Hsome).
    apply lookup_singleton_Some in Hx as [<- <-]. split; [reflexivity|].
    rewrite Hs in Hsome. destruct Hsome as [y Hy].
    now apply lookup_singleton_Some in Hy as [<- _].
  - intros [-> ->]. exists source0. rewrite lookup_singleton_eq.
    split; [reflexivity|]. rewrite Hs, lookup_singleton_eq. eauto.
Qed.

Lemma one_spectator_registered sid :
  is_Some (sessions service_one_spectator !! sid) <-> sid = "spy-0".
Proof.
  destruct one_spectator_tables as (Hse & _). rewrite Hse. split.
  - intros [y Hy]. now apply lookup_singleton_Some in Hy as [<- _].
  - intros ->. rewrite lookup_singleton_eq. eauto.
Qed.

Lemma consistent_one_spectator : consistent service_one_spectator.
Proof.
  intros sid. split.
  - split.
    + intros Hsome. apply one_spectator_registered in Hsome as ->.
      exists 0. now apply one_spectator_attached.
    + intros [q H]. apply one_spectator_registered.
      now apply one_spectator_attached in H.
  - intros a b Ha Hb. apply one_spectator_attached in Ha as [-> _].
    apply one_spectator_attached in Hb as [-> _]. reflexivity.
Qed.

Lemma bilateral_one_spectator : bilateral service_one_spectator.
Proof.
  intros sid. split.
  - intros Hsome. apply one_spectator_registered in Hsome. subst sid.
    exists 0. split.
    + split.
      * exists "call-X".
        destruct one_spectator_tables as (_ & _ & Hso & _).
        rewrite Hso. apply lookup_singleton_eq.
      * apply one_spectator_attached. split; reflexivity.
    + intros q [_ H]. apply one_spectator_attached in H. apply H.
  - intros (q & [_ H] & _). apply one_spectator_registered.
    apply one_spectator_attached in H. apply H.
Qed.

Lemma session_tables_consistent_witness :
  consistent (state_of (createSession env_ok 0 service_one_spectator)) /\
  consistent (state_of (cleanupSession "spy-0" 0 service_one_spectator)) /\
  consistent (state_of (cleanupSource 0 service_one_spectator)).
Proof.
  destruct (session_tables_consistent env_ok service_one_spectator
              consistent_one_spectator) as (H1 & H2 & H3).
  split; [|split].
  - apply H1.
    + exists source0; vm_compute; reflexivity.
    + vm_compute; reflexivity.
  - apply H2. intros q H. apply one_spectator_attached in H. apply H.
  - apply H3.
Defined.

(* cleanupSource takes the Source out of s.sources and leaves its
   spectator in s.sessions: the session is then in no Source reachable
   from s.sources. *)
Lemma cleanupSource_breaks_bilateral : ~ bilateral_preserved env_ok.
Proof.
  intros (_ & _ & H).
  specialize (H 0 service_one_spectator bilateral_one_spectator).
  destruct (proj1 (H "spy-0")) as (q & [[c Hc] _] & _).
  - vm_compute; eauto.
  - assert (Hempty : sources (state_of (cleanupSource 0 service_one_spectator)) = ∅)
      by (vm_compute; reflexivity).
    rewrite Hempty, lookup_empty in Hc. discriminate Hc.
Qed.

(* ===================================================================== *)
(* The fan-out reader                                                    *)
(* ===================================================================== *)

Section FanoutFacts.
Variable rangeSessions : gmap string Session -> list (string * Session).
Variable leg : Leg.
Hypothesis range_all : forall m, rangeSessions m ≡ₚ map_to_list m.


Lemma fan_run_snoc st tr e : fan_run rangeSessions leg st (tr ++ [e]) = fan_step rangeSessions leg (fan_run rangeSessions leg st tr) e.
Proof. unfold fan_run. now rewrite fold_left_app. Qed.

Lemma snapshot_of_In m t :
  In t (snapshot_of rangeSessions leg m) <->
  exists sid sess, m !! sid = Some sess /\ t = track_of leg sess.
Proof.
  unfold snapshot_of. rewrite List.in_map_iff. split.
  - intros ([sid sess] & <- & Hin). exists sid, sess. split; [|reflexivity].
    apply list_elem_of_In in Hin. rewrite range_all in Hin.
    now apply elem_of_map_to_list in Hin.
  - intros (sid & sess & Hl & ->). exists (sid, sess). split; [reflexivity|].
    apply list_elem_of_In. rewrite range_all. now apply elem_of_map_to_list.
Qed.

Lemma tracks_attached_snoc x tr e :
  tracks_attached rangeSessions leg x (tr ++ [e]) =
  tracks_attached rangeSessions leg x tr ++
  match e with EvJoin sess => [track_of leg sess] | _ => [] end.
Proof.
  unfold tracks_attached. rewrite List.flat_map_app. cbn.
  now rewrite List.app_nil_r, List.app_assoc.
Qed.

Lemma tracks_attached_mono x tr e t :
  In t (tracks_attached rangeSessions leg x tr) -> In t (tracks_attached rangeSessions leg x (tr ++ [e])).
Proof.
  intros H. rewrite tracks_attached_snoc. apply List.in_or_app. now left.
Qed.

Lemma fan_inv_run x tr :
  fan_inv rangeSessions leg x tr
    (fan_run rangeSessions leg (fanout_start x) tr).
Proof.
  induction tr as [|e tr IH] using rev_ind.
  - cbn. repeat split.
    + intros t n [].
    + intros t [].
    + intros sid sess H. unfold tracks_attached. cbn.
      rewrite List.app_nil_r. apply snapshot_of_In. eauto.
  - rewrite fan_run_snoc. set (st := fan_run rangeSessions leg (fanout_start x) tr) in *.
    destruct IH as (I1 & I2 & I3). clearbody st.
    assert (M := fun t => tracks_attached_mono x tr e t).
    destruct e; unfold fan_inv, on_source; cbn.
    + (* Join *)
      repeat split; auto. intros sid s' H.
      rewrite tracks_attached_snoc.
      destruct (decide (sid = ID sess)) as [->|Hne].
      * rewrite lookup_insert_eq in H. inversion H; subst s'.
        apply List.in_or_app. right. now left.
      * rewrite lookup_insert_ne in H by congruence.
        apply List.in_or_app. left. eauto.
    + (* Leave *)
      repeat split; auto. intros sid s' H.
      destruct (decide (sid = sessionID)) as [->|Hne].
      * rewrite lookup_delete_eq in H. discriminate.
      * rewrite lookup_delete_ne in H by congruence. eauto.
    + (* Cancel *)
      repeat split; eauto.
    + (* LoopHead *)
      destruct (returned_ st || inReadRTP st); [repeat split; eauto|].
      destruct (cancelled (fanSource st)); cbn; [repeat split; eauto|].
      repeat split; eauto.
      intros t Ht. unfold refresh in Ht.
      destruct (decide (size (Sessions (fanSource st))
                        <> lastSessionCount (fanReader st))); cbn in Ht.
      * apply snapshot_of_In in Ht as (sid & sess & Hl & ->). eauto.
      * eauto.
    + (* Packet *)
      destruct (returned_ st || negb (inReadRTP st)); [repeat split; eauto|].
      cbn. repeat split; eauto.
      intros t n Hin. apply List.in_app_or in Hin as [Hin|Hin].
      * apply I1 in Hin. lia.
      * unfold forward in Hin. apply List.in_map_iff in Hin as (t' & [= <- <-] & _).
        lia.
    + (* ReadError *)
      destruct (returned_ st || negb (inReadRTP st)); repeat split; eauto.
Qed.

(* Later events only add writes of later packets. *)
Lemma fan_run_later st tr t n :
  In (t, n) (written (fan_run rangeSessions leg st tr)) ->
  In (t, n) (written st) \/ dequeued st <= n.
Proof.
  revert st. induction tr as [|e tr IH]; intros st H; [now left|].
  cbn in H. apply IH in H.
  destruct e; cbn in H; auto.
  - destruct (returned_ st || inReadRTP st); [auto|].
    destruct (cancelled (fanSource st)); cbn in H; auto.
  - destruct (returned_ st || negb (inReadRTP st)); [auto|]. cbn in H.
    destruct H as [H|H]; [|right; lia].
    apply List.in_app_or in H as [H|H]; [now left|].
    unfold forward in H. apply List.in_map_iff in H as (t' & [= <- <-] & _).
    now right.
  - destruct (returned_ st || negb (inReadRTP st)); auto.
Qed.

End FanoutFacts.



(* A spectator who joins while the reader waits in ReadRTP does not get
   the packet that ends the wait; it gets the next one. *)
Example fanout_join_during_read :
  written (fan_run map_to_list LegFrom (fanout_start source_with_A)
             [EvLoopHead; EvJoin spectatorB; EvPacket; EvLoopHead; EvPacket])
  = [(10, 0); (10, 1); (12, 1)].
Proof. vm_compute. reflexivity. Qed.

(* The snapshot is kept while the size of source.Sessions is the same:
   when one spectator leaves and another joins between two iterations,
   the reader goes on writing to the track of the one who left. *)
Example fanout_same_size_keeps_snapshot :
  written (fan_run map_to_list LegFrom (fanout_start source_with_A)
             [EvLoopHead; EvPacket; EvLeave "spy-A"; EvJoin spectatorB;
              EvLoopHead; EvPacket])
  = [(10, 0); (10, 1)].
Proof. vm_compute. reflexivity. Qed.

(* ---- Concurrent requests for one call ---- *)

Lemma subscribes_app s s' extra :
  engineLog s' = engineLog s ++ extra ->
  subscribes s' = subscribes s ++ List.filter is_subscribe extra.
Proof. unfold subscribes. intros ->. apply List.filter_app. Qed.

(* Settling the tags always returns; it may query the engine and changes
   nothing else. *)
Lemma resolveTags_spec env callID fromTag toTag s :
  exists r s',
    resolveTags env callID fromTag toTag s = Done r s' /\
    heap s' = heap s /\ sources s' = sources s /\
    sessions s' = sessions s /\ sourcesMu s' = sourcesMu s /\
    nextUUID s' = nextUUID s /\
    subscribes s' = subscribes s /\
    (healthy env -> exists f t, r = Ok (f, t)).
Proof.
  unfold resolveTags.
  destruct (String.eqb fromTag "" || String.eqb toTag "").
  - unfold detectTags. munfold. cbn.
    destruct (detectTags_of (rangeTags env)
                (engine env (engineLog s) (ReqQueryCall callID)))
      as [[f t]|e] eqn:Hd; cbn;
      do 2 eexists; (split; [reflexivity|]); cbn; repeat split; auto.
    + unfold subscribes. cbn. rewrite List.filter_app. cbn.
      apply app_nil_r.
    + eauto.
    + unfold subscribes. cbn. rewrite List.filter_app. cbn.
      apply app_nil_r.
    + intros (_ & _ & _ & Hq). destruct (Hq (engineLog s) callID) as (f & t & H).
      rewrite H in Hd. discriminate.
  - do 2 eexists. split; [reflexivity|]. repeat split; eauto.
Qed.

Lemma bind_assoc_M {A B C} (m : M A) (k : A -> M B) (k' : B -> M C) s :
  ((m ≫= k) ≫= k') s = (m ≫= (fun a => k a ≫= k')) s.
Proof. unfold mbind, M_bind. destruct (m s); reflexivity. Qed.

(* A request moved on its own goes through StartSpySession. *)
Lemma request_run_alone env callID fromTag toTag s :
  outcome_of (request_run env callID 7 (AtStart fromTag toTag) s)
  = Some (StartSpySession env callID fromTag toTag s).
Proof.
  unfold StartSpySession.
  destruct (resolveTags_spec env callID fromTag toTag s)
    as (r & s1 & Hres & _).
  rewrite (bind_Done _ _ _ _ _ Hres).
  cbn [request_run request_step]. rewrite Hres.
  destruct r as [[f t]|e]; [|reflexivity].
  unfold spyWithTags. cbn [request_run request_step].
  unfold sourcesMu_Lock at 1.
  destruct (sourcesMu s1) eqn:Hmu.
  { rewrite (bind_Blocked _ _ s1 s1)
      by (unfold sourcesMu_Lock; now rewrite Hmu).
    reflexivity. }
  rewrite (bind_Done _ _ s1 tt (set_sourcesMu true s1))
    by (unfold sourcesMu_Lock; now rewrite Hmu).
  cbn [request_run request_step].
  destruct (getOrCreateSource env callID f t (set_sourcesMu true s1))
    as [r s2|s2] eqn:Hg.
  2:{ rewrite (bind_Blocked _ _ _ _ Hg). reflexivity. }
  rewrite (bind_Done _ _ _ _ _ Hg).
  erewrite bind_Done by reflexivity.
  cbn [request_run request_step].
  destruct r as [src|e]; [|reflexivity].
  cbn [request_run request_step].
  unfold createSession. rewrite bind_assoc_M.
  destruct (buildSession_spec env (set_sourcesMu false s2))
    as (r & s3 & Hb & _).
  rewrite !(bind_Done _ _ _ _ _ Hb).
  destruct r as [sess|e]; [|reflexivity].
  rewrite bind_assoc_M.
  erewrite !(bind_Done (registerInService sess)) by reflexivity.
  cbn [mret M_ret request_run request_step].
  rewrite bind_assoc_M.
  unfold registerInSource, update_source, modify.
  erewrite !bind_Done by reflexivity.
  cbn [request_run request_step].
  destruct (offerSession_spec env src sess
              (set_heap (alter (with_Sessions <[ID sess:=sess]>) src)
                 (set_sessionCounter (fun n => (n + 1)%Z)
                    (set_sessions <[ID sess:=sess]> s3))))
    as (r & Ho & _).
  rewrite Ho. rewrite (bind_Done _ _ _ _ _ Ho).
  destruct r as [[sid sdp]|e]; reflexivity.
Qed.

Section Healthy.
Variable env : Env.
Hypothesis Hhealthy : healthy env.

Lemma setupBackendSubscription_healthy callID tag src leg s :
  exists subTag s',
    setupBackendSubscription env callID tag src leg s
    = Done (Ok (nextPC s, subTag)) s'.
Proof.
  destruct Hhealthy as (Hrtc & Hsub & Hans & _).
  unfold setupBackendSubscription. munfold. rewrite Hrtc.
  cbn -[rewriteAnswerSDP].
  destruct (Hsub (engineLog s) callID tag) as (resp & sdp & -> & Hsdp & Hne).
  cbn -[rewriteAnswerSDP]. rewrite Hsdp. cbn -[rewriteAnswerSDP].
  apply String.eqb_neq in Hne. rewrite Hne. rewrite !Hrtc.
  cbn -[rewriteAnswerSDP].
  match goal with
  | |- context [engine env ?l (ReqSubscribeAnswer ?c ?d ?t)] =>
      destruct (Hans l c d t) as (resp' & ->)
  end.
  cbn -[rewriteAnswerSDP]. eauto.
Qed.

Lemma createSource_healthy callID fromTag toTag s :
  exists s',
    createSource env callID fromTag toTag s = Done (Ok (nextSource s)) s'.
Proof.
  unfold createSource. unfold mbind at 1, M_bind at 1. unfold NewSource.
  set (s0 := bump_nextSource _).
  destruct (setupBackendSubscription_healthy callID fromTag (nextSource s)
              LegFrom s0) as (sub1 & s1 & H1).
  rewrite (bind_Done _ _ _ _ _ H1).
  erewrite bind_Done by reflexivity.
  set (s2 := set_heap _ s1).
  destruct (setupBackendSubscription_healthy callID toTag (nextSource s)
              LegTo s2) as (sub2 & s3 & H2).
  rewrite (bind_Done _ _ _ _ _ H2).
  erewrite bind_Done by reflexivity. cbn. eauto.
Qed.

Lemma buildSession_healthy s :
  exists sess s', buildSession env s = Done (Ok sess) s'.
Proof.
  destruct Hhealthy as (Hrtc & _).
  unfold buildSession. munfold. rewrite !Hrtc. cbn. rewrite ?Hrtc. cbn.
  eauto.
Qed.

Lemma offerSession_healthy src sess s :
  offerSession env src sess s =
  Done (Ok (ID sess, localSDP env (PC sess)))
       (set_pcs (alter (pc_with_handler (OnSessionState (ID sess) src))
                       (PC sess)) s).
Proof.
  destruct Hhealthy as (Hrtc & _).
  unfold offerSession. munfold. cbn. rewrite !Hrtc. reflexivity.
Qed.

End Healthy.

Section SingleFlight.
Variable env : Env.
Variable callID : string.
Variable s0 : Service.
Hypothesis Hhealthy : healthy env.
Hypothesis Huuid : forall j k, uuid env j = uuid env k -> j = k.

Lemma pool_insert_lookup (pool : list request_state) i j st st' b :
  pool !! i = Some st -> <[ i := st' ]> pool !! j = Some b ->
  (j = i /\ b = st') \/ (j <> i /\ pool !! j = Some b).
Proof.
  intros Hi Hj. destruct (decide (i = j)) as [->|Hne].
  - rewrite list_lookup_insert_eq in Hj by (eapply lookup_lt_Some; eauto).
    left. split; congruence.
  - rewrite list_lookup_insert_ne in Hj by exact Hne. right. auto.
Qed.

Lemma grows_refl s s' :
  sources s' = sources s -> heap s' = heap s -> grows callID s s'.
Proof. intros Hs Hh src H. rewrite Hs, Hh. eauto. Qed.

Lemma joined_grows s s' sid :
  grows callID s s' -> joined s callID sid -> joined s' callID sid.
Proof.
  intros Hg (src & x & Hs & Hx & Hsome).
  destruct (Hg src Hs) as (Hs' & Hh).
  destruct (Hh x Hx) as (x' & Hx' & Hsub).
  exists src, x'. auto.
Qed.

Lemma request_ok_grows s s' st :
  grows callID s s' -> request_ok callID s st -> request_ok callID s' st.
Proof.
  intros Hg. destruct st; cbn; auto.
  - intros (src & -> & Hs). exists src. split; [reflexivity|].
    now apply Hg.
  - intros Hs. now apply Hg.
  - intros Hs. now apply Hg.
  - now apply joined_grows.
  - intros (sid & sdp & f & t & -> & Hj). do 4 eexists.
    split; [reflexivity|]. now apply (joined_grows s).
Qed.

Lemma mutex_ok_update pool s i st st' s' :
  mutex_ok pool s -> pool !! i = Some st ->
  (holds_mutex st = holds_mutex st' /\ sourcesMu s' = sourcesMu s) \/
  (holds_mutex st = false /\ holds_mutex st' = true /\
   sourcesMu s = false /\ sourcesMu s' = true) \/
  (holds_mutex st = true /\ holds_mutex st' = false /\
   sourcesMu s' = false) ->
  mutex_ok (<[ i := st' ]> pool) s'.
Proof.
  intros [Huniq Hheld] Hi Hcase.
  assert (Hlen : i < length pool) by (eapply lookup_lt_Some; eauto).
  split.
  - intros j k a b Hj Hk Ha Hb.
    destruct (pool_insert_lookup _ _ _ _ _ _ Hi Hj) as [[-> ->]|[Hji Hj']];
      destruct (pool_insert_lookup _ _ _ _ _ _ Hi Hk) as [[-> ->]|[Hki Hk']];
      auto.
    + (* the moved request holds the mutex, and so does another *)
      exfalso. destruct Hcase as [[E _]|[(_ & _ & Hfree & _)|(_ & E & _)]].
      * apply Hki. apply (Huniq k i b st); auto. congruence.
      * assert (H : sourcesMu s = true) by (apply Hheld; eauto).
        congruence.
      * congruence.
    + exfalso. destruct Hcase as [[E _]|[(_ & _ & Hfree & _)|(_ & E & _)]].
      * apply Hji. apply (Huniq j i a st); auto. congruence.
      * assert (H : sourcesMu s = true) by (apply Hheld; eauto).
        congruence.
      * congruence.
    + now apply (Huniq j k a b).
  - destruct Hcase as [[E Hmu]|[(E1 & E2 & Hfree & Hmu)|(E1 & E2 & Hmu)]].
    + rewrite Hmu, Hheld. split.
      * intros (j & a & Hj & Ha). destruct (decide (j = i)) as [->|Hne].
        -- exists i, st'. rewrite list_lookup_insert_eq by exact Hlen.
           split; [reflexivity|]. rewrite Hi in Hj. inversion Hj; subst a.
           congruence.
        -- exists j, a. now rewrite list_lookup_insert_ne by congruence.
      * intros (j & a & Hj & Ha).
        destruct (pool_insert_lookup _ _ _ _ _ _ Hi Hj) as [[-> ->]|[Hji Hj']].
        -- exists i, st. split; [exact Hi|congruence].
        -- eauto.
    + rewrite Hmu. split; [|reflexivity]. intros _.
      exists i, st'. now rewrite list_lookup_insert_eq by exact Hlen.
    + rewrite Hmu. split; [discriminate|].
      intros (j & a & Hj & Ha). exfalso.
      destruct (pool_insert_lookup _ _ _ _ _ _ Hi Hj) as [[-> ->]|[Hji Hj']].
      * congruence.
      * apply Hji. now apply (Huniq j i a st).
Qed.

Lemma ids_ok_update pool s i st st' s' :
  ids_ok env pool s -> pool !! i = Some st ->
  nextUUID s <= nextUUID s' ->
  (drawn st' = drawn st \/
   drawn st = None /\ drawn st' = Some (uuid env (nextUUID s)) /\
   nextUUID s' = S (nextUUID s)) ->
  ids_ok env (<[ i := st' ]> pool) s'.
Proof.
  intros [Hk Huniq] Hi Hle Hcase. split.
  - intros j a sid Hj Hd.
    destruct (pool_insert_lookup _ _ _ _ _ _ Hi Hj) as [[-> ->]|[Hji Hj']].
    + destruct Hcase as [E|(_ & E & Hn)].
      * rewrite E in Hd. destruct (Hk i st sid Hi Hd) as (k & Hlt & ->).
        exists k. split; [lia|reflexivity].
      * rewrite E in Hd. inversion Hd; subst sid.
        exists (nextUUID s). split; [lia|reflexivity].
    + destruct (Hk j a sid Hj' Hd) as (k & Hlt & ->).
      exists k. split; [lia|reflexivity].
  - intros j k a b sid Hj Hk' Ha Hb.
    destruct (pool_insert_lookup _ _ _ _ _ _ Hi Hj) as [[-> ->]|[Hji Hj']];
      destruct (pool_insert_lookup _ _ _ _ _ _ Hi Hk') as [[-> ->]|[Hki Hk'']];
      auto.
    + destruct Hcase as [E|(_ & E & Hn)].
      * rewrite E in Ha. symmetry. now apply (Huniq k i b st sid).
      * exfalso. rewrite E in Ha. inversion Ha; subst sid.
        destruct (Hk k b _ Hk'' Hb) as (n & Hlt & Heq).
        apply Huuid in Heq. lia.
    + destruct Hcase as [E|(_ & E & Hn)].
      * rewrite E in Hb. now apply (Huniq j i a st sid).
      * exfalso. rewrite E in Hb. inversion Hb; subst sid.
        destruct (Hk j a _ Hj' Ha) as (n & Hlt & Heq).
        apply Huuid in Heq. lia.
    + now apply (Huniq j k a b sid).
Qed.

Lemma table_ok_same s s' :
  sources s' = sources s -> heap s' = heap s -> subscribes s' = subscribes s ->
  table_ok callID s0 s -> table_ok callID s0 s'.
Proof. unfold table_ok. now intros -> -> ->. Qed.

Lemma getOrCreateSource_step fromTag toTag s :
  sourcesMu s = true -> table_ok callID s0 s ->
  exists source s',
    getOrCreateSource env callID fromTag toTag s = Done (Ok source) s' /\
    sources s' !! callID = Some source /\ table_ok callID s0 s' /\
    grows callID s s' /\ sourcesMu s' = true /\ nextUUID s' = nextUUID s.
Proof.
  intros Hmu Htab.
  pose proof (getOrCreateSource_spec env callID fromTag toTag s Hmu) as Hspec.
  cbv zeta in Hspec.
  destruct Hspec as (_ & _ & Hmu' & Hu & _ & _ & extra & Hlog & _ & Hcase).
  unfold table_ok in Htab.
  destruct (sources s !! callID) as [src|] eqn:Hs.
  - destruct Hcase as [Ho _]. exists src, s. rewrite Ho.
    repeat split; auto.
    + unfold table_ok. rewrite Hs. exact Htab.
    + intros p Hp. eauto.
  - assert (Hok : exists s', getOrCreateSource env callID fromTag toTag s
                             = Done (Ok (nextSource s)) s').
    { unfold getOrCreateSource. erewrite bind_Done by reflexivity.
      rewrite Hs.
      destruct (createSource_healthy env Hhealthy callID fromTag toTag s)
        as (s1 & H1).
      rewrite (bind_Done _ _ _ _ _ H1). cbn. eauto. }
    destruct Hok as (s' & Ho). rewrite Ho in *. cbn [state_of] in *.
    destruct Hcase as (_ & Hso & (sf & st & df & dt & -> & Hhp) & _).
    exists (nextSource s), s'.
    split; [reflexivity|]. split; [|split; [|split; [|auto]]].
    + rewrite Hso. apply lookup_insert_eq.
    + unfold table_ok. rewrite Hso, lookup_insert_eq. split.
      * rewrite Hhp. eauto.
      * exists fromTag, toTag. rewrite (subscribes_app _ _ _ Hlog), Htab.
        reflexivity.
    + intros p Hp. congruence.
Qed.

Lemma createSession_step s :
  exists sess s',
    (r ← buildSession env;
     match r with
     | Ok sess => registerInService sess;; mret r
     | Err _ => mret r
     end) s = Done (Ok sess) s' /\
    ID sess = uuid env (nextUUID s) /\ nextUUID s' = S (nextUUID s) /\
    heap s' = heap s /\ sources s' = sources s /\
    sourcesMu s' = sourcesMu s /\ engineLog s' = engineLog s.
Proof.
  destruct (buildSession_healthy env Hhealthy s) as (sess & s1 & Hb).
  destruct (buildSession_spec env s) as (r & s1' & Hb' & Hh & Hs & _ & _ & Hmu
                                         & Hlog & _ & _ & _ & Hr).
  rewrite Hb in Hb'. inversion Hb'; subst r s1'. clear Hb'.
  destruct Hr as (Hid & _ & Hu & _).
  exists sess. eexists. rewrite (bind_Done _ _ _ _ _ Hb).
  split; [reflexivity|]. cbn. auto 10.
Qed.

(* One move of one request. *)
Lemma request_step_spec st s st' s' :
  request_step env callID st s = Some (st', s') ->
  request_ok callID s st -> table_ok callID s0 s ->
  (holds_mutex st = true -> sourcesMu s = true) ->
  grows callID s s' /\ request_ok callID s' st' /\ table_ok callID s0 s' /\
  ((holds_mutex st = holds_mutex st' /\ sourcesMu s' = sourcesMu s) \/
   (holds_mutex st = false /\ holds_mutex st' = true /\
    sourcesMu s = false /\ sourcesMu s' = true) \/
   (holds_mutex st = true /\ holds_mutex st' = false /\
    sourcesMu s' = false)) /\
  nextUUID s <= nextUUID s' /\
  (drawn st' = drawn st \/
   drawn st = None /\ drawn st' = Some (uuid env (nextUUID s)) /\
   nextUUID s' = S (nextUUID s)).
Proof.
  intros Hstep Hok Htab Hheld.
  destruct st as [f t|f t|f t|r f t|src f t|src sess f t|src sess f t|r|];
    cbn [request_step] in Hstep.
  - (* settling the tags *)
    destruct (resolveTags_spec env callID f t s)
      as (r & s1 & Hr & Hh & Hs & _ & Hmu & Hu & Hsub & Hgood).
    destruct (Hgood Hhealthy) as (f' & t' & ->). rewrite Hr in Hstep.
    inversion Hstep; subst st' s'. clear Hstep.
    split; [now apply grows_refl|]. split; [exact I|].
    split; [now apply (table_ok_same s)|].
    split; [left; split; [reflexivity|exact Hmu]|].
    split; [lia|left; reflexivity].
  - (* s.sourcesMu.Lock() *)
    unfold sourcesMu_Lock in Hstep.
    destruct (sourcesMu s) eqn:Hmu; [discriminate Hstep|].
    inversion Hstep; subst st' s'. clear Hstep.
    split; [now apply grows_refl|]. split; [exact I|].
    split; [now apply (table_ok_same s)|].
    split; [right; left; auto|].
    split; [cbn; lia|left; reflexivity].
  - (* the critical section *)
    destruct (getOrCreateSource_step f t s (Hheld eq_refl) Htab)
      as (src & s1 & Hg & Hs & Htab' & Hgrow & Hmu & Hu).
    rewrite Hg in Hstep. inversion Hstep; subst st' s'. clear Hstep.
    split; [exact Hgrow|]. split; [cbn; eauto|].
    split; [exact Htab'|].
    split; [left; split; [reflexivity|]; rewrite Hmu; symmetry; auto|].
    split; [lia|left; reflexivity].
  - (* s.sourcesMu.Unlock() *)
    destruct Hok as (src & -> & Hs).
    inversion Hstep; subst st' s'. clear Hstep.
    split; [now apply grows_refl|]. split; [exact Hs|].
    split; [now apply (table_ok_same s)|].
    split; [right; right; auto|].
    split; [cbn; lia|left; reflexivity].
  - (* the peer connection, the tracks and the id of the session *)
    destruct (createSession_step s)
      as (sess & s1 & Hc & Hid & Hu & Hh & Hs & Hmu & Hlog).
    rewrite Hc in Hstep. inversion Hstep; subst st' s'. clear Hstep.
    split; [now apply grows_refl|].
    split; [cbn; rewrite Hs; exact Hok|].
    split; [apply (table_ok_same s); auto; unfold subscribes; now rewrite Hlog|].
    split; [left; auto|].
    split; [lia|right; cbn; rewrite Hid; auto].
  - (* source.Sessions[sessionID] = sess *)
    cbn in Hok. unfold table_ok in Htab. rewrite Hok in Htab.
    destruct Htab as ([x Hx] & Hsubs).
    unfold registerInSource, update_source, modify in Hstep.
    inversion Hstep; subst st' s'. clear Hstep.
    split.
    { intros p Hp. cbn. split; [exact Hp|]. intros y Hy.
      rewrite Hok in Hp. inversion Hp; subst p.
      rewrite Hx in Hy. inversion Hy; subst y.
      exists (with_Sessions <[ ID sess := sess ]> x).
      rewrite lookup_alter_eq, Hx. split; [reflexivity|].
      intros sid. cbn. destruct (decide (ID sess = sid)) as [->|Hne].
      - rewrite lookup_insert_eq. eauto.
      - now rewrite lookup_insert_ne. }
    split.
    { exists src, (with_Sessions <[ ID sess := sess ]> x). cbn.
      rewrite lookup_alter_eq, Hx. repeat split; auto.
      cbn. rewrite lookup_insert_eq. eauto. }
    split.
    { unfold table_ok. cbn. rewrite Hok, lookup_alter_eq, Hx.
      split; [cbn; eauto|exact Hsubs]. }
    split; [left; auto|].
    split; [cbn; lia|left; reflexivity].
  - (* the handler and the offer *)
    rewrite (offerSession_healthy env Hhealthy) in Hstep.
    inversion Hstep; subst st' s'. clear Hstep.
    split; [now apply grows_refl|].
    split; [cbn; eauto 10|].
    split; [now apply (table_ok_same s)|].
    split; [left; auto|].
    split; [cbn; lia|left; reflexivity].
  - discriminate Hstep.
  - discriminate Hstep.
Qed.

Lemma sys_step_inv sys i :
  single_flight_inv env callID s0 sys ->
  single_flight_inv env callID s0 (sys_step env callID sys i) /\
  grows callID (snd sys) (snd (sys_step env callID sys i)) /\
  length (fst (sys_step env callID sys i)) = length (fst sys).
Proof.
  destruct sys as [pool s]. intros Hinv.
  pose proof Hinv as (Hreq & Hmut & Htab & Hids).
  cbn [fst snd] in *. unfold sys_step. cbn [fst snd].
  destruct (pool !! i) as [st|] eqn:Hi;
    [|split; [exact Hinv|split; [now apply grows_refl|reflexivity]]].
  destruct (request_step env callID st s) as [[st' s']|] eqn:Hstep;
    [|split; [exact Hinv|split; [now apply grows_refl|reflexivity]]].
  assert (Hheld : holds_mutex st = true -> sourcesMu s = true).
  { intros Hh. apply Hmut. eauto. }
  destruct (request_step_spec st s st' s' Hstep (Hreq i st Hi) Htab Hheld)
    as (Hgrow & Hok' & Htab' & Hmu & Hle & Hdrawn).
  cbn [fst snd]. split; [|split; [exact Hgrow|apply length_insert]].
  split; [|split; [|split]]; cbn [fst snd].
  - intros j b Hj.
    destruct (pool_insert_lookup _ _ _ _ _ _ Hi Hj) as [[-> ->]|[_ Hj']].
    + exact Hok'.
    + apply (request_ok_grows s); eauto.
  - now apply (mutex_ok_update pool s i st).
  - exact Htab'.
  - now apply (ids_ok_update pool s i st).
Qed.

Lemma grows_trans s1 s2 s3 :
  grows callID s1 s2 -> grows callID s2 s3 -> grows callID s1 s3.
Proof.
  intros H12 H23 src Hs. destruct (H12 src Hs) as (Hs2 & Hh2).
  destruct (H23 src Hs2) as (Hs3 & Hh3). split; [exact Hs3|].
  intros x Hx. destruct (Hh2 x Hx) as (x2 & Hx2 & Hsub2).
  destruct (Hh3 x2 Hx2) as (x3 & Hx3 & Hsub3). exists x3. auto.
Qed.

Lemma sys_run_inv schedule : forall sys,
  single_flight_inv env callID s0 sys ->
  single_flight_inv env callID s0 (sys_run env callID sys schedule) /\
  grows callID (snd sys) (snd (sys_run env callID sys schedule)) /\
  length (fst (sys_run env callID sys schedule)) = length (fst sys).
Proof.
  induction schedule as [|i rest IH]; intros sys Hinv.
  - split; [exact Hinv|]. split; [now apply grows_refl|reflexivity].
  - destruct (sys_step_inv sys i Hinv) as (H1 & Hg1 & Hl1).
    destruct (IH _ H1) as (H2 & Hg2 & Hl2). cbn [sys_run List.fold_left].
    split; [exact H2|]. split; [now apply (grows_trans _ _ _ Hg1)|].
    unfold sys_run in Hl2. congruence.
Qed.

Lemma single_flight_inv_start (tags : list (string * string)) :
  sourcesMu s0 = false -> sources s0 !! callID = None ->
  single_flight_inv env callID s0
    (List.map (fun p => AtStart (fst p) (snd p)) tags, s0).
Proof.
  intros Hmu Hs.
  assert (Hall : forall i st,
            List.map (fun p => AtStart (fst p) (snd p)) tags !! i = Some st ->
            exists f t, st = AtStart f t).
  { intros i st Hi. apply list_lookup_fmap_Some_1 in Hi.
    destruct Hi as (p & -> & _). eauto. }
  split; [|split; [|split]]; cbn [fst snd].
  - intros i st Hi. destruct (Hall i st Hi) as (f & t & ->). exact I.
  - split.
    + intros i j a b Hi _ Ha. destruct (Hall i a Hi) as (f & t & ->).
      discriminate Ha.
    + rewrite Hmu. split; [discriminate|].
      intros (i & a & Hi & Ha). destruct (Hall i a Hi) as (f & t & ->).
      discriminate Ha.
  - unfold table_ok. now rewrite Hs.
  - split.
    + intros i st sid Hi Hd. destruct (Hall i st Hi) as (f & t & ->).
      discriminate Hd.
    + intros i j a b sid Hi _ Ha. destruct (Hall i a Hi) as (f & t & ->).
      discriminate Ha.
Qed.

Lemma pending_insert (pool : list request_state) i st st' :
  pool !! i = Some st ->
  pending (<[ i := st' ]> pool) + moves_left st
  = pending pool + moves_left st'.
Proof.
  unfold pending. revert i.
  induction pool as [|a pool IH]; intros [|i] Hi; try discriminate Hi.
  - cbn in Hi. inversion Hi; subst a.
    change (<[ 0 := st' ]> (st :: pool)) with (st' :: pool).
    cbn [sum_list_with]. lia.
  - cbn in Hi. specialize (IH i Hi).
    change (<[ S i := st' ]> (a :: pool)) with (a :: <[ i := st' ]> pool).
    cbn [sum_list_with]. lia.
Qed.

Lemma pending_pos (pool : list request_state) :
  0 < pending pool ->
  exists i st, pool !! i = Some st /\ 0 < moves_left st.
Proof.
  unfold pending. induction pool as [|a pool IH]; cbn; [lia|].
  intros Hpos. destruct (moves_left a) as [|n] eqn:Ha.
  - destruct (IH Hpos) as (i & st & Hi & Hst). exists (S i), st. auto.
  - exists 0, a. split; [reflexivity|lia].
Qed.

(* A request that has not returned can move, unless it waits for the
   mutex. *)
Lemma request_step_progress st s :
  request_ok callID s st -> table_ok callID s0 s ->
  (holds_mutex st = true -> sourcesMu s = true) ->
  0 < moves_left st ->
  (forall f t, st = AtLock f t -> sourcesMu s = false) ->
  exists st' s',
    request_step env callID st s = Some (st', s') /\
    S (moves_left st') = moves_left st.
Proof.
  intros Hok Htab Hheld Hleft Hfree.
  destruct st as [f t|f t|f t|r f t|src f t|src sess f t|src sess f t|r|];
    cbn [request_step moves_left] in *; try lia.
  - destruct (resolveTags_spec env callID f t s)
      as (r & s1 & -> & _ & _ & _ & _ & _ & _ & Hgood).
    destruct (Hgood Hhealthy) as (f' & t' & ->). eauto.
  - unfold sourcesMu_Lock. rewrite (Hfree f t eq_refl). eauto.
  - destruct (getOrCreateSource_step f t s (Hheld eq_refl) Htab)
      as (src & s1 & -> & _). eauto.
  - destruct Hok as (src & -> & _). eauto.
  - destruct (createSession_step s) as (sess & s1 & -> & _). eauto.
  - unfold registerInSource, update_source, modify. eauto.
  - rewrite (offerSession_healthy env Hhealthy). eauto.
Qed.

Lemma sys_step_progress sys :
  single_flight_inv env callID s0 sys -> 0 < pending (fst sys) ->
  exists i, S (pending (fst (sys_step env callID sys i))) = pending (fst sys).
Proof.
  destruct sys as [pool s]. intros (Hreq & Hmut & Htab & _) Hpos.
  cbn [fst snd] in *.
  assert (Hmove : exists i st, pool !! i = Some st /\ 0 < moves_left st /\
                    (forall f t, st = AtLock f t -> sourcesMu s = false)).
  { destruct (sourcesMu s) eqn:Hmu.
    - destruct Hmut as [_ Hheld]. destruct (proj1 Hheld Hmu)
        as (i & st & Hi & Hst).
      exists i, st. split; [exact Hi|].
      destruct st; try discriminate Hst; cbn; split; try lia;
        intros ? ? Heq; discriminate Heq.
    - destruct (pending_pos pool Hpos) as (i & st & Hi & Hst).
      exists i, st. auto. }
  destruct Hmove as (i & st & Hi & Hleft & Hfree).
  assert (Hheld : holds_mutex st = true -> sourcesMu s = true).
  { intros Hh. apply Hmut. eauto. }
  destruct (request_step_progress st s (Hreq i st Hi) Htab Hheld Hleft Hfree)
    as (st' & s' & Hstep & Hdec).
  exists i. unfold sys_step. cbn [fst snd]. rewrite Hi, Hstep. cbn [fst].
  pose proof (pending_insert pool i st st' Hi). lia.
Qed.

(* From any instant the requests can all run to their return. *)
Lemma sys_can_finish n : forall sys,
  single_flight_inv env callID s0 sys -> pending (fst sys) = n ->
  exists more, pending (fst (sys_run env callID sys more)) = 0.
Proof.
  induction n as [|n IH]; intros sys Hinv Hn.
  - exists []. exact Hn.
  - destruct (sys_step_progress sys Hinv) as (i & Hi); [lia|].
    destruct (sys_step_inv sys i Hinv) as (Hinv' & _).
    destruct (IH _ Hinv') as (more & Hmore); [lia|].
    exists (i :: more). exact Hmore.
Qed.

Lemma all_returned (pool : list request_state) s :
  (forall i st, pool !! i = Some st -> request_ok callID s st) ->
  pending pool = 0 -> forallb has_returned pool = true.
Proof.
  intros Hreq Hz. apply forallb_forall. intros st Hin.
  apply list_elem_of_In, list_elem_of_lookup in Hin. destruct Hin as [i Hi].
  assert (Hle : moves_left st <= pending pool).
  { apply sum_list_with_in. apply list_elem_of_lookup. eauto. }
  specialize (Hreq i st Hi).
  destruct st; cbn in *; first [reflexivity | contradiction | lia].
Qed.

End SingleFlight.

Lemma healthy_env_ok : healthy env_ok.
Proof.
  split; [|split; [|split]].
  - reflexivity.
  - intros log c tag. exists (subscribe_reply tag), engine_offer.
    split; [reflexivity|]. split; [reflexivity|].
    intros H. vm_compute in H. discriminate H.
  - intros log c sdp t. exists result_ok. reflexivity.
  - intros log c. exists "tag-caller", "tag-callee". vm_compute. reflexivity.
Qed.

Lemma uuid_of_inj j k : uuid_of j = uuid_of k -> j = k.
Proof.
  unfold uuid_of. intros H.
  apply Unsigned.to_uint_inj.
  assert (Hs : Some (Nat.to_uint j) = Some (Nat.to_uint k)).
  { rewrite <- !NilEmpty.usu. f_equal.
    change (String.append "spy-" (NilEmpty.string_of_uint (Nat.to_uint j)))
      with (String "s" (String "p" (String "y" (String "-"
             (NilEmpty.string_of_uint (Nat.to_uint j)))))) in H.
    change (String.append "spy-" (NilEmpty.string_of_uint (Nat.to_uint k)))
      with (String "s" (String "p" (String "y" (String "-"
             (NilEmpty.string_of_uint (Nat.to_uint k)))))) in H.
    inversion H. reflexivity. }
  inversion Hs. reflexivity.
Qed.



Example three_requests_one_source :
  let now :=
    sys_run env_ok "call-X"
      (List.map (fun p => AtStart (fst p) (snd p)) three_requests, NewService)
      (round_robin 3 12) in
  subscribes (snd now)
  = [ReqSubscribe "call-X" "tag-caller"; ReqSubscribe "call-X" "tag-callee"] /\
  List.map drawn (fst now) = [Some "spy-0"; Some "spy-1"; Some "spy-2"] /\
  sources (snd now) = {[ "call-X" := 0 ]} /\
  (dom <$> (Sessions <$> heap (snd now) !! 0))
  = Some ({[ "spy-0"; "spy-1"; "spy-2" ]} : gset string).
Proof. vm_compute. repeat split. Qed.

(* ---- The client: cookie, response cookie, call list ---- *)

Section CookieFacts.

Lemma hex_digit_lower n : n < 16 -> is_lower_hex (hex_digit n) = true.
Proof.
  intros H. do 16 (destruct n as [|n]; [reflexivity|]). lia.
Qed.

Lemma hex_digit_inj m n : m < 16 -> n < 16 -> hex_digit m = hex_digit n -> m = n.
Proof.
  intros Hm Hn.
  do 16 (destruct m as [|m];
         [do 16 (destruct n as [|n]; [first [reflexivity|discriminate]|]); lia|]).
  lia.
Qed.

Lemma nat_of_ascii_lt b : nat_of_ascii b < 256.
Proof. apply nat_ascii_bounded. Qed.

Lemma hex_byte_lower b : forallb is_lower_hex (hex_byte b) = true.
Proof.
  pose proof (nat_of_ascii_lt b) as Hb. unfold hex_byte. cbn [forallb].
  rewrite !hex_digit_lower; [reflexivity| |].
  - apply Nat.mod_upper_bound. lia.
  - apply Nat.Div0.div_lt_upper_bound. lia.
Qed.

Lemma hex_byte_inj a b : hex_byte a = hex_byte b -> a = b.
Proof.
  pose proof (nat_of_ascii_lt a) as Ha. pose proof (nat_of_ascii_lt b) as Hb.
  unfold hex_byte.
  pose proof (Nat.div_mod_eq (nat_of_ascii a) 16) as Ea.
  pose proof (Nat.div_mod_eq (nat_of_ascii b) 16) as Eb.
  assert (Hha : nat_of_ascii a / 16 < 16)
    by (apply Nat.Div0.div_lt_upper_bound; lia).
  assert (Hhb : nat_of_ascii b / 16 < 16)
    by (apply Nat.Div0.div_lt_upper_bound; lia).
  assert (Hla : nat_of_ascii a mod 16 < 16)
    by (apply Nat.mod_upper_bound; lia).
  assert (Hlb : nat_of_ascii b mod 16 < 16)
    by (apply Nat.mod_upper_bound; lia).
  revert Ea Eb Hha Hhb Hla Hlb.
  generalize (nat_of_ascii a / 16) (nat_of_ascii a mod 16)
             (nat_of_ascii b / 16) (nat_of_ascii b mod 16).
  intros ha la hb lb Ea Eb Hha Hhb Hla Hlb H.
  injection H as Hhi Hlo.
  apply hex_digit_inj in Hhi; [|assumption|assumption].
  apply hex_digit_inj in Hlo; [|assumption|assumption].
  assert (E : nat_of_ascii a = nat_of_ascii b) by (subst; lia).
  rewrite <- (ascii_nat_embedding a), <- (ascii_nat_embedding b).
  now rewrite E.
Qed.

Lemma flat_map_hex_lower l :
  forallb is_lower_hex (List.flat_map hex_byte l) = true.
Proof.
  induction l as [|b l IH]; [reflexivity|].
  cbn [List.flat_map]. rewrite forallb_app, hex_byte_lower, IH. reflexivity.
Qed.

Lemma flat_map_hex_length l :
  List.length (List.flat_map hex_byte l) = 2 * List.length l.
Proof. induction l as [|b l IH]; cbn; lia. Qed.

Lemma hex_byte_app_inj a b r r' :
  hex_byte a ++ r = hex_byte b ++ r' -> hex_byte a = hex_byte b /\ r = r'.
Proof.
  unfold hex_byte.
  generalize (hex_digit (nat_of_ascii a / 16))
             (hex_digit (nat_of_ascii a mod 16))
             (hex_digit (nat_of_ascii b / 16))
             (hex_digit (nat_of_ascii b mod 16)).
  intros x1 x2 y1 y2 H. injection H as -> -> ->. auto.
Qed.

Lemma flat_map_hex_inj l l' :
  List.flat_map hex_byte l = List.flat_map hex_byte l' -> l = l'.
Proof.
  revert l'. induction l as [|a l IH]; intros [|b l'] H;
    try reflexivity; try discriminate H.
  cbn [List.flat_map] in H. apply hex_byte_app_inj in H as [Hab Hrest].
  f_equal; [now apply hex_byte_inj|now apply IH].
Qed.

Lemma is_lower_hex_not_space : is_lower_hex " "%char = false.
Proof. reflexivity. Qed.

End CookieFacts.

Lemma IndexByte_framed pre post c :
  ~ In c pre ->
  IndexByte (pre ++ c :: post) c = Z.of_nat (List.length pre).
Proof.
  induction pre as [|x pre IH]; intros Hn; cbn [app IndexByte List.length].
  - now rewrite Ascii.eqb_refl.
  - destruct (Ascii.eqb_spec x c) as [->|Hne];
      [exfalso; apply Hn; now left|].
    rewrite IH by (intros H; apply Hn; now right).
    destruct (Z.eqb_spec (Z.of_nat (List.length pre)) (-1)); lia.
Qed.

Lemma skipn_framed (pre post : list ascii) c :
  skipn (Z.to_nat (Z.of_nat (List.length pre) + 1)) (pre ++ c :: post) = post.
Proof.
  replace (Z.to_nat (Z.of_nat (List.length pre) + 1))
    with (List.length pre + 1)%nat by lia.
  induction pre as [|x pre IH]; [reflexivity|exact IH].
Qed.

(** X1: the cookie drawn by generateCookie is 16 lower-case hexadecimal
    digits, two for each of the 8 bytes drawn, and two cookies are equal
    only if the 8 bytes are. It holds no space, so in the datagram
    sendCommand writes (the cookie, a space, the marshalled arguments)
    the first space is the one after the cookie, at index 16. *)
Theorem generateCookie_frames_request (random body : list ascii) :
  let cookie := generateCookie random in
  let buf := GoStrings.bytes_of (String.append cookie " ") ++ body in
  String.length cookie = 16 /\
  forallb is_lower_hex (GoStrings.bytes_of cookie) = true /\
  (forall random',
     generateCookie random' = cookie ->
     firstn 8 (random' ++ repeat zero 8) = firstn 8 (random ++ repeat zero 8)) /\
  framed buf (GoStrings.bytes_of cookie) body /\
  IndexByte buf " "%char = 16%Z.
Proof.
  intros cookie buf. subst buf cookie. unfold generateCookie.
  set (b := firstn 8 (random ++ repeat zero 8)).
  assert (Hlen : List.length b = 8).
  { subst b. rewrite List.length_firstn, List.length_app, List.repeat_length.
    lia. }
  assert (Hlower : forallb is_lower_hex (List.flat_map hex_byte b) = true)
    by apply flat_map_hex_lower.
  assert (Hnospace : ~ In " "%char (List.flat_map hex_byte b)).
  { intros Hin. rewrite forallb_forall in Hlower.
    apply Hlower in Hin. discriminate Hin. }
  rewrite bytes_of_append, bytes_of_of_bytes.
  change (GoStrings.bytes_of " ") with [" "%char].
  rewrite <- app_assoc. cbn [app].
  split.
  { rewrite <- bytes_of_length, bytes_of_of_bytes, flat_map_hex_length. lia. }
  split; [exact Hlower|].
  split.
  { intros random' Heq.
    apply (f_equal GoStrings.bytes_of) in Heq.
    rewrite !bytes_of_of_bytes in Heq. now apply flat_map_hex_inj in Heq. }
  split; [split; [reflexivity|exact Hnospace]|].
  rewrite IndexByte_framed by exact Hnospace.
  rewrite flat_map_hex_length. lia.
Qed.

Lemma generateCookie_frames_request_witness :
  generateCookie (GoStrings.bytes_of "rtpengin") = "727470656e67696e" /\
  forall random',
    generateCookie random' = generateCookie (GoStrings.bytes_of "rtpengin") ->
    firstn 8 (random' ++ repeat zero 8) = GoStrings.bytes_of "rtpengin".
Proof.
  split; [reflexivity|].
  apply (generateCookie_frames_request (GoStrings.bytes_of "rtpengin") []).
Defined.

(** X2: sendCommand never compares the cookie of the response with the
    cookie it sent: two responses that differ only in what stands before
    the first space give the same result, whatever cookie the request
    carried. *)
Theorem sendCommand_reply_cookie_unchecked
    (Marshal : gmap string value -> result (list ascii))
    (Decode : list ascii -> result value)
    (cookie command : string) (args : gmap string value)
    (pre pre' post : list ascii) :
  ~ In " "%char pre -> ~ In " "%char pre' ->
  List.length (pre ++ " "%char :: post) <= respBuf_size ->
  List.length (pre' ++ " "%char :: post) <= respBuf_size ->
  sendCommand Marshal Decode (fun _ => Datagram (pre ++ " "%char :: post))
    cookie command args
  = sendCommand Marshal Decode (fun _ => Datagram (pre' ++ " "%char :: post))
      cookie command args.
Proof.
  intros Hpre Hpre' Hlen Hlen'. unfold sendCommand.
  destruct (Marshal (<[ "command" := VStr command ]> args)) as [body|e];
    [|reflexivity].
  cbv zeta.
  rewrite !List.firstn_all2 by assumption.
  rewrite !IndexByte_framed by assumption.
  rewrite !skipn_framed.
  destruct (Z.eqb_spec (Z.of_nat (List.length pre)) (-1)); [lia|].
  destruct (Z.eqb_spec (Z.of_nat (List.length pre')) (-1)); [lia|].
  reflexivity.
Qed.

Lemma sendCommand_reply_cookie_unchecked_witness :
  sendCommand Bencode.Marshal Bencode.Decode
    (fun _ => Datagram (GoStrings.bytes_of "5f2a d6:result2:oke"))
    "5f2a" "statistics" ∅
  = sendCommand Bencode.Marshal Bencode.Decode
      (fun _ => Datagram (GoStrings.bytes_of "0000 d6:result2:oke"))
      "5f2a" "statistics" ∅.
Proof.
  apply (sendCommand_reply_cookie_unchecked Bencode.Marshal Bencode.Decode
           "5f2a" "statistics" ∅
           (GoStrings.bytes_of "5f2a") (GoStrings.bytes_of "0000")
           (GoStrings.bytes_of "d6:result2:oke")).
  - apply IndexByte_absent. reflexivity.
  - apply IndexByte_absent. reflexivity.
  - unfold respBuf_size.
    cbn [List.length app GoStrings.bytes_of list_ascii_of_string]. lia.
  - unfold respBuf_size.
    cbn [List.length app GoStrings.bytes_of list_ascii_of_string]. lia.
Defined.

(** X3: ListCalls hands back the error of sendCommand as it is. From a
    response whose [calls] is a list it returns one string for each
    element, a string element as it is; from a response without [calls],
    or whose [calls] is not a list, it returns the empty list and no
    error. *)
Theorem ListCalls_result
    (Marshal : gmap string value -> result (list ascii))
    (Decode : list ascii -> result value)
    (network : list ascii -> udp_exchange)
    (Sprint_other : value -> string) (cookie : string) :
  let r := sendCommand Marshal Decode network cookie "list" ∅ in
  let calls := ListCalls Marshal Decode network Sprint_other cookie in
  (forall e, r = Err e -> calls = Err e) /\
  (forall resp ids,
     r = Ok resp -> resp !! "calls" = Some (strings ids) ->
     calls = Ok ids) /\
  (forall resp l,
     r = Ok resp -> resp !! "calls" = Some (VList l) ->
     exists out, calls = Ok out /\ List.length out = List.length l) /\
  (forall resp,
     r = Ok resp -> (forall l, resp !! "calls" <> Some (VList l)) ->
     calls = Ok []).
Proof.
  intros r calls. subst r calls. unfold ListCalls.
  destruct (sendCommand Marshal Decode network cookie "list" ∅)
    as [resp|e].
  - split; [intros e H; discriminate H|].
    split.
    { intros resp' ids H Hc. inversion H; subst resp'. rewrite Hc.
      unfold strings. f_equal. rewrite List.map_map. cbn [Sprint].
      apply List.map_id. }
    split.
    { intros resp' l H Hc. inversion H; subst resp'. rewrite Hc.
      eexists. split; [reflexivity|]. apply List.length_map. }
    intros resp' H Hc. inversion H; subst resp'.
    destruct (resp !! "calls") as [[| | |l|]|] eqn:E; try reflexivity.
    exfalso. now apply (Hc l).
  - split; [intros e' H; inversion H; reflexivity|].
    split; [intros resp ids H; discriminate H|].
    split; [intros resp l H; discriminate H|].
    intros resp H; discriminate H.
Qed.

Lemma ListCalls_result_witness :
  ListCalls Bencode.Marshal Bencode.Decode (engine_replies reply_two_calls)
    (fun _ => "") "5f2a"
  = Ok ["call1"; "call-22"].
Proof.
  destruct (ListCalls_result Bencode.Marshal Bencode.Decode
              (engine_replies reply_two_calls) (fun _ => "") "5f2a")
    as (_ & Hids & _).
  apply (Hids (<[ "calls" := strings ["call1"; "call-22"] ]> result_ok)).
  - vm_compute. reflexivity.
  - reflexivity.
Defined.

(* ---- Tag detection and fan-out, continued ---- *)

Lemma no_created_zero v : no_created v -> created_of v = 0%Z.
Proof.
  destruct v as [| | | |info]; cbn; try reflexivity.
  destruct (info !! "created") as [[| | | |]|]; cbn; tauto.
Qed.

(** X4: an entry of the tags map without a usable [created] (the entry is
    not a dictionary, or [created] is missing or is not a number) counts
    as created at 0: with at least two entries, when every other entry
    has a positive [created], detectTags returns that entry's tag as the
    from-tag. *)
Theorem detectTags_missing_created_first
    (rangeMap : gmap string value -> list (string * value))
    (details tagsMap : gmap string value) (t : string) (v : value) :
  rangeMap tagsMap ≡ₚ map_to_list tagsMap ->
  details !! "tags" = Some (VDict tagsMap) ->
  2 <= size tagsMap ->
  tagsMap !! t = Some v ->
  no_created v ->
  (forall t' v', tagsMap !! t' = Some v' -> t' <> t ->
                 (0 < created_of v')%Z) ->
  exists toTag,
    detectTags_of rangeMap (Ok details) = Ok (t, toTag) /\
    toTag <> t /\ is_Some (tagsMap !! toTag).
Proof.
  intros Hp Hd Hsz Ht Hv Hpos. unfold detectTags_of. rewrite Hd.
  cbn [as_dict].
  replace (size tagsMap <? 2)%nat with false
    by (symmetry; apply Nat.ltb_ge; lia).
  pose proof (sort_Slice_perm (collect_tagInfos rangeMap tagsMap)) as Hperm.
  pose proof (sort_Slice_sorted (collect_tagInfos rangeMap tagsMap)) as Hsort.
  pose proof (collect_tagInfos_tags rangeMap tagsMap Hp) as Hnd.
  pose proof (collect_tagInfos_length rangeMap tagsMap Hp) as Hlen.
  rewrite <- Hperm in Hnd.
  apply Permutation_length in Hperm as Hlen'.
  destruct (sort_Slice less (collect_tagInfos rangeMap tagsMap))
    as [|a [|b rest]] eqn:Hs; simpl in Hlen'; try lia.
  assert (Hin : forall c, entry_of tagsMap c <-> c ∈ a :: b :: rest).
  { intros c. rewrite <- collect_tagInfos_entry by exact Hp.
    now rewrite Hperm. }
  set (e := {| Tag := t; Created := 0 |}).
  assert (He : e ∈ a :: b :: rest).
  { apply Hin. exists v. split; [exact Ht|].
    cbn. symmetry. now apply no_created_zero. }
  assert (Hother : forall c, c ∈ a :: b :: rest -> Tag c <> t ->
                             (0 < Created c)%Z).
  { intros c Hc Hne. apply Hin in Hc as (v' & Hl & ->). eauto. }
  assert (Hsame : forall c, c ∈ a :: b :: rest -> Tag c = t -> c = e).
  { intros c Hc Heq. apply Hin in Hc as (v' & Hl & Hcr).
    rewrite Heq, Ht in Hl. inversion Hl; subst v'.
    destruct c as [tc cc]. cbn in *. subst tc.
    rewrite Hcr, (no_created_zero v Hv). reflexivity. }
  apply StronglySorted_inv in Hsort as [_ Hall_a].
  rewrite List.Forall_forall in Hall_a.
  assert (Ha : Tag a = t).
  { destruct (decide (Tag a = t)) as [E|Hne]; [exact E|exfalso].
    assert (Hpa : (0 < Created a)%Z) by (apply Hother; [left|exact Hne]).
    apply elem_of_cons in He as [He|He].
    - apply Hne. now rewrite <- He.
    - apply list_elem_of_In in He. specialize (Hall_a e He).
      unfold sorted_by, less in Hall_a.
      change (Created e) with 0%Z in Hall_a.
      destruct (Z.eqb_spec 0 (Created a)) as [E|_]; [lia|].
      apply Z.ltb_ge in Hall_a. lia. }
  exists (Tag b). rewrite Ha. split; [reflexivity|].
  simpl in Hnd. apply NoDup_cons in Hnd as [Hna _].
  split.
  - intros Hb. apply Hna. rewrite Ha, <- Hb. left.
  - assert (Hbin : entry_of tagsMap b) by (apply Hin; right; left).
    destruct Hbin as (vb & Hl & _). eauto.
Qed.

Lemma detectTags_missing_created_first_witness :
  exists toTag,
    detectTags_of map_to_list (Ok {[ "tags" := VDict tags_one_undated ]})
    = Ok ("undated", toTag) /\
    toTag <> "undated" /\ is_Some (tags_one_undated !! toTag).
Proof.
  apply (detectTags_missing_created_first map_to_list
           {[ "tags" := VDict tags_one_undated ]} tags_one_undated
           "undated" (VDict ∅)).
  - reflexivity.
  - reflexivity.
  - vm_compute. lia.
  - reflexivity.
  - exact I.
  - intros t' v' Hl Hne. unfold tags_one_undated in Hl.
    apply lookup_insert_Some in Hl as [[<- <-]|[_ Hl]]; [reflexivity|].
    apply lookup_insert_Some in Hl as [[<- <-]|[_ Hl]]; [reflexivity|].
    apply lookup_singleton_Some in Hl as [<- _]. contradiction.
Defined.

Section FanoutCancel.
Variable rangeSessions : gmap string Session -> list (string * Session).
Variable leg : Leg.

Lemma after_cancel_step st0 st e :
  after_cancel st0 st -> after_cancel st0 (fan_step rangeSessions leg st e).
Proof.
  intros (Hc & Hr & Hin & Hw).
  assert (Hsame : after_cancel st0 st)
    by exact (conj Hc (conj Hr (conj Hin Hw))).
  destruct e; cbn.
  - split; [exact Hc|]. split; [exact Hr|]. split; [exact Hin|exact Hw].
  - split; [exact Hc|]. split; [exact Hr|]. split; [exact Hin|exact Hw].
  - split; [reflexivity|]. split; [exact Hr|]. split; [exact Hin|exact Hw].
  - destruct (returned_ st) eqn:Hret; cbn; [exact Hsame|].
    destruct (inReadRTP st) eqn:Hrd; cbn; [exact Hsame|].
    rewrite Hc. split; [exact Hc|]. split; [exact Hr|]. cbn.
    split; [discriminate|exact Hw].
  - destruct (returned_ st) eqn:Hret; cbn; [exact Hsame|].
    destruct (inReadRTP st) eqn:Hrd; cbn; [|exact Hsame].
    destruct (Hin eq_refl eq_refl) as (H1 & H2 & H3 & H4).
    split; [exact Hc|]. split; [exact Hr|]. cbn. split; [discriminate|].
    right. rewrite H3, H4, Hr. auto.
  - destruct (returned_ st) eqn:Hret; cbn; [exact Hsame|].
    destruct (inReadRTP st) eqn:Hrd; cbn; [|exact Hsame].
    split; [exact Hc|]. split; [exact Hr|]. cbn. split; [discriminate|].
    exact Hw.
Qed.

Lemma after_cancel_run tr : forall st0 st,
  after_cancel st0 st -> after_cancel st0 (fan_run rangeSessions leg st tr).
Proof.
  induction tr as [|e tr IH]; intros st0 st H; [exact H|].
  cbn. apply IH. now apply after_cancel_step.
Qed.

End FanoutCancel.


(* A packet that arrives while the reader waits is forwarded after the
   cancellation; the next one is not. *)
Example fanout_one_packet_after_cancel :
  written (fan_run map_to_list LegFrom (fanout_start source_with_A)
             [EvLoopHead; EvCancel; EvPacket; EvLoopHead; EvPacket])
  = [(10, 0)].
Proof. vm_compute. reflexivity. Qed.

(* ---- The service: answers, the gauge, teardown ---- *)

(** X6: once cleanupSession has run for a session id, an answer for that id
    is refused with the session-not-found error and changes nothing,
    whatever the state before and whichever Source was named. *)
Theorem HandleSpyAnswer_after_cleanupSession
    (env : Env) (sessionID sdp : string) (source : srcid) (s : Service) :
  exists s',
    cleanupSession sessionID source s = Done tt s' /\
    HandleSpyAnswer env sessionID sdp s' =
      Done (Some (Errorf (String.append "session not found: " sessionID))) s'.
Proof.
  unfold cleanupSession, HandleSpyAnswer. munfold.
  destruct (decide (is_Some (sessions s !! sessionID))) as [H|H]; cbn.
  - eexists. split; [reflexivity|]. cbn. now rewrite lookup_delete_eq.
  - eexists. split; [reflexivity|]. cbn.
    apply eq_None_not_Some in H. now rewrite H.
Qed.

Section ServiceMore.
Variable env : Env.

Lemma resolveTags_explicit callID fromTag toTag s :
  fromTag <> "" -> toTag <> "" ->
  resolveTags env callID fromTag toTag s = Done (Ok (fromTag, toTag)) s.
Proof.
  intros Hf Ht. unfold resolveTags.
  apply String.eqb_neq in Hf, Ht. now rewrite Hf, Ht.
Qed.

(* Settling the tags leaves the state alone but for the query it may
   make. *)
Lemma resolveTags_state callID fromTag toTag s :
  exists r s',
    resolveTags env callID fromTag toTag s = Done r s' /\
    (s' = s \/ s' = set_engineLog (fun l => l ++ [ReqQueryCall callID]) s).
Proof.
  unfold resolveTags.
  destruct (String.eqb fromTag "" || String.eqb toTag "").
  - unfold detectTags. munfold. cbn.
    destruct (detectTags_of (rangeTags env)
                (engine env (engineLog s) (ReqQueryCall callID)))
      as [[f t]|e]; cbn; eauto.
  - eauto.
Qed.

(* createSession registers at most one session, under the uuid it
   draws, and counts it. *)
Lemma createSession_registers src s :
  exists r s',
    createSession env src s = Done r s' /\
    ((sessions s' = sessions s /\ sessionCounter s' = sessionCounter s) \/
     exists sess,
       sessions s' = <[ uuid env (nextUUID s) := sess ]> (sessions s) /\
       sessionCounter s' = (sessionCounter s + 1)%Z).
Proof.
  unfold createSession.
  destruct (buildSession_spec env s)
    as (r & s1 & Hb & Hh & Hso & Hse & Hc & Hmu & Hlog & Hns & Hnp & Hfr & Hr).
  unfold mbind at 1, M_bind at 1. rewrite Hb.
  destruct r as [sess|e].
  - destruct Hr as (Hid & _).
    destruct (offerSession_spec env src sess
                (set_heap (alter (with_Sessions <[ID sess:=sess]>) src)
                   (set_sessionCounter (fun n => (n + 1)%Z)
                      (set_sessions <[ID sess:=sess]> s1))))
      as (r & Ho & _).
    unfold registerInService, registerInSource. munfold.
    cbn -[offerSession]. rewrite Ho.
    do 2 eexists. split; [reflexivity|]. right. exists sess. cbn.
    now rewrite Hse, Hc, Hid.
  - cbn. do 2 eexists. split; [reflexivity|]. left. auto.
Qed.

Lemma gauge_ok_insert s s' sid sess :
  gauge_ok s -> sessions s !! sid = None ->
  sessions s' = <[ sid := sess ]> (sessions s) ->
  sessionCounter s' = (sessionCounter s + 1)%Z ->
  gauge_ok s'.
Proof.
  unfold gauge_ok. intros Hg Hfresh -> ->.
  rewrite map_size_insert_None by exact Hfresh. lia.
Qed.

Lemma gauge_ok_same s s' :
  gauge_ok s -> sessions s' = sessions s ->
  sessionCounter s' = sessionCounter s -> gauge_ok s'.
Proof. unfold gauge_ok. now intros Hg -> ->. Qed.

Lemma cleanupSession_gauge sid src s :
  gauge_ok s -> gauge_ok (state_of (cleanupSession sid src s)).
Proof.
  unfold gauge_ok, cleanupSession. munfold. cbn. intros Hg.
  destruct (decide (is_Some (sessions s !! sid))) as [[x Hx]|H]; cbn.
  - assert (Hsz : size (sessions s) = S (size (delete sid (sessions s)))).
    { rewrite <- (insert_delete_id (sessions s) sid x Hx) at 1.
      apply map_size_insert_None, lookup_delete_eq. }
    lia.
  - exact Hg.
Qed.

Lemma StartSpySession_gauge callID fromTag toTag s :
  gauge_ok s -> sessions s !! uuid env (nextUUID s) = None ->
  gauge_ok (state_of (StartSpySession env callID fromTag toTag s)).
Proof.
  intros Hg Hfresh.
  assert (Ho : exists o, StartSpySession env callID fromTag toTag s = o)
    by eauto.
  destruct Ho as [o Ho]. rewrite Ho. unfold StartSpySession in Ho.
  destruct (resolveTags_state callID fromTag toTag s)
    as (r & s0 & Hr & Hs0).
  rewrite (bind_Done _ _ _ _ _ Hr) in Ho.
  assert (Hg0 : gauge_ok s0 /\ sessions s0 = sessions s /\
                nextUUID s0 = nextUUID s).
  { destruct Hs0 as [-> | ->]; auto. }
  destruct Hg0 as (Hg0 & Hse0 & Hu0). clear Hr Hs0.
  destruct r as [[f t]|e]; [|subst o; exact Hg0].
  unfold spyWithTags in Ho.
  destruct (sourcesMu s0) eqn:Hmu.
  { erewrite bind_Blocked in Ho
      by (unfold sourcesMu_Lock; rewrite Hmu; reflexivity).
    subst o. exact Hg0. }
  erewrite bind_Done in Ho
    by (unfold sourcesMu_Lock; rewrite Hmu; reflexivity).
  pose proof (getOrCreateSource_spec env callID f t
                (set_sourcesMu true s0) eq_refl) as Hgs.
  cbv zeta in Hgs.
  destruct (getOrCreateSource env callID f t (set_sourcesMu true s0))
    as [r s1|s1] eqn:Hgo; cbn [state_of] in Hgs;
    destruct Hgs as (Hse & Hcn & _ & Hu & _); cbn in Hse, Hcn, Hu.
  2:{ rewrite (bind_Blocked _ _ _ _ Hgo) in Ho. subst o.
      now apply (gauge_ok_same s0). }
  rewrite (bind_Done _ _ _ _ _ Hgo) in Ho.
  erewrite bind_Done in Ho by reflexivity.
  destruct r as [src|e].
  2:{ subst o. now apply (gauge_ok_same s0). }
  destruct (createSession_registers src (set_sourcesMu false s1))
    as (r & s2 & Hc & Hcase).
  rewrite (bind_Done _ _ _ _ _ Hc) in Ho.
  assert (Hg2 : gauge_ok s2).
  { destruct Hcase as [[Hs2 Hc2]|(sess & Hs2 & Hc2)]; cbn in Hs2, Hc2.
    - apply (gauge_ok_same s0); congruence.
    - apply (gauge_ok_insert s0 s2 (uuid env (nextUUID s)) sess).
      + exact Hg0.
      + rewrite Hse0. exact Hfresh.
      + rewrite Hs2, Hu, Hu0, Hse. reflexivity.
      + rewrite Hc2, Hcn. reflexivity. }
  destruct r as [[sid sdp]|e]; subst o; exact Hg2.
Qed.

End ServiceMore.

(** X7: the gauge spy.sessions_active equals the number of entries of
    s.sessions, and StartSpySession (with a uuid not yet in use),
    HandleSpyAnswer, cleanupSession and cleanupSource keep it so, however
    they end. *)
Theorem sessionCounter_counts_sessions (env : Env) (s : Service) :
  gauge_ok s ->
  (forall callID fromTag toTag,
     sessions s !! uuid env (nextUUID s) = None ->
     gauge_ok (state_of (StartSpySession env callID fromTag toTag s))) /\
  (forall sessionID sdp,
     gauge_ok (state_of (HandleSpyAnswer env sessionID sdp s))) /\
  (forall sessionID source,
     gauge_ok (state_of (cleanupSession sessionID source s))) /\
  (forall source, gauge_ok (state_of (cleanupSource source s))).
Proof.
  intros Hg. split; [|split; [|split]].
  - intros. now apply StartSpySession_gauge.
  - intros sid sdp. unfold HandleSpyAnswer. munfold. cbn.
    destruct (sessions s !! sid) as [sess|]; cbn; [|exact Hg].
    destruct (rtcError env (PC sess) (CallSetRemoteDescription sdp));
      exact Hg.
  - intros. now apply cleanupSession_gauge.
  - intros source.
    destruct (cleanupSource_tables source s) as [Hse _].
    apply (gauge_ok_same s); [exact Hg|exact Hse|].
    unfold cleanupSource. munfold.
    destruct (sourcesMu s); cbn; [reflexivity|].
    destruct (heap s !! source) as [x|]; cbn; [|reflexivity].
    destruct (sources s !! CallID x); reflexivity.
Qed.

Lemma sessionCounter_counts_sessions_witness :
  gauge_ok service_one_spectator /\
  gauge_ok (state_of (StartSpySession env_ok "call-X" "" ""
                        service_one_spectator)).
Proof.
  assert (H : gauge_ok service_one_spectator) by (vm_compute; reflexivity).
  split; [exact H|].
  apply (proj1 (sessionCounter_counts_sessions env_ok service_one_spectator H)).
  vm_compute. reflexivity.
Defined.

(** X8: a request with both tags given, for a call that already has a
    Source, makes no request of the engine and never waits: the session
    is attached to the Source that is there, whatever tags that Source
    was subscribed with, and the tags handed back are the ones of the
    request. *)
Theorem StartSpySession_existing_source
    (env : Env) (callID fromTag toTag : string) (s : Service)
    (source : srcid) :
  fromTag <> "" -> toTag <> "" ->
  sourcesMu s = false ->
  sources s !! callID = Some source ->
  let o := StartSpySession env callID fromTag toTag s in
  let s' := state_of o in
  engineLog s' = engineLog s /\ sources s' = sources s /\
  sourcesMu s' = false /\
  exists r,
    returned o = Some r /\
    match r with
    | Ok (sid, sdp, f, t) =>
        f = fromTag /\ t = toTag /\ sid = uuid env (nextUUID s) /\
        exists sess,
          ID sess = sid /\
          sessions s' = <[ sid := sess ]> (sessions s) /\
          heap s' = alter (with_Sessions <[ sid := sess ]>) source (heap s)
    | Err e => exists e', e = ErrorfW "failed to create session" e'
    end.
Proof.
  intros Hf Ht Hmu Hsrc o s'. subst s'.
  assert (Ho : StartSpySession env callID fromTag toTag s = o) by reflexivity.
  clearbody o. unfold StartSpySession in Ho.
  rewrite (bind_Done _ _ _ _ _ (resolveTags_explicit env callID _ _ s Hf Ht))
    in Ho.
  unfold spyWithTags in Ho.
  erewrite bind_Done in Ho
    by (unfold sourcesMu_Lock; rewrite Hmu; reflexivity).
  assert (Hg : getOrCreateSource env callID fromTag toTag (set_sourcesMu true s)
               = Done (Ok source) (set_sourcesMu true s)).
  { unfold getOrCreateSource. erewrite bind_Done by reflexivity.
    cbn [sources set_sourcesMu]. now rewrite Hsrc. }
  rewrite (bind_Done _ _ _ _ _ Hg) in Ho.
  erewrite bind_Done in Ho by reflexivity.
  rewrite set_sourcesMu_twice in Ho.
  destruct (createSession_spec env source (set_sourcesMu false s))
    as (r & s2 & Hc & Hso2 & Hmu2 & Hlog2 & _ & Hcase).
  rewrite (bind_Done _ _ _ _ _ Hc) in Ho.
  cbn in Hso2, Hmu2, Hlog2.
  destruct Hcase as [([e He] & _)|(sess & Hid & _ & _ & Hse & Hh & _ & _ & Hr)].
  - subst r o. cbn. repeat split; auto. eexists. split; [reflexivity|].
    cbn. eauto.
  - cbn in Hid, Hse, Hh.
    destruct Hr as [->|(e & -> & _)]; subst o; cbn.
    + repeat split; auto. eexists. split; [reflexivity|]. cbn.
      repeat split; auto. exists sess. auto.
    + repeat split; auto. eexists. split; [reflexivity|]. cbn. eauto.
Qed.

Lemma StartSpySession_existing_source_witness :
  let o := StartSpySession env_ok "call-X" "alice" "bob"
             service_one_spectator in
  (FromTag <$> heap service_one_spectator !! 0) = Some "tag-caller" /\
  engineLog (state_of o) = engineLog service_one_spectator /\
  exists sid sdp, returned o = Some (Ok (sid, sdp, "alice", "bob")).
Proof.
  cbv zeta. split; [vm_compute; reflexivity|].
  destruct (StartSpySession_existing_source env_ok "call-X" "alice" "bob"
              service_one_spectator 0) as (Hlog & _).
  - discriminate.
  - discriminate.
  - vm_compute. reflexivity.
  - vm_compute. reflexivity.
  - split; [exact Hlog|]. vm_compute. eauto.
Defined.

(** X9: an id handed out by StartSpySession is known to HandleSpyAnswer:
    in the state StartSpySession leaves, the answer for that id reaches
    SetRemoteDescription of the session's peer connection, and the only
    error possible is that call's, wrapped. *)
Theorem StartSpySession_then_answer
    (env : Env) (callID fromTag toTag answer : string) (s s' : Service)
    (sid offer f t : string) :
  StartSpySession env callID fromTag toTag s
  = Done (Ok (sid, offer, f, t)) s' ->
  exists sess,
    sessions s' !! sid = Some sess /\ ID sess = sid /\
    HandleSpyAnswer env sid answer s' =
      Done match rtcError env (PC sess) (CallSetRemoteDescription answer) with
           | Some err =>
               Some (ErrorfW "failed to set remote description" err)
           | None => None
           end s'.
Proof.
  intros Ho. unfold StartSpySession in Ho.
  destruct (resolveTags_state env callID fromTag toTag s)
    as (r & s0 & Hr & _).
  rewrite (bind_Done _ _ _ _ _ Hr) in Ho. clear Hr.
  destruct r as [[f0 t0]|e]; [|discriminate Ho].
  unfold spyWithTags in Ho.
  destruct (sourcesMu s0) eqn:Hmu.
  { erewrite bind_Blocked in Ho
      by (unfold sourcesMu_Lock; rewrite Hmu; reflexivity).
    discriminate Ho. }
  erewrite bind_Done in Ho
    by (unfold sourcesMu_Lock; rewrite Hmu; reflexivity).
  destruct (getOrCreateSource env callID f0 t0 (set_sourcesMu true s0))
    as [r s1|s1] eqn:Hgo.
  2:{ rewrite (bind_Blocked _ _ _ _ Hgo) in Ho. discriminate Ho. }
  rewrite (bind_Done _ _ _ _ _ Hgo) in Ho.
  erewrite bind_Done in Ho by reflexivity.
  destruct r as [src|e]; [|discriminate Ho].
  destruct (createSession_spec env src (set_sourcesMu false s1))
    as (r & s2 & Hc & _ & _ & _ & _ & Hcase).
  rewrite (bind_Done _ _ _ _ _ Hc) in Ho.
  destruct Hcase as [([e He] & _)|(sess & _ & _ & _ & Hse & _ & _ & _ & Hr)].
  { subst r. discriminate Ho. }
  destruct Hr as [->|(e & -> & _)]; [|discriminate Ho].
  inversion Ho; subst sid offer f t s'. clear Ho.
  exists sess. rewrite Hse, lookup_insert_eq.
  split; [reflexivity|]. split; [reflexivity|].
  unfold HandleSpyAnswer. munfold. cbn. rewrite Hse, lookup_insert_eq. cbn.
  destruct (rtcError env (PC sess) (CallSetRemoteDescription answer));
    reflexivity.
Qed.

Lemma StartSpySession_then_answer_witness :
  exists sess,
    sessions service_one_spectator !! "spy-0" = Some sess /\
    ID sess = "spy-0" /\
    HandleSpyAnswer env_ok "spy-0" answer_port_nine service_one_spectator
    = Done match rtcError env_ok (PC sess)
                   (CallSetRemoteDescription answer_port_nine) with
           | Some err =>
               Some (ErrorfW "failed to set remote description" err)
           | None => None
           end service_one_spectator.
Proof.
  apply (StartSpySession_then_answer env_ok "call-X" "" "" answer_port_nine
           NewService service_one_spectator "spy-0"
           answer_rejected_audio "tag-caller" "tag-callee").
  vm_compute. reflexivity.
Defined.

(** X10: when the engine refuses the subscribe request of the from-leg,
    StartSpySession returns the engine's error wrapped twice, with
    s.sourcesMu released and s.sources and s.sessions as they were; the
    peer connection it had created is closed, nothing but the one
    subscribe request has reached the engine, and the notification of the
    close finds nothing to clean up. *)
Theorem StartSpySession_from_leg_refused
    (env : Env) (callID fromTag toTag : string) (s : Service) (e : error) :
  fromTag <> "" -> toTag <> "" ->
  sourcesMu s = false ->
  goroutines s = [] ->
  sources s !! callID = None ->
  rtcError env (nextPC s) CallNewPeerConnection = None ->
  engine env (engineLog s) (ReqSubscribe callID fromTag) = Err e ->
  let o := StartSpySession env callID fromTag toTag s in
  let s' := state_of o in
  returned o =
    Some (Err (ErrorfW "failed to create source"
                 (ErrorfW "failed to subscribe from-leg" e))) /\
  sourcesMu s' = false /\ sources s' = sources s /\
  sessions s' = sessions s /\
  engineLog s' = engineLog s ++ [ReqSubscribe callID fromTag] /\
  pc_state s' (nextPC s) = Some StateClosed /\
  goroutines s' = [GoHandler (OnBackendState (nextSource s)) StateClosed] /\
  drain env 1 s' = Done tt (set_goroutines (fun _ => []) s').
Proof.
  intros Hf Ht Hmu Hgo Hsrc Hnew Hsub o s'. subst s'.
  assert (Ho : StartSpySession env callID fromTag toTag s = o) by reflexivity.
  clearbody o. unfold StartSpySession in Ho.
  rewrite (bind_Done _ _ _ _ _ (resolveTags_explicit env callID _ _ s Hf Ht))
    in Ho.
  unfold spyWithTags, getOrCreateSource, createSource, NewSource,
    setupBackendSubscription in Ho.
  munfold. rewrite Hmu in Ho. cbn in Ho. rewrite Hsrc in Ho. cbn in Ho.
  rewrite Hnew in Ho. cbn in Ho. rewrite Hsub in Ho. cbn in Ho.
  rewrite lookup_alter_eq, lookup_alter_eq, lookup_insert_eq in Ho.
  cbn in Ho.
  destruct (decide (StateNew = StateClosed)) as [Hc|_]; [discriminate Hc|].
  cbn in Ho. subst o. cbn. unfold pc_state. cbn.
  rewrite lookup_insert_eq, Hgo. cbn.
  repeat split; auto.
  (* the handler of the closed connection *)
  munfold. cbn. rewrite Hgo. cbn.
  unfold cleanupSource. munfold. cbn.
  rewrite lookup_alter_eq, lookup_insert_eq. cbn. rewrite Hsrc. cbn.
  reflexivity.
Qed.

Lemma StartSpySession_from_leg_refused_witness :
  let o := StartSpySession env_from_leg_refused "call-X"
             "tag-caller" "tag-callee" NewService in
  returned o =
    Some (Err (ErrorfW "failed to create source"
                 (ErrorfW "failed to subscribe from-leg" no_such_call))) /\
  sourcesMu (state_of o) = false /\
  sources (state_of o) = sources NewService.
Proof.
  cbv zeta.
  destruct (StartSpySession_from_leg_refused env_from_leg_refused "call-X"
              "tag-caller" "tag-callee" NewService no_such_call)
    as (Hr & Hmu & Hs & _).
  - discriminate.
  - discriminate.
  - reflexivity.
  - reflexivity.
  - reflexivity.
  - reflexivity.
  - reflexivity.
  - auto.
Defined.

(** X11: when the peer connection of a spectator enters a state it was not
    in, the handler createSession installed runs. For failed and closed
    it removes the session from s.sessions and from the Sessions map of
    its Source and lowers the gauge by one if the session was registered;
    for the other states it changes nothing. In both cases s.sources, the
    other peer connections and the engine are left alone: a Source whose
    last spectator has gone keeps its backend subscriptions. *)
Theorem browser_connection_state_change
    (env : Env) (s : Service) (pc : pcid) (p : PeerConnection)
    (sessionID : string) (source : srcid) (st : PeerConnectionState) :
  goroutines s = [] ->
  pcs s !! pc = Some p ->
  onConnectionStateChange p = Some (OnSessionState sessionID source) ->
  connectionState p <> st ->
  let o := (PC_becomes pc st;; drain env 1) s in
  let s' := state_of o in
  returned o = Some tt /\
  pc_state s' pc = Some st /\
  (forall pc', pc' <> pc -> pcs s' !! pc' = pcs s !! pc') /\
  sources s' = sources s /\ engineLog s' = engineLog s /\
  goroutines s' = [] /\ sourcesMu s' = sourcesMu s /\
  if terminal st
  then sessions s' = delete sessionID (sessions s) /\
       heap s' = alter (with_Sessions (delete sessionID)) source (heap s) /\
       sessionCounter s' =
         (if decide (is_Some (sessions s !! sessionID))
          then sessionCounter s - 1 else sessionCounter s)%Z
  else sessions s' = sessions s /\ heap s' = heap s /\
       sessionCounter s' = sessionCounter s.
Proof.
  intros Hgo Hp Hh Hst o s'. subst s' o.
  unfold PC_becomes. munfold. rewrite Hp.
  destruct (decide (connectionState p = st)) as [E|_]; [contradiction|].
  unfold notify. rewrite Hh. cbn. munfold. cbn. rewrite Hgo. cbn.
  unfold cleanupSession. munfold. unfold pc_state.
  destruct (terminal st) eqn:Ht; cbn.
  - destruct (decide (is_Some (sessions s !! sessionID))) as [H|H]; cbn;
      rewrite lookup_insert_eq; repeat split; auto;
      try (intros; now rewrite lookup_insert_ne by congruence).
    symmetry. apply delete_id. now apply eq_None_not_Some.
  - rewrite lookup_insert_eq. repeat split; auto.
    intros. now rewrite lookup_insert_ne by congruence.
Qed.

Lemma browser_connection_state_change_witness :
  let s' := state_of ((PC_becomes 2 StateFailed;; drain env_ok 1)
                        service_one_spectator) in
  sessions s' = delete "spy-0" (sessions service_one_spectator) /\
  sources s' = sources service_one_spectator.
Proof.
  cbv zeta.
  assert (Hp : exists p, pcs service_one_spectator !! 2 = Some p /\
                 onConnectionStateChange p = Some (OnSessionState "spy-0" 0) /\
                 connectionState p <> StateFailed).
  { eexists. split; [vm_compute; reflexivity|].
    split; [reflexivity|]. intros Hc; discriminate Hc. }
  destruct Hp as (p & Hp & Hh & Hst).
  destruct (browser_connection_state_change env_ok service_one_spectator 2 p
              "spy-0" 0 StateFailed) as (_ & _ & _ & Hs & _ & _ & _ & Ht).
  - vm_compute. reflexivity.
  - exact Hp.
  - exact Hh.
  - exact Hst.
  - cbn [terminal] in Ht. destruct Ht as (Hse & _). split; assumption.
Defined.

Section TeardownMore.
Variable env : Env.

(* pc.Close() touches that peer connection and the goroutines. *)
Lemma PC_Close_frame pc s :
  exists s',
    PC_Close pc s = Done tt s' /\
    heap s' = heap s /\ sources s' = sources s /\
    sessions s' = sessions s /\ sessionCounter s' = sessionCounter s /\
    engineLog s' = engineLog s /\ sourcesMu s' = sourcesMu s /\
    (forall pc', pc' <> pc -> pcs s' !! pc' = pcs s !! pc').
Proof.
  unfold PC_Close. destruct (pcs s !! pc) as [p|]; [|eauto 10].
  destruct (decide (connectionState p = StateClosed)); [eauto 10|].
  eexists. split; [reflexivity|]. cbn. repeat split; auto.
  intros. now rewrite lookup_insert_ne by congruence.
Qed.

Lemma releaseSource_frame source x s :
  heap s !! source = Some x ->
  exists s',
    releaseSource env source s = Done tt s' /\
    heap s' = heap s /\ sources s' = sources s /\
    sessions s' = sessions s /\ sessionCounter s' = sessionCounter s /\
    sourcesMu s' = sourcesMu s /\
    engineLog s' = engineLog s ++ unsubscribes_of x /\
    (forall pc, PCFrom x <> Some pc -> PCTo x <> Some pc ->
                pcs s' !! pc = pcs s !! pc).
Proof.
  intros Hx. unfold releaseSource, unsubscribes_of.
  erewrite bind_Done by reflexivity. rewrite Hx.
  assert (H1 : exists s1,
    (match PCFrom x with
     | Some pc =>
         PC_Close pc;;
         rtpClient env (ReqUnSubscribe (CallID x) (SubTagFrom x));; mret tt
     | None => mret tt
     end) s = Done tt s1 /\
    heap s1 = heap s /\ sources s1 = sources s /\
    sessions s1 = sessions s /\ sessionCounter s1 = sessionCounter s /\
    sourcesMu s1 = sourcesMu s /\
    engineLog s1 = engineLog s ++
      match PCFrom x with
      | Some _ => [ReqUnSubscribe (CallID x) (SubTagFrom x)]
      | None => []
      end /\
    (forall pc, PCFrom x <> Some pc -> pcs s1 !! pc = pcs s !! pc)).
  { destruct (PCFrom x) as [pf|].
    - destruct (PC_Close_frame pf s)
        as (s1 & Hc & Hh & Hso & Hse & Hcn & Hlog & Hmu & Hp).
      rewrite (bind_Done _ _ _ _ _ Hc). munfold. cbn.
      eexists. split; [reflexivity|]. cbn. rewrite Hlog.
      split; [exact Hh|]. split; [exact Hso|]. split; [exact Hse|].
      split; [exact Hcn|]. split; [exact Hmu|]. split; [reflexivity|].
      intros pc Hne. apply Hp. congruence.
    - exists s. rewrite app_nil_r. repeat split; auto. }
  destruct H1 as (s1 & Hr1 & Hh1 & Hso1 & Hse1 & Hcn1 & Hmu1 & Hlog1 & Hp1).
  rewrite (bind_Done _ _ _ _ _ Hr1).
  erewrite bind_Done by reflexivity. rewrite Hh1, Hx.
  destruct (PCTo x) as [pt|].
  - destruct (PC_Close_frame pt s1)
      as (s2 & Hc & Hh & Hso & Hse & Hcn & Hlog & Hmu & Hp).
    rewrite (bind_Done _ _ _ _ _ Hc). munfold. cbn.
    eexists. split; [reflexivity|]. cbn. rewrite Hlog, Hlog1, <- app_assoc.
    split; [congruence|]. split; [congruence|]. split; [congruence|].
    split; [congruence|]. split; [congruence|]. split; [reflexivity|].
    intros pc HneF HneT. rewrite Hp by congruence. now apply Hp1.
  - exists s1. rewrite app_nil_r. repeat split; auto.
Qed.

End TeardownMore.

(** X12: cleanupSource finds the entry to delete by the call id of the
    Source it is given, not by the Source. Run for a Source whose call id
    is by now held in s.sources by another Source, it deletes that entry
    all the same; with the release goroutine it starts, it unsubscribes
    and closes only the connections of the Source it was given. The other
    Source is left out of s.sources, not cancelled, with its peer
    connections and sessions as they were. *)
Theorem cleanupSource_deletes_by_call_id
    (env : Env) (s : Service) (source other : srcid) (x y : Source) :
  sourcesMu s = false ->
  goroutines s = [] ->
  heap s !! source = Some x ->
  sources s !! CallID x = Some other ->
  other <> source ->
  heap s !! other = Some y ->
  let o := (cleanupSource source;; drain env 1) s in
  let s' := state_of o in
  returned o = Some tt /\
  sources s' !! CallID x = None /\
  heap s' !! other = Some y /\
  heap s' !! source = Some (with_cancel x) /\
  sessions s' = sessions s /\
  engineLog s' = engineLog s ++ unsubscribes_of x /\
  (forall pc, PCFrom x <> Some pc -> PCTo x <> Some pc ->
              pcs s' !! pc = pcs s !! pc).
Proof.
  intros Hmu Hgo Hx Hsrc Hne Hy o s'. subst s' o.
  destruct (cleanupSource_present source x other s Hmu Hx Hsrc)
    as (s1 & Hc & Hso1 & Hh1 & Hg1 & Hse1 & Hp1 & Hl1 & Hmu1 & _).
  rewrite (bind_Done _ _ _ _ _ Hc).
  rewrite Hgo in Hg1. cbn in Hg1.
  rewrite (drain_cons _ _ _ _ _ Hg1).
  assert (Hx1 : heap (set_goroutines (fun _ => []) s1) !! source
                = Some (with_cancel x)).
  { cbn. rewrite Hh1. apply lookup_insert_eq. }
  destruct (releaseSource_frame env source (with_cancel x) _ Hx1)
    as (s2 & Hr & Hh2 & Hso2 & Hse2 & _ & _ & Hl2 & Hp2).
  cbn [run_task].
  rewrite (bind_Done _ _ _ _ _ Hr). cbn [drain]. cbn in Hh2, Hso2, Hse2, Hl2, Hp2.
  unfold mret, M_ret. cbn [state_of returned].
  split; [reflexivity|].
  split; [rewrite Hso2, Hso1; apply lookup_delete_eq|].
  split; [rewrite Hh2, Hh1, lookup_insert_ne by congruence; exact Hy|].
  split; [rewrite Hh2, Hh1; apply lookup_insert_eq|].
  split; [congruence|].
  split; [rewrite Hl2, Hl1; reflexivity|].
  intros pc HF HT. rewrite Hp2 by assumption. now rewrite Hp1.
Qed.

Lemma cleanupSource_deletes_by_call_id_witness :
  let s := set_goroutines (fun _ => []) service_after_retry in
  let s' := state_of ((cleanupSource 0;; drain env_first_refused 1) s) in
  sources s !! "call-X" = Some 1 /\
  sources s' !! "call-X" = None /\
  heap s' !! 1 = heap s !! 1 /\
  engineLog s' = engineLog s.
Proof.
  cbv zeta.
  assert (Hx : exists x y,
            heap (set_goroutines (fun _ => []) service_after_retry) !! 0
              = Some x /\
            heap (set_goroutines (fun _ => []) service_after_retry) !! 1
              = Some y /\
            CallID x = "call-X" /\ unsubscribes_of x = []).
  { do 2 eexists. split; [vm_compute; reflexivity|].
    split; [vm_compute; reflexivity|]. split; reflexivity. }
  destruct Hx as (x & y & Hx & Hy & Hc & Hu).
  assert (Hs : sources (set_goroutines (fun _ => []) service_after_retry)
               !! CallID x = Some 1).
  { rewrite Hc. vm_compute. reflexivity. }
  destruct (cleanupSource_deletes_by_call_id env_first_refused
              (set_goroutines (fun _ => []) service_after_retry) 0 1 x y)
    as (_ & Hgone & Hkept & _ & _ & Hlog & _).
  - vm_compute. reflexivity.
  - reflexivity.
  - exact Hx.
  - exact Hs.
  - intros Hne. discriminate Hne.
  - exact Hy.
  - rewrite Hc in Hs, Hgone. rewrite Hu, app_nil_r in Hlog.
    split; [exact Hs|]. split; [exact Hgone|].
    split; [|exact Hlog]. exact (eq_trans Hkept (eq_sym Hy)).
Defined.

(* The run in which this happens: the handler of the connection closed
   by the failed request runs after the retry has put its Source in
   s.sources. The new Source, with its spectator, is then out of
   s.sources with its backend connections open. *)
Example stale_close_handler_orphans_source :
  let s' := state_of (drain env_first_refused 2 service_after_retry) in
  goroutines service_after_retry
    = [GoHandler (OnBackendState 0) StateClosed] /\
  sources service_after_retry = {[ "call-X" := 1 ]} /\
  sources s' = ∅ /\
  (dom <$> (Sessions <$> heap s' !! 1)) = Some ({[ "spy-0" ]} : gset string) /\
  (cancelled <$> heap s' !! 1) = Some false /\
  pc_state s' 1 = Some StateNew /\
  List.filter is_unsubscribe (engineLog s') = [].
Proof. vm_compute. repeat split. Qed.

(* ---- The service: requests, the mutex, other calls ---- *)

Section SortUnique.

Lemma sorted_by_less_antisym a b :
  sorted_by less a b -> sorted_by less b a -> a = b.
Proof.
  rewrite !sorted_by_less. intros Hba Hab.
  destruct (ordered_before_trichotomy a b) as [H|[[H1 H2]|H]];
    [contradiction| |contradiction].
  destruct a, b; cbn in *; congruence.
Qed.

(* However sort.Slice goes about it, the slice it leaves is this one. *)
Lemma sort_Slice_unique (x sorted : list TagInfo) :
  sorted ≡ₚ x -> StronglySorted (sorted_by less) sorted ->
  sorted = sort_Slice less x.
Proof.
  intros Hp Hs. apply (StronglySorted_unique_strong (sorted_by less)).
  - intros a b _ _. apply sorted_by_less_antisym.
  - exact Hs.
  - apply sort_Slice_sorted.
  - rewrite Hp. symmetry. apply sort_Slice_perm.
Qed.

End SortUnique.

(** X13: the tags detectTags returns do not depend on the order in which Go
    ranges over the tags map, nor on how sort.Slice sorts: the comparison
    orders the entries totally (by [created], then by tag), so every
    sorted arrangement of the entries is the same slice. *)
Theorem detectTags_order_independent
    (rangeMap rangeMap' : gmap string value -> list (string * value))
    (query : result (gmap string value)) :
  (forall m, rangeMap m ≡ₚ map_to_list m) ->
  (forall m, rangeMap' m ≡ₚ map_to_list m) ->
  detectTags_of rangeMap query = detectTags_of rangeMap' query /\
  (forall tagsMap sorted,
     sorted ≡ₚ collect_tagInfos rangeMap tagsMap ->
     StronglySorted (sorted_by less) sorted ->
     sorted = sort_Slice less (collect_tagInfos rangeMap' tagsMap)).
Proof.
  intros Hp Hp'.
  assert (Hc : forall m,
            collect_tagInfos rangeMap m ≡ₚ collect_tagInfos rangeMap' m).
  { intros m. unfold collect_tagInfos.
    apply Permutation_map. now rewrite Hp, Hp'. }
  split.
  - unfold detectTags_of. destruct query as [details|e]; [|reflexivity].
    destruct (as_dict (details !! "tags")) as [tagsMap|]; [|reflexivity].
    destruct (size tagsMap <? 2)%nat; [reflexivity|].
    rewrite (sort_Slice_unique (collect_tagInfos rangeMap' tagsMap)
               (sort_Slice less (collect_tagInfos rangeMap tagsMap))).
    + reflexivity.
    + rewrite sort_Slice_perm. apply Hc.
    + apply sort_Slice_sorted.
  - intros tagsMap sorted Hs Hsorted. apply sort_Slice_unique; [|exact Hsorted].
    now rewrite Hs.
Qed.

Lemma detectTags_order_independent_witness :
  detectTags_of map_to_list (Ok query_tie)
  = detectTags_of (fun m => reverse (map_to_list m)) (Ok query_tie).
Proof.
  apply (detectTags_order_independent map_to_list
           (fun m => reverse (map_to_list m)) (Ok query_tie)).
  - reflexivity.
  - intros m. apply reverse_Permutation.
Defined.

Section MoreServiceFacts.
Variable env : Env.

(* The subscribe answers setupBackendSubscription sends carry the
   rewritten local description and the to-tag of the reply, the empty
   string if the reply has none. *)
Lemma setupBackendSubscription_requests callID tag src leg s :
  exists r s' extra,
    setupBackendSubscription env callID tag src leg s = Done r s' /\
    engineLog s' = engineLog s ++ extra /\
    (forall q, In q extra ->
       q = ReqSubscribe callID tag \/
       exists resp,
         engine env (engineLog s) (ReqSubscribe callID tag) = Ok resp /\
         q = ReqSubscribeAnswer callID
               (rewriteAnswerSDP (localSDP env (nextPC s)))
               (default "" (as_string (resp !! "to-tag")))) /\
    (forall pc subTag,
       r = Ok (pc, subTag) ->
       exists resp,
         engine env (engineLog s) (ReqSubscribe callID tag) = Ok resp /\
         subTag = default "" (as_string (resp !! "to-tag")) /\
         extra = [ReqSubscribe callID tag;
                  ReqSubscribeAnswer callID
                    (rewriteAnswerSDP (localSDP env (nextPC s))) subTag]).
Proof.
  unfold setupBackendSubscription. munfold.
  destruct (rtcError env (nextPC s) CallNewPeerConnection) eqn:Hnew;
    cbn -[rewriteAnswerSDP].
  { exists (Err e), (bump_nextPC s), []. rewrite app_nil_r.
    split; [reflexivity|]. split; [reflexivity|].
    split; [intros q []|intros pc subTag H; discriminate H]. }
  destruct (engine env (engineLog s) (ReqSubscribe callID tag))
    as [resp|e] eqn:Hsub.
  2:{ mstep;
      (do 3 eexists; split; [reflexivity|]; cbn;
       split; [reflexivity|];
       split; [intros q [<-|[]]; auto|intros pc subTag Hok; discriminate Hok]). }
  mstep;
    (do 3 eexists; split; [reflexivity|]; cbn -[rewriteAnswerSDP];
     split; [rewrite <- ?app_assoc; reflexivity|];
     split;
     [ intros q Hq; cbn in Hq;
       repeat (destruct Hq as [<-|Hq]; [eauto|]); destruct Hq
     | intros pc subTag Hok; try discriminate Hok; inversion Hok; subst; eauto ]).
Qed.

End MoreServiceFacts.

Section NoPortZero.
Import GoStrings.

Lemma has_prefix_nth p : forall s,
  has_prefix p s = true <->
  forall k, k < List.length p -> nth_error s k = nth_error p k.
Proof.
  induction p as [|a p IH]; intros s; cbn [has_prefix List.length].
  - split; [intros _ k Hk; lia|reflexivity].
  - destruct s as [|b s].
    + split; [discriminate|]. intros H. specialize (H 0 ltac:(lia)).
      discriminate H.
    + destruct (Ascii.eqb_spec a b) as [->|Hne].
      * rewrite IH. split.
        -- intros H [|k] Hk; [reflexivity|]. cbn. apply H. lia.
        -- intros H k Hk. apply (H (S k)). lia.
      * split; [discriminate|]. intros H. specialize (H 0 ltac:(lia)).
        cbn in H. congruence.
Qed.

Lemma occurs_at_nth old s i :
  occurs_at old s i = true <->
  forall k, k < List.length old -> nth_error s (i + k) = nth_error old k.
Proof.
  unfold occurs_at. rewrite has_prefix_nth.
  split; intros H k Hk; specialize (H k Hk);
    now rewrite nth_error_skipn in *.
Qed.

(* After the rewrite no [m=audio 0] is left. *)
Lemma rewriteAnswerSDP_no_occurrence sdp i :
  occurs_at (bytes_of m_audio_0) (bytes_of (rewriteAnswerSDP sdp)) i = false.
Proof.
  apply not_true_iff_false. intros Hocc.
  rewrite occurs_at_nth in Hocc.
  assert (Hget : forall k, k < 9 ->
            String.get (i + k) (rewriteAnswerSDP sdp)
            = nth_error (bytes_of m_audio_0) k).
  { intros k Hk. rewrite <- bytes_of_get. apply Hocc. exact Hk. }
  assert (Hin : occurs_at (bytes_of m_audio_0) (bytes_of sdp) i = true).
  { apply occurs_at_nth. intros k Hk.
    change (List.length (bytes_of m_audio_0)) with 9 in Hk.
    specialize (Hget k Hk). rewrite rewriteAnswerSDP_get in Hget.
    rewrite bytes_of_get.
    destruct ((8 <=? i + k)%nat &&
              occurs_at (bytes_of m_audio_0) (bytes_of sdp) (i + k - 8));
      [|exact Hget].
    exfalso. do 9 (destruct k as [|k]; [discriminate Hget|]). lia. }
  specialize (Hget 8 ltac:(lia)). rewrite rewriteAnswerSDP_get in Hget.
  replace (i + 8 - 8) with i in Hget by lia. rewrite Hin in Hget.
  replace (8 <=? i + 8)%nat with true in Hget
    by (symmetry; apply Nat.leb_le; lia).
  discriminate Hget.
Qed.

Lemma rewriteAnswerSDP_fixed sdp :
  (forall i, occurs_at (bytes_of m_audio_0) (bytes_of sdp) i = false) ->
  rewriteAnswerSDP sdp = sdp.
Proof.
  intros H. rewrite <- (of_bytes_bytes_of sdp) at 2.
  rewrite <- (of_bytes_bytes_of (rewriteAnswerSDP sdp)). f_equal.
  apply nth_error_ext. intros n.
  rewrite !bytes_of_get, rewriteAnswerSDP_get, H, andb_false_r. reflexivity.
Qed.

End NoPortZero.

(** X14: the SDP of a subscribe answer never holds [m=audio 0]: no
    occurrence is left after the rewrite, at any offset, so that the
    rewrite applied again changes nothing; and every subscribe answer
    setupBackendSubscription sends is for its call and carries such an
    SDP. *)
Theorem subscribe_answer_no_port_zero :
  (forall sdp i,
     GoStrings.occurs_at (GoStrings.bytes_of m_audio_0)
       (GoStrings.bytes_of (rewriteAnswerSDP sdp)) i = false) /\
  (forall sdp, rewriteAnswerSDP (rewriteAnswerSDP sdp) = rewriteAnswerSDP sdp) /\
  (forall env callID tag source leg s,
     exists extra,
       engineLog (state_of (setupBackendSubscription env callID tag source leg s))
       = engineLog s ++ extra /\
       forall c sdp t i,
         In (ReqSubscribeAnswer c sdp t) extra ->
         c = callID /\
         GoStrings.occurs_at (GoStrings.bytes_of m_audio_0)
           (GoStrings.bytes_of sdp) i = false).
Proof.
  split; [exact rewriteAnswerSDP_no_occurrence|].
  split.
  { intros sdp. apply rewriteAnswerSDP_fixed.
    apply rewriteAnswerSDP_no_occurrence. }
  intros env callID tag source leg s.
  destruct (setupBackendSubscription_requests env callID tag source leg s)
    as (r & s' & extra & -> & Hlog & Hq & _).
  exists extra. split; [exact Hlog|].
  intros c sdp t i Hin.
  destruct (Hq _ Hin) as [Habs|(resp & _ & Heq)]; [discriminate Habs|].
  inversion Heq; subst c sdp t.
  split; [reflexivity|apply rewriteAnswerSDP_no_occurrence].
Qed.

Lemma subscribe_answer_no_port_zero_witness :
  rewriteAnswerSDP (rewriteAnswerSDP answer_rejected_audio) = answer_port_nine.
Proof.
  destruct subscribe_answer_no_port_zero as (_ & Hidem & _).
  rewrite Hidem. vm_compute. reflexivity.
Defined.

(** X15: setupBackendSubscription takes the subscription tag from the
    [to-tag] of the engine's reply and does not insist on it: when the
    reply has no [to-tag], or one that is not a string, the empty string
    is used, in the subscribe answer it sends and in the tag it returns.
    A reply without [sdp], or with an empty or non-string one, ends the
    call with the invalid-SDP error after the one subscribe request, the
    peer connection closed. *)
Theorem setupBackendSubscription_reply_fields
    (env : Env) (callID tag : string) (source : srcid) (leg : Leg)
    (s : Service) (resp : gmap string value) :
  rtcError env (nextPC s) CallNewPeerConnection = None ->
  engine env (engineLog s) (ReqSubscribe callID tag) = Ok resp ->
  let o := setupBackendSubscription env callID tag source leg s in
  let s' := state_of o in
  let subscriptionTag := default "" (as_string (resp !! "to-tag")) in
  (forall pc subTag,
     returned o = Some (Ok (pc, subTag)) ->
     subTag = subscriptionTag /\
     engineLog s' =
       engineLog s ++
       [ReqSubscribe callID tag;
        ReqSubscribeAnswer callID (rewriteAnswerSDP (localSDP env pc))
          subscriptionTag]) /\
  (forall c sdp t,
     In (ReqSubscribeAnswer c sdp t) (engineLog s') ->
     In (ReqSubscribeAnswer c sdp t) (engineLog s) \/ t = subscriptionTag) /\
  (as_string (resp !! "sdp") = None \/ as_string (resp !! "sdp") = Some "" ->
   returned o = Some (Err (Errorf "invalid SDP from rtpengine")) /\
   engineLog s' = engineLog s ++ [ReqSubscribe callID tag] /\
   pc_state s' (nextPC s) = Some StateClosed).
Proof.
  intros Hnew Hsub o s' subscriptionTag. subst s' o.
  destruct (setupBackendSubscription_requests env callID tag source leg s)
    as (r & s1 & extra & Hrun & Hlog & Hq & Hok).
  split; [|split].
  - rewrite Hrun. cbn. intros pc subTag [= ->].
    destruct (Hok pc subTag eq_refl) as (resp' & Hresp & -> & ->).
    rewrite Hsub in Hresp. inversion Hresp; subst resp'.
    split; [reflexivity|].
    destruct (setupBackendSubscription_spec env callID tag source leg s)
      as (r' & s2 & Hrun' & H).
    rewrite Hrun in Hrun'. inversion Hrun'; subst r' s2.
    destruct H as (_ & _ & _ & _ & _ & _ & _ & _ & _ & _ & -> & _ & Hl & _).
    exact Hl.
  - rewrite Hrun. cbn. intros c sdp t Hin. rewrite Hlog in Hin.
    apply List.in_app_or in Hin as [Hin|Hin]; [now left|right].
    destruct (Hq _ Hin) as [Habs|(resp' & Hresp & Heq)]; [discriminate Habs|].
    rewrite Hsub in Hresp. inversion Hresp; subst resp'.
    now inversion Heq.
  - clear Hrun Hlog Hq Hok. intros Hsdp.
    unfold setupBackendSubscription, pc_state. munfold.
    rewrite Hnew. cbn. rewrite Hsub. cbn.
    destruct Hsdp as [-> | ->]; cbn;
      rewrite ?lookup_alter_eq, ?lookup_insert_eq; cbn;
      (destruct (decide (StateNew = StateClosed)) as [Hc|_];
       [discriminate Hc|]); cbn; rewrite lookup_insert_eq; auto.
Qed.

Lemma setupBackendSubscription_reply_fields_witness :
  let o := setupBackendSubscription env_no_to_tag "call-X" "tag-caller"
             0 LegFrom NewService in
  returned o = Some (Ok (0, "")) /\
  engineLog (state_of o) =
    [ReqSubscribe "call-X" "tag-caller";
     ReqSubscribeAnswer "call-X" answer_port_nine ""].
Proof.
  cbv zeta.
  destruct (setupBackendSubscription_reply_fields env_no_to_tag "call-X"
              "tag-caller" 0 LegFrom NewService
              (<[ "result" := VStr "ok" ]> {[ "sdp" := VStr engine_offer ]})
              eq_refl eq_refl) as (Hok & _).
  assert (Hr : returned (setupBackendSubscription env_no_to_tag "call-X"
                           "tag-caller" 0 LegFrom NewService)
               = Some (Ok (0, ""))) by (vm_compute; reflexivity).
  split; [exact Hr|].
  destruct (Hok 0 "" Hr) as (_ & Hlog). rewrite Hlog. vm_compute. reflexivity.
Defined.

Section LockAndFrame.
Variable env : Env.

Lemma StartSpySession_unlocks callID fromTag toTag s r s' :
  sourcesMu s = false ->
  StartSpySession env callID fromTag toTag s = Done r s' ->
  sourcesMu s' = false.
Proof.
  intros Hmu Ho. unfold StartSpySession in Ho.
  destruct (resolveTags_state env callID fromTag toTag s)
    as (r0 & s0 & Hr & Hs0).
  rewrite (bind_Done _ _ _ _ _ Hr) in Ho.
  assert (Hmu0 : sourcesMu s0 = false) by (destruct Hs0 as [-> | ->]; exact Hmu).
  destruct r0 as [[f t]|e].
  2:{ inversion Ho; subst. exact Hmu0. }
  unfold spyWithTags in Ho.
  erewrite bind_Done in Ho
    by (unfold sourcesMu_Lock; rewrite Hmu0; reflexivity).
  destruct (getOrCreateSource env callID f t (set_sourcesMu true s0))
    as [r1 s1|s1] eqn:Hgo.
  2:{ rewrite (bind_Blocked _ _ _ _ Hgo) in Ho. discriminate Ho. }
  rewrite (bind_Done _ _ _ _ _ Hgo) in Ho.
  erewrite bind_Done in Ho by reflexivity.
  destruct r1 as [src|e].
  2:{ inversion Ho; subst. reflexivity. }
  destruct (createSession_spec env src (set_sourcesMu false s1))
    as (r2 & s2 & Hc & _ & Hmu2 & _).
  rewrite (bind_Done _ _ _ _ _ Hc) in Ho.
  destruct r2 as [[sid sdp]|e]; inversion Ho; subst; exact Hmu2.
Qed.

End LockAndFrame.

(** X16: whatever StartSpySession and cleanupSource return, they return
    with s.sourcesMu released: started with the mutex free, every run
    that comes to its end leaves it free. cleanupSession and
    HandleSpyAnswer do not touch it. *)
Theorem sourcesMu_released_on_return (env : Env) (s : Service) :
  sourcesMu s = false ->
  (forall callID fromTag toTag r s',
     StartSpySession env callID fromTag toTag s = Done r s' ->
     sourcesMu s' = false) /\
  (forall source,
     exists s', cleanupSource source s = Done tt s' /\ sourcesMu s' = false) /\
  (forall sessionID source,
     sourcesMu (state_of (cleanupSession sessionID source s)) = false) /\
  (forall sessionID sdp,
     sourcesMu (state_of (HandleSpyAnswer env sessionID sdp s)) = false).
Proof.
  intros Hmu. split; [|split; [|split]].
  - intros callID fromTag toTag r s'.
    now apply StartSpySession_unlocks.
  - intros source. unfold cleanupSource. munfold. rewrite Hmu. cbn.
    destruct (heap s !! source) as [x|]; cbn; [|eauto].
    destruct (sources s !! CallID x); cbn; eauto.
  - intros sid src. unfold cleanupSession. munfold. cbn.
    destruct (decide (is_Some (sessions s !! sid))); exact Hmu.
  - intros sid sdp. unfold HandleSpyAnswer. munfold. cbn.
    destruct (sessions s !! sid) as [sess|]; cbn; [|exact Hmu].
    destruct (rtcError env (PC sess) (CallSetRemoteDescription sdp));
      exact Hmu.
Qed.

Lemma sourcesMu_released_on_return_witness :
  sourcesMu (state_of (StartSpySession env_offer_fails "call-X" "" ""
                         NewService)) = false.
Proof.
  destruct (sourcesMu_released_on_return env_offer_fails NewService eq_refl)
    as (H & _).
  destruct (StartSpySession env_offer_fails "call-X" "" "" NewService)
    as [r s'|s'] eqn:Ho.
  - cbn. exact (H "call-X" "" "" r s' Ho).
  - vm_compute in Ho. discriminate Ho.
Defined.

Section OtherCalls.
Variable env : Env.

Lemma resolveTags_requests callID fromTag toTag s :
  exists r s' extra,
    resolveTags env callID fromTag toTag s = Done r s' /\
    engineLog s' = engineLog s ++ extra /\
    (forall q, In q extra -> request_call q = callID) /\
    heap s' = heap s /\ sources s' = sources s /\
    sourcesMu s' = sourcesMu s /\ nextSource s' = nextSource s.
Proof.
  destruct (resolveTags_state env callID fromTag toTag s)
    as (r & s' & Hr & [-> | ->]).
  - exists r, s, []. rewrite app_nil_r. repeat split; auto. intros q [].
  - exists r, (set_engineLog (fun l => l ++ [ReqQueryCall callID]) s),
      [ReqQueryCall callID].
    repeat split; auto. intros q [<-|[]]. reflexivity.
Qed.

Lemma backend_request_call callID fromTag toTag q :
  backend_request callID fromTag toTag q -> request_call q = callID.
Proof. destruct q; cbn; intuition. Qed.

End OtherCalls.

(** X17: a StartSpySession request leaves the other calls alone: the entry
    of s.sources of another call id and the Source it points to (its
    tags, its peer connections, its sessions) are as they were however
    the request ends, and every request it makes of the engine names the
    call id it was given. *)
Theorem StartSpySession_other_calls
    (env : Env) (callID fromTag toTag : string) (s : Service)
    (other : string) (source : srcid) (x : Source) :
  sourcesMu s = false -> sources_valid s ->
  other <> callID ->
  sources s !! other = Some source -> heap s !! source = Some x ->
  let s' := state_of (StartSpySession env callID fromTag toTag s) in
  sources s' !! other = Some source /\ heap s' !! source = Some x /\
  exists extra,
    engineLog s' = engineLog s ++ extra /\
    forall q, In q extra -> request_call q = callID.
Proof.
  intros Hmu Hvalid Hc Hsrc Hx s'. subst s'.
  assert (Ho : exists o, StartSpySession env callID fromTag toTag s = o)
    by eauto.
  destruct Ho as [o Ho]. rewrite Ho. unfold StartSpySession in Ho.
  destruct (resolveTags_requests env callID fromTag toTag s)
    as (r & s0 & extra0 & Hr & Hlog0 & Hq0 & Hh0 & Hso0 & Hmu0 & Hns0).
  rewrite (bind_Done _ _ _ _ _ Hr) in Ho. clear Hr.
  destruct (Hvalid other source Hsrc) as (Hlt & x' & Hx' & Hcall).
  pose proof (eq_trans (eq_sym Hx) Hx') as Exx.
  inversion Exx; subst x'. clear Hx' Exx.
  destruct r as [[f t]|e].
  { unfold spyWithTags in Ho.
    erewrite bind_Done in Ho
      by (unfold sourcesMu_Lock; rewrite Hmu0, Hmu; reflexivity).
    pose proof (getOrCreateSource_spec env callID f t
                  (set_sourcesMu true s0) eq_refl) as Hg.
    cbv zeta in Hg.
    destruct (getOrCreateSource env callID f t (set_sourcesMu true s0))
      as [r1 s1|s1] eqn:Hgo; cbn [state_of] in Hg;
      destruct Hg as (_ & _ & _ & _ & Hh1 & _ & extra1 & Hlog1 & Hq1 & Hcase);
      cbn in Hh1, Hlog1, Hcase.
    - (* the critical section has returned *)
      rewrite (bind_Done _ _ _ _ _ Hgo) in Ho.
      erewrite bind_Done in Ho by reflexivity.
      assert (Hs1 : sources s1 !! other = Some source /\ heap s1 !! source = Some x /\
                    forall src, r1 = Ok src -> src <> source).
      { rewrite Hh1 by (rewrite Hns0; exact Hlt). rewrite Hh0.
        rewrite Hso0 in Hcase.
        destruct (sources s !! callID) as [src0|] eqn:Hs0.
        - destruct Hcase as [Heq _]. inversion Heq; subst r1 s1. cbn.
          rewrite Hso0. split; [exact Hsrc|]. split; [exact Hx|].
          intros src [= <-] ->.
          destruct (Hvalid callID source Hs0) as (_ & y & Hy & Hcy).
          pose proof (eq_trans (eq_sym Hx) Hy) as Exy.
          inversion Exy; subst y. congruence.
        - destruct r1 as [src|e].
          + destruct Hcase as (-> & Hso1 & _).
            rewrite Hso1, lookup_insert_ne by congruence.
            split; [exact Hsrc|]. split; [exact Hx|].
            intros src [= <-]. rewrite Hns0. lia.
          + destruct Hcase as (Hso1 & _). rewrite Hso1.
            split; [exact Hsrc|]. split; [exact Hx|].
            intros src H; discriminate H. }
      destruct Hs1 as (Hsc1 & Hhp1 & Hne1).
      assert (Hex : engineLog s1 = engineLog s ++ (extra0 ++ extra1) /\
                    forall q, In q (extra0 ++ extra1) -> request_call q = callID).
      { split; [rewrite Hlog1, Hlog0, app_assoc; reflexivity|].
        intros q Hin. apply List.in_app_or in Hin as [Hin|Hin]; [auto|].
        eapply backend_request_call; eauto. }
      destruct Hex as (Hl1 & Hq01).
      destruct r1 as [src|e].
      2:{ subst o. cbn. eauto. }
      destruct (createSession_spec env src (set_sourcesMu false s1))
        as (r2 & s2 & Hcs & Hso2 & _ & Hlog2 & _ & Hcase2).
      rewrite (bind_Done _ _ _ _ _ Hcs) in Ho.
      cbn in Hso2, Hlog2.
      assert (Hh2 : heap s2 !! source = Some x).
      { destruct Hcase2 as [(_ & _ & Hh2 & _)|(sess & _ & _ & _ & _ & Hh2 & _)];
          cbn in Hh2; rewrite Hh2; [exact Hhp1|].
        rewrite lookup_alter_ne by (apply Hne1; reflexivity). exact Hhp1. }
      assert (Hfin : sources s2 !! other = Some source /\ heap s2 !! source = Some x /\
                exists extra, engineLog s2 = engineLog s ++ extra /\
                  forall q, In q extra -> request_call q = callID).
      { rewrite Hso2. split; [exact Hsc1|]. split; [exact Hh2|].
        exists (extra0 ++ extra1). rewrite Hlog2. auto. }
      destruct r2 as [[sid sdp]|e]; subst o; exact Hfin.
    - (* it waits *)
      rewrite (bind_Blocked _ _ _ _ Hgo) in Ho. subst o. cbn.
      rewrite Hh1 by (rewrite Hns0; exact Hlt). rewrite Hh0.
      rewrite Hso0 in Hcase.
      destruct (sources s !! callID) as [src0|] eqn:Hs0.
      + destruct Hcase as [Heq _]. discriminate Heq.
      + destruct Hcase as (Hso1 & _). rewrite Hso1.
        split; [exact Hsrc|]. split; [exact Hx|].
        exists (extra0 ++ extra1).
        split; [rewrite Hlog1, Hlog0, app_assoc; reflexivity|].
        intros q Hin. apply List.in_app_or in Hin as [Hin|Hin]; [auto|].
        eapply backend_request_call; eauto. }
  subst o. cbn. rewrite Hso0, Hh0. eauto.
Qed.

Lemma sources_valid_one_spectator : sources_valid service_one_spectator.
Proof.
  destruct one_spectator_tables as (_ & Hh & Hs & _).
  intros c p Hc. rewrite Hs in Hc.
  apply lookup_singleton_Some in Hc as [<- <-].
  split; [vm_compute; lia|].
  exists source0. split; [rewrite Hh; apply lookup_singleton_eq|].
  vm_compute. reflexivity.
Qed.

Lemma StartSpySession_other_calls_witness :
  let s' := state_of (StartSpySession env_ok "call-Y" "" ""
                        service_one_spectator) in
  sources s' !! "call-X" = Some 0 /\ heap s' !! 0 = Some source0.
Proof.
  cbv zeta.
  destruct one_spectator_tables as (_ & Hh & Hs & _).
  destruct (StartSpySession_other_calls env_ok "call-Y" "" ""
              service_one_spectator "call-X" 0 source0)
    as (H1 & H2 & _).
  - vm_compute. reflexivity.
  - exact sources_valid_one_spectator.
  - intros Hc. discriminate Hc.
  - rewrite Hs. apply lookup_singleton_eq.
  - rewrite Hh. apply lookup_singleton_eq.
  - split; assumption.
Defined.

Section ErrorKinds.
Variable env : Env.

Lemma resolveTags_error callID fromTag toTag s e s' :
  resolveTags env callID fromTag toTag s = Done (Err e) s' ->
  exists e', e = ErrorfW "failed to detect tags" e'.
Proof.
  unfold resolveTags.
  destruct (String.eqb fromTag "" || String.eqb toTag "").
  - unfold detectTags. munfold. cbn.
    destruct (detectTags_of (rangeTags env)
                (engine env (engineLog s) (ReqQueryCall callID)))
      as [[f t]|e0]; cbn; intros H; inversion H. eauto.
  - intros H. inversion H.
Qed.

End ErrorKinds.

(** X18: every error StartSpySession returns is one of three, each wrapping
    its cause: the tag detection failed, the Source could not be created,
    or the session could not be created. In the second case the cause is
    always the from-leg: no error of the to-leg is ever returned. *)
Theorem StartSpySession_errors
    (env : Env) (callID fromTag toTag : string) (s s' : Service) (e : error) :
  StartSpySession env callID fromTag toTag s = Done (Err e) s' ->
  (exists cause, e = ErrorfW "failed to detect tags" cause) \/
  (exists cause,
     e = ErrorfW "failed to create source"
           (ErrorfW "failed to subscribe from-leg" cause)) \/
  (exists cause, e = ErrorfW "failed to create session" cause).
Proof.
  intros Ho. unfold StartSpySession in Ho.
  destruct (resolveTags env callID fromTag toTag s) as [r0 s0|s0] eqn:Hr.
  2:{ rewrite (bind_Blocked _ _ _ _ Hr) in Ho. discriminate Ho. }
  rewrite (bind_Done _ _ _ _ _ Hr) in Ho.
  destruct r0 as [[f t]|e0].
  2:{ inversion Ho; subst. left. eapply resolveTags_error; eauto. }
  clear Hr. unfold spyWithTags in Ho.
  destruct (sourcesMu s0) eqn:Hmu.
  { erewrite bind_Blocked in Ho
      by (unfold sourcesMu_Lock; rewrite Hmu; reflexivity).
    discriminate Ho. }
  erewrite bind_Done in Ho
    by (unfold sourcesMu_Lock; rewrite Hmu; reflexivity).
  pose proof (getOrCreateSource_spec env callID f t
                (set_sourcesMu true s0) eq_refl) as Hg.
  cbv zeta in Hg.
  destruct (getOrCreateSource env callID f t (set_sourcesMu true s0))
    as [r1 s1|s1] eqn:Hgo; cbn [state_of] in Hg.
  2:{ rewrite (bind_Blocked _ _ _ _ Hgo) in Ho. discriminate Ho. }
  destruct Hg as (_ & _ & _ & _ & _ & _ & extra & _ & _ & Hcase).
  rewrite (bind_Done _ _ _ _ _ Hgo) in Ho.
  erewrite bind_Done in Ho by reflexivity.
  destruct r1 as [src|e1].
  - destruct (createSession env src (set_sourcesMu false s1))
      as [r2 s2|s2] eqn:Hc.
    2:{ rewrite (bind_Blocked _ _ _ _ Hc) in Ho. discriminate Ho. }
    rewrite (bind_Done _ _ _ _ _ Hc) in Ho.
    destruct r2 as [[sid sdp]|e2]; inversion Ho; subst. right. right. eauto.
  - inversion Ho; subst. right. left.
    cbn in Hcase. destruct (sources s0 !! callID) as [src0|].
    + destruct Hcase as [Heq _]. discriminate Heq.
    + destruct Hcase as (_ & e' & ->). eauto.
Qed.

Lemma StartSpySession_errors_witness :
  exists cause,
    returned (StartSpySession env_offer_fails "call-X" "" "" NewService)
    = Some (Err (ErrorfW "failed to create session" cause)).
Proof.
  destruct (StartSpySession env_offer_fails "call-X" "" "" NewService)
    as [[ok|e] s'|s'] eqn:Ho.
  - vm_compute in Ho. discriminate Ho.
  - destruct (StartSpySession_errors env_offer_fails "call-X" "" ""
                NewService s' e Ho) as [(c & ->)|[(c & ->)|(c & ->)]].
    + vm_compute in Ho. discriminate Ho.
    + vm_compute in Ho. discriminate Ho.
    + exists c. reflexivity.
  - vm_compute in Ho. discriminate Ho.
Defined.

(* ---- The configuration ---- *)

Section StrconvFacts.
Import GoStrconv.

Lemma digit_of_range c d : digit_of c = Some d -> (0 <= d <= 9)%Z.
Proof.
  unfold digit_of.
  destruct ((48 <=? nat_of_ascii c) && (nat_of_ascii c <=? 57))%nat eqn:E;
    [|discriminate].
  apply andb_true_iff in E as [E1 E2].
  apply Nat.leb_le in E1, E2. intros [= <-]. lia.
Qed.

Lemma digits_value_ge s : forall acc v,
  (0 <= acc)%Z -> digits_value s acc = Some v -> (acc <= v)%Z.
Proof.
  induction s as [|c s IH]; intros acc v Hacc; cbn [digits_value].
  - intros [= <-]. lia.
  - destruct (digit_of c) as [d|] eqn:Hd; [|discriminate].
    apply digit_of_range in Hd. intros H.
    apply IH in H; lia.
Qed.

(* The overflow tests of the loop let through exactly the numerals that
   fit. *)
Lemma parse_digits_spec maxVal s : forall n v,
  (0 <= n <= maxVal)%Z -> (maxVal <= maxUint64)%Z ->
  parse_digits maxVal s n = inr v <->
  digits_value s n = Some v /\ (v <= maxVal)%Z.
Proof.
  induction s as [|c s IH]; intros n v Hn Hmax;
    cbn [parse_digits digits_value].
  - split.
    + intros [= <-]. split; [reflexivity|lia].
    + intros [[= <-] _]. reflexivity.
  - destruct (digit_of c) as [d|] eqn:Hd.
    2:{ split; [discriminate|intros [H _]; discriminate H]. }
    apply digit_of_range in Hd. cbv zeta.
    unfold maxUint64 in *.
    change (2 ^ 64 - 1)%Z with 18446744073709551615%Z in *.
    change (18446744073709551615 / 10 + 1)%Z
      with 1844674407370955162%Z.
    change (2 ^ 64)%Z with 18446744073709551616%Z.
    destruct (Z.leb_spec 1844674407370955162 n) as [Hcut|Hcut].
    { split; [discriminate|]. intros [H Hv].
      apply digits_value_ge in H; lia. }
    destruct (Z.lt_ge_cases (n * 10 + d) 18446744073709551616) as [Hfit|Hwrap].
    + rewrite Z.mod_small by lia.
      destruct (Z.ltb_spec (n * 10 + d) (n * 10)) as [?|_]; [lia|].
      destruct (Z.ltb_spec maxVal (n * 10 + d)) as [Hbig|Hok]; cbn [orb].
      * split; [discriminate|]. intros [H Hv].
        apply digits_value_ge in H; lia.
      * apply IH; lia.
    + assert (Hm : ((n * 10 + d) mod 18446744073709551616
                    = n * 10 + d - 18446744073709551616)%Z).
      { symmetry. apply Z.mod_unique_pos with (q := 1%Z); lia. }
      rewrite Hm.
      destruct (Z.ltb_spec (n * 10 + d - 18446744073709551616) (n * 10))
        as [_|?]; [|lia].
      cbn [orb]. split; [discriminate|]. intros [H Hv].
      apply digits_value_ge in H; lia.
Qed.

Lemma ParseUint_spec s bitSize v :
  (1 <= bitSize <= 64)%Z ->
  ParseUint s bitSize = inr v <->
  numeral s = Some v /\ (v <= 2 ^ bitSize - 1)%Z.
Proof.
  intros Hb. unfold ParseUint, numeral.
  destruct (GoStrings.bytes_of s) as [|c r].
  - split; [discriminate|intros [H _]; discriminate H].
  - apply parse_digits_spec.
    + assert (0 < 2 ^ bitSize)%Z by (apply Z.pow_pos_nonneg; lia). lia.
    + unfold maxUint64.
      assert (2 ^ bitSize <= 2 ^ 64)%Z by (apply Z.pow_le_mono_r; lia). lia.
Qed.

Lemma numeral_nonneg s v : numeral s = Some v -> (0 <= v)%Z.
Proof.
  unfold numeral. destruct (GoStrings.bytes_of s) as [|c r]; [discriminate|].
  apply digits_value_ge. lia.
Qed.

End StrconvFacts.

Section LoadFacts.
Variable Getenv : string -> string.

(* One port of the range, read from [name]. *)
Lemma port_parsed name old :
  let p := parsed_or Getenv name
             (fun v => match GoStrconv.ParseUint v 16 with
                       | inr p => inr (p mod 2 ^ 16)%Z
                       | inl e => inl e
                       end) old in
  match numeral (Getenv name) with
  | Some n => if (n <=? 65535)%Z then p = n else p = old
  | None => p = old
  end.
Proof.
  cbv zeta. unfold parsed_or.
  destruct (String.eqb_spec (Getenv name) "") as [E|_].
  { rewrite E. reflexivity. }
  destruct (GoStrconv.ParseUint (Getenv name) 16) as [e|p] eqn:Hp.
  - destruct (numeral (Getenv name)) as [n|] eqn:Hn; [|reflexivity].
    destruct (Z.leb_spec n 65535) as [Hle|_]; [|reflexivity].
    assert (H : GoStrconv.ParseUint (Getenv name) 16 = inr n).
    { apply ParseUint_spec; [lia|]. split; [exact Hn|].
      change (2 ^ 16 - 1)%Z with 65535%Z. exact Hle. }
    rewrite H in Hp. discriminate Hp.
  - apply ParseUint_spec in Hp as [Hn Hle]; [|lia].
    change (2 ^ 16 - 1)%Z with 65535%Z in Hle.
    rewrite Hn. pose proof (numeral_nonneg _ _ Hn) as H0.
    destruct (Z.leb_spec p 65535) as [_|?]; [|lia].
    apply Z.mod_small. change (2 ^ 16)%Z with 65536%Z. lia.
Qed.

End LoadFacts.

(** X19: Load takes each port of the WebRTC range from its own variable:
    the port is the number the variable writes when the variable is a
    string of decimal digits (nothing else, no sign, no space) of value at
    most 65535, and the default (50000, 51000) in every other case, the
    unset and the empty variable included; no error is reported. The two
    ports are not compared with each other. *)
Theorem Load_port_range (Getenv : string -> string) :
  let cfg := Load Getenv in
  match numeral (Getenv "WEBRTC_MIN_PORT") with
  | Some n => if (n <=? 65535)%Z then WebRTCMinPort cfg = n
              else WebRTCMinPort cfg = 50000%Z
  | None => WebRTCMinPort cfg = 50000%Z
  end /\
  match numeral (Getenv "WEBRTC_MAX_PORT") with
  | Some n => if (n <=? 65535)%Z then WebRTCMaxPort cfg = n
              else WebRTCMaxPort cfg = 51000%Z
  | None => WebRTCMaxPort cfg = 51000%Z
  end /\
  (0 <= WebRTCMinPort cfg <= 65535)%Z /\
  (0 <= WebRTCMaxPort cfg <= 65535)%Z.
Proof.
  cbv zeta.
  pose proof (port_parsed Getenv "WEBRTC_MIN_PORT" 50000) as Hmin.
  pose proof (port_parsed Getenv "WEBRTC_MAX_PORT" 51000) as Hmax.
  cbv zeta in Hmin, Hmax.
  change (WebRTCMinPort (Load Getenv))
    with (parsed_or Getenv "WEBRTC_MIN_PORT"
            (fun v => match GoStrconv.ParseUint v 16 with
                      | inr p => inr (p mod 2 ^ 16)%Z
                      | inl e => inl e
                      end) 50000).
  change (WebRTCMaxPort (Load Getenv))
    with (parsed_or Getenv "WEBRTC_MAX_PORT"
            (fun v => match GoStrconv.ParseUint v 16 with
                      | inr p => inr (p mod 2 ^ 16)%Z
                      | inl e => inl e
                      end) 51000).
  split; [exact Hmin|]. split; [exact Hmax|].
  split.
  - destruct (numeral (Getenv "WEBRTC_MIN_PORT")) as [n|] eqn:Hn;
      [|rewrite Hmin; lia].
    pose proof (numeral_nonneg _ _ Hn).
    destruct (Z.leb_spec n 65535); rewrite Hmin; lia.
  - destruct (numeral (Getenv "WEBRTC_MAX_PORT")) as [n|] eqn:Hn;
      [|rewrite Hmax; lia].
    pose proof (numeral_nonneg _ _ Hn).
    destruct (Z.leb_spec n 65535); rewrite Hmax; lia.
Qed.

Example Load_range_examples :
  let cfg := Load (env_of [("WEBRTC_MIN_PORT", "60000");
                           ("WEBRTC_MAX_PORT", "040000")]) in
  let cfg' := Load (env_of [("WEBRTC_MIN_PORT", "65536");
                            ("WEBRTC_MAX_PORT", "+51001")]) in
  (WebRTCMinPort cfg, WebRTCMaxPort cfg) = (60000, 40000)%Z /\
  (WebRTCMinPort cfg', WebRTCMaxPort cfg') = (50000, 51000)%Z.
Proof. vm_compute. split; reflexivity. Qed.

Section AtoiFacts.
Import GoStrconv.

Lemma parse_digits_all maxVal s v :
  (0 <= maxVal <= maxUint64)%Z ->
  parse_digits maxVal s 0 = inr v <->
  digits_value s 0 = Some v /\ (v <= maxVal)%Z.
Proof. intros H. apply parse_digits_spec; lia. Qed.

Lemma fits_int_true n :
  fits_int n = true <-> (- 9223372036854775808 <= n < 9223372036854775808)%Z.
Proof.
  unfold fits_int. rewrite andb_true_iff, Z.leb_le, Z.ltb_lt.
  change (2 ^ 63)%Z with 9223372036854775808%Z. lia.
Qed.

Lemma fits_int_false n :
  fits_int n = false <->
  (n < - 9223372036854775808 \/ 9223372036854775808 <= n)%Z.
Proof.
  rewrite <- not_true_iff_false, fits_int_true. lia.
Qed.

(* The digits of a number without its sign, through ParseUint at 64
   bits. *)
Lemma parse_digits_cases digits :
  match digits_value digits 0 with
  | Some un =>
      (0 <= un)%Z /\
      (parse_digits maxUint64 digits 0 = inr un \/
       (maxUint64 < un)%Z /\
       exists e, parse_digits maxUint64 digits 0 = inl e)
  | None => exists e, parse_digits maxUint64 digits 0 = inl e
  end.
Proof.
  assert (Hmax : (0 <= maxUint64 <= maxUint64)%Z) by (unfold maxUint64; lia).
  destruct (digits_value digits 0) as [un|] eqn:Hd.
  - pose proof (digits_value_ge _ _ _ (Z.le_refl 0) Hd) as H0.
    split; [exact H0|].
    destruct (Z.le_gt_cases un maxUint64) as [Hle|Hgt].
    + left. apply parse_digits_all; auto.
    + right. split; [lia|].
      destruct (parse_digits maxUint64 digits 0) as [e|v] eqn:Hp; [eauto|].
      apply parse_digits_all in Hp as [Hv Hle]; [|exact Hmax].
      rewrite Hd in Hv. inversion Hv; subst v. lia.
  - destruct (parse_digits maxUint64 digits 0) as [e|v] eqn:Hp; [eauto|].
    apply parse_digits_all in Hp as [Hv _]; [|exact Hmax].
    rewrite Hd in Hv. discriminate Hv.
Qed.

(* The range tests of ParseInt on the unsigned value. *)
Lemma int_range_tests (neg : bool) un :
  (0 <= un)%Z ->
  let n := (if neg then - un else un)%Z in
  (if negb neg && (2 ^ 63 <=? un)%Z then inl ErrRange
   else if neg && (2 ^ 63 <? un)%Z then inl ErrRange
   else inr n) =
  (if fits_int n then inr n else inl ErrRange : NumError + Z).
Proof.
  intros H0 n. subst n. change (2 ^ 63)%Z with 9223372036854775808%Z.
  destruct neg; cbn [negb andb].
  - destruct (Z.ltb_spec 9223372036854775808 un) as [Hlt|Hge].
    + replace (fits_int (- un)) with false
        by (symmetry; apply fits_int_false; lia). reflexivity.
    + replace (fits_int (- un)) with true
        by (symmetry; apply fits_int_true; lia). reflexivity.
  - destruct (Z.leb_spec 9223372036854775808 un) as [Hge|Hlt].
    + replace (fits_int un) with false
        by (symmetry; apply fits_int_false; lia). reflexivity.
    + replace (fits_int un) with true
        by (symmetry; apply fits_int_true; lia). reflexivity.
Qed.

Lemma Atoi_spec s :
  match signed_numeral s with
  | Some n => if fits_int n then Atoi s = inr n
              else exists e, Atoi s = inl e
  | None => exists e, Atoi s = inl e
  end.
Proof.
  unfold signed_numeral, Atoi.
  destruct (GoStrings.bytes_of s) as [|c r]; [eauto|].
  assert (Hsigned : forall (neg : bool) digits,
    match (if neg then Z.opp <$> digits_value digits 0
           else digits_value digits 0) with
    | Some n =>
        if fits_int n
        then match parse_digits maxUint64 digits 0 with
             | inl e => inl e
             | inr un =>
                 if negb neg && (2 ^ 63 <=? un)%Z then inl ErrRange
                 else if neg && (2 ^ 63 <? un)%Z then inl ErrRange
                 else inr (if neg then - un else un)%Z
             end = inr n
        else exists e,
             match parse_digits maxUint64 digits 0 with
             | inl e => inl e
             | inr un =>
                 if negb neg && (2 ^ 63 <=? un)%Z then inl ErrRange
                 else if neg && (2 ^ 63 <? un)%Z then inl ErrRange
                 else inr (if neg then - un else un)%Z
             end = inl e
    | None => exists e,
             match parse_digits maxUint64 digits 0 with
             | inl e => inl e
             | inr un =>
                 if negb neg && (2 ^ 63 <=? un)%Z then inl ErrRange
                 else if neg && (2 ^ 63 <? un)%Z then inl ErrRange
                 else inr (if neg then - un else un)%Z
             end = inl e
    end).
  { intros neg digits. pose proof (parse_digits_cases digits) as Hc.
    destruct (digits_value digits 0) as [un|].
    - destruct Hc as (H0 & [Hp|(Hbig & e & Hp)]); rewrite Hp.
      + rewrite (int_range_tests neg un H0).
        destruct neg; cbn [fmap option_fmap option_map];
          match goal with
          | |- context [fits_int ?n] => destruct (fits_int n); eauto
          end.
      + assert (Hf : fits_int (if neg then - un else un)%Z = false).
        { apply fits_int_false. unfold maxUint64 in Hbig.
          destruct neg; lia. }
        destruct neg; cbn [fmap option_fmap option_map]; rewrite Hf; eauto.
    - destruct Hc as (e & ->).
      destruct neg; cbn [fmap option_fmap option_map]; eauto. }
  destruct (Ascii.eqb c "-") eqn:Hneg.
  - rewrite orb_true_r. destruct r as [|c' r']; [eauto|].
    apply (Hsigned true (c' :: r')).
  - rewrite orb_false_r. destruct (Ascii.eqb c "+") eqn:Hplus.
    + destruct r as [|c' r']; [eauto|]. apply (Hsigned false (c' :: r')).
    + apply (Hsigned false (c :: r)).
Qed.

End AtoiFacts.

Section LoadIntFacts.
Variable Getenv : string -> string.

Lemma int_parsed name old :
  parsed_or Getenv name GoStrconv.Atoi old =
  match signed_numeral (Getenv name) with
  | Some n => if fits_int n then n else old
  | None => old
  end.
Proof.
  unfold parsed_or.
  destruct (String.eqb_spec (Getenv name) "") as [E|_].
  { rewrite E. reflexivity. }
  pose proof (Atoi_spec (Getenv name)) as H.
  destruct (signed_numeral (Getenv name)) as [n|].
  - destruct (fits_int n); [now rewrite H|].
    destruct H as (e & ->). reflexivity.
  - destruct H as (e & ->). reflexivity.
Qed.

End LoadIntFacts.

(** X20: Load takes the HTTP port and the ICE TCP port from HTTP_PORT and
    WEBRTC_ICE_PORT when the variable is an optional sign followed by
    decimal digits and the number fits an int; it keeps the default (8081,
    8443) in every other case, without reporting an error. The number is
    not checked to be a port: a negative number, zero and a number above
    65535 are taken as they are. *)
Theorem Load_int_ports (Getenv : string -> string) :
  let cfg := Load Getenv in
  HTTPPort cfg =
    match signed_numeral (Getenv "HTTP_PORT") with
    | Some n => if fits_int n then n else 8081%Z
    | None => 8081%Z
    end /\
  WebRTCICEPort cfg =
    match signed_numeral (Getenv "WEBRTC_ICE_PORT") with
    | Some n => if fits_int n then n else 8443%Z
    | None => 8443%Z
    end.
Proof.
  cbv zeta. split.
  - apply (int_parsed Getenv "HTTP_PORT" 8081).
  - apply (int_parsed Getenv "WEBRTC_ICE_PORT" 8443).
Qed.

Example Load_signed_port_examples :
  let cfg := Load (env_of [("HTTP_PORT", "-1"); ("WEBRTC_ICE_PORT", "70000")]) in
  let cfg' := Load (env_of [("HTTP_PORT", "8080 ");
                            ("WEBRTC_ICE_PORT", "9223372036854775808")]) in
  (HTTPPort cfg, WebRTCICEPort cfg) = (-1, 70000)%Z /\
  (HTTPPort cfg', WebRTCICEPort cfg') = (8081, 8443)%Z.
Proof. vm_compute. split; reflexivity. Qed.

Section SplitFacts.
Import GoStrconv.
Variable sep : ascii.

Lemma split_bytes_cons s : exists p rest, split_bytes sep s = p :: rest.
Proof.
  induction s as [|c s (p & rest & IH)]; cbn [split_bytes]; [eauto|].
  destruct (Ascii.eqb c sep); [eauto|]. rewrite IH. eauto.
Qed.

Lemma split_bytes_join s : join_bytes sep (split_bytes sep s) = s.
Proof.
  induction s as [|c s IH]; [reflexivity|]. cbn [split_bytes].
  destruct (split_bytes_cons s) as (p & rest & Hs).
  destruct (Ascii.eqb_spec c sep) as [->|Hne].
  - rewrite Hs in *.
    change (join_bytes sep ([] :: p :: rest)) with (sep :: join_bytes sep (p :: rest)).
    now rewrite IH.
  - rewrite Hs in *.
    assert (E : join_bytes sep ((c :: p) :: rest) = c :: join_bytes sep (p :: rest))
      by (destruct rest; reflexivity).
    now rewrite E, IH.
Qed.

Lemma split_bytes_no_sep s :
  Forall (fun p => ~ In sep p) (split_bytes sep s).
Proof.
  induction s as [|c s IH]; cbn [split_bytes].
  - constructor; [intros []|constructor].
  - destruct (Ascii.eqb_spec c sep) as [->|Hne].
    + constructor; [intros []|exact IH].
    + destruct (split_bytes sep s) as [|p rest].
      * constructor; [|constructor]. intros [H|[]]. congruence.
      * inversion IH as [|? ? Hp Hrest]; subst. constructor; [|exact Hrest].
        intros [H|H]; [congruence|contradiction].
Qed.

Lemma split_bytes_length s :
  List.length (split_bytes sep s) = S (count_occ ascii_dec s sep).
Proof.
  induction s as [|c s IH]; [reflexivity|]. cbn [split_bytes count_occ].
  destruct (Ascii.eqb_spec c sep) as [->|Hne].
  - destruct (ascii_dec sep sep); [|contradiction]. cbn. now rewrite IH.
  - destruct (ascii_dec c sep); [contradiction|].
    destruct (split_bytes_cons s) as (p & rest & Hs). rewrite Hs in *.
    exact IH.
Qed.

(* No other list of pieces without separator gives the string back. *)
Lemma split_bytes_unique l : forall s,
  l <> [] -> Forall (fun p => ~ In sep p) l -> join_bytes sep l = s ->
  split_bytes sep s = l.
Proof.
  induction l as [|p l IH]; intros s Hne Hall Hj; [contradiction|].
  inversion Hall as [|? ? Hp Hl]; subst. clear Hall Hne.
  induction p as [|c p IHp].
  - destruct l as [|q l]; [reflexivity|].
    cbn [join_bytes app split_bytes]. rewrite Ascii.eqb_refl.
    f_equal. apply IH; [discriminate|exact Hl|reflexivity].
  - assert (Hc : c <> sep) by (intros ->; apply Hp; now left).
    assert (Hp' : ~ In sep p) by (intros H; apply Hp; now right).
    specialize (IHp Hp').
    assert (E : join_bytes sep ((c :: p) :: l) = c :: join_bytes sep (p :: l)).
    { destruct l; reflexivity. }
    rewrite E. cbn [split_bytes].
    destruct (Ascii.eqb_spec c sep) as [?|_]; [contradiction|].
    now rewrite IHp.
Qed.

End SplitFacts.

Lemma Join_of_bytes sep (l : list (list ascii)) :
  GoStrconv.Join (List.map GoStrings.of_bytes l) (String sep "")
  = GoStrings.of_bytes (join_bytes sep l).
Proof.
  induction l as [|x l IH]; [reflexivity|].
  destruct l as [|y l]; [reflexivity|].
  change (GoStrconv.Join (List.map GoStrings.of_bytes (x :: y :: l))
            (String sep ""))
    with (String.append (GoStrings.of_bytes x)
            (String.append (String sep "")
               (GoStrconv.Join (List.map GoStrings.of_bytes (y :: l))
                  (String sep "")))).
  rewrite IH.
  change (join_bytes sep (x :: y :: l))
    with (x ++ sep :: join_bytes sep (y :: l)).
  rewrite of_bytes_app. reflexivity.
Qed.

(** X21: with WEBRTC_NAT_1TO1_IPS empty or not set, Load keeps the default
    address list; otherwise the list is the variable cut at its commas
    and at nothing else: joining the entries with commas gives the
    variable back, no entry holds a comma, there is one entry more than
    there are commas, and no other list has these properties. Entries
    are neither trimmed nor dropped when empty. *)
Theorem Load_nat_ips_split (Getenv : string -> string) :
  let v := Getenv "WEBRTC_NAT_1TO1_IPS" in
  let ips := WebRTCNAT1To1IPs (Load Getenv) in
  (v = "" -> ips = ["192.168.1.7"]) /\
  (v <> "" ->
   GoStrconv.Join ips "," = v /\
   Forall (fun ip => ~ In ","%char (GoStrings.bytes_of ip)) ips /\
   List.length ips = S (count_occ ascii_dec (GoStrings.bytes_of v) ","%char) /\
   forall l,
     l <> [] -> Forall (fun ip => ~ In ","%char (GoStrings.bytes_of ip)) l ->
     GoStrconv.Join l "," = v -> l = ips).
Proof.
  intros v ips. subst ips. cbn [WebRTCNAT1To1IPs Load]. fold v.
  split.
  - intros ->. reflexivity.
  - intros Hne. apply String.eqb_neq in Hne. rewrite Hne.
    unfold GoStrconv.Split.
    split.
    { rewrite (Join_of_bytes ","%char), split_bytes_join.
      apply of_bytes_bytes_of. }
    split.
    { apply List.Forall_map.
      eapply List.Forall_impl; [|apply split_bytes_no_sep].
      intros p Hp. now rewrite bytes_of_of_bytes. }
    split.
    { rewrite List.length_map. apply split_bytes_length. }
    intros l Hl Hall Hj.
    assert (E : GoStrconv.split_bytes ","%char (GoStrings.bytes_of v)
                = List.map GoStrings.bytes_of l).
    { apply split_bytes_unique.
      - destruct l; [contradiction|discriminate].
      - apply List.Forall_map. exact Hall.
      - rewrite <- Hj.
        assert (Hl' : l = List.map GoStrings.of_bytes
                            (List.map GoStrings.bytes_of l)).
        { rewrite List.map_map.
          rewrite (List.map_ext _ id) by (intros; apply of_bytes_bytes_of).
          symmetry. apply List.map_id. }
        rewrite Hl' at 2.
        rewrite (Join_of_bytes ","%char). now rewrite bytes_of_of_bytes. }
    rewrite E, List.map_map.
    rewrite (List.map_ext _ id) by (intros; apply of_bytes_bytes_of).
    symmetry. apply List.map_id.
Qed.

Lemma Load_nat_ips_split_witness :
  WebRTCNAT1To1IPs (Load (env_of [("WEBRTC_NAT_1TO1_IPS", "10.0.0.1, 10.0.0.2,")]))
  = ["10.0.0.1"; " 10.0.0.2"; ""].
Proof.
  destruct (Load_nat_ips_split
              (env_of [("WEBRTC_NAT_1TO1_IPS", "10.0.0.1, 10.0.0.2,")]))
    as (_ & H).
  destruct H as (_ & _ & _ & Huniq); [discriminate|].
  symmetry. apply Huniq.
  - discriminate.
  - repeat constructor; apply IndexByte_absent; reflexivity.
  - reflexivity.
Defined.
